(** * Asset-Browser: thumbnail cache keys, path classification and the
      thumbnail task, embedded from the Python sources.

    A Python [str] is modelled as a [string] holding the bytes that
    [os.fsencode] gives for it (UTF-8, the undecodable bytes of a file name
    kept as they are), Python [int] values as [Z], [os.path] as [posixpath]
    with [os.sep = "/"]. *)

From Stdlib Require Import ZArith Lia List Bool Ascii String.
From Stdlib Require Import DecimalString DecimalZ.
From Stdlib Require Import Floats Uint63.
From Stdlib Require Import Reals Lra.
From stdpp Require Import gmap strings.
Import ListNotations.

Local Open Scope Z_scope.

(* ================================================================== *)
(** * Definitions *)
(* ================================================================== *)

(** ** Python string operations used by the sources *)

Module Str.

Definition slash : ascii := "/"%char.
Definition dot : ascii := "."%char.

(** [c.lower()] on one byte: only ["A".."Z"] change. *)
Definition lower_ascii (c : ascii) : ascii :=
  let n := nat_of_ascii c in
  if ((65 <=? n) && (n <=? 90))%nat then ascii_of_nat (n + 32) else c.

(** [s.lower()] *)
Fixpoint lower (s : string) : string :=
  match s with
  | EmptyString => EmptyString
  | String c s' => String (lower_ascii c) (lower s')
  end.

(** [s.upper()] is only needed for metadata texts. *)
Definition upper_ascii (c : ascii) : ascii :=
  let n := nat_of_ascii c in
  if ((97 <=? n) && (n <=? 122))%nat then ascii_of_nat (n - 32) else c.

Fixpoint upper (s : string) : string :=
  match s with
  | EmptyString => EmptyString
  | String c s' => String (upper_ascii c) (upper s')
  end.

(** [s.startswith(p)] *)
Fixpoint startswith (s p : string) : bool :=
  match p with
  | EmptyString => true
  | String c p' =>
      match s with
      | EmptyString => false
      | String a s' => Ascii.eqb a c && startswith s' p'
      end
  end.

(** [s.endswith(suf)]: some suffix of [s] is [suf]. *)
Fixpoint endswith (s suf : string) : bool :=
  String.eqb s suf
  || match s with
     | EmptyString => false
     | String _ s' => endswith s' suf
     end.

(** [s.split(sep)] for a one-character separator. *)
Fixpoint split (sep : ascii) (s : string) : list string :=
  match s with
  | EmptyString => [EmptyString]
  | String c s' =>
      if Ascii.eqb c sep then EmptyString :: split sep s'
      else match split sep s' with
           | h :: t => String c h :: t
           | [] => [String c EmptyString]
           end
  end.

(** [sep.join(parts)] *)
Fixpoint join (sep : string) (parts : list string) : string :=
  match parts with
  | [] => EmptyString
  | [p] => p
  | p :: rest => p +:+ sep +:+ join sep rest
  end.

(** [s.replace(old, new)] for a one-character [old]. *)
Fixpoint replace (old : ascii) (new : string) (s : string) : string :=
  match s with
  | EmptyString => EmptyString
  | String c s' =>
      if Ascii.eqb c old then new +:+ replace old new s'
      else String c (replace old new s')
  end.

(** [s.rpartition(c)] without the separator: the text before and after the
    last occurrence of [c], [None] when [c] does not occur. *)
Fixpoint rpartition (c : ascii) (s : string) : option (string * string) :=
  match s with
  | EmptyString => None
  | String a s' =>
      match rpartition c s' with
      | Some (b, t) => Some (String a b, t)
      | None => if Ascii.eqb a c then Some (EmptyString, s') else None
      end
  end.

(** [c in s] for a character. *)
Fixpoint contains (c : ascii) (s : string) : bool :=
  match s with
  | EmptyString => false
  | String a s' => Ascii.eqb a c || contains c s'
  end.

(** [c * n] *)
Fixpoint repeat (c : ascii) (n : nat) : string :=
  match n with
  | O => EmptyString
  | S k => String c (repeat c k)
  end.

(** Every character of [s] is [c]. *)
Fixpoint all_char (c : ascii) (s : string) : bool :=
  match s with
  | EmptyString => true
  | String a s' => Ascii.eqb a c && all_char c s'
  end.

Definition is_empty (s : string) : bool :=
  match s with EmptyString => true | _ => false end.

(** [x in xs] for a set of strings. *)
Definition mem (x : string) (xs : list string) : bool :=
  existsb (String.eqb x) xs.

End Str.

(** ** [os.path] (posixpath) *)

Module OsPath.

Definition sep : string := "/".

(** [os.path.basename(p)]: the text after the last separator. *)
Definition basename (p : string) : string :=
  match Str.rpartition Str.slash p with
  | Some (_, t) => t
  | None => p
  end.

(** [os.path.splitext(p)[1]]: the last dot of the base name starts the
    extension, unless only dots precede it. *)
Definition splitext_ext (p : string) : string :=
  match Str.rpartition Str.dot (basename p) with
  | Some (stem, e) =>
      if Str.all_char Str.dot stem then EmptyString else String Str.dot e
  | None => EmptyString
  end.

(** [os.path.join(a, b)] *)
Definition join (a b : string) : string :=
  if Str.startswith b sep then b
  else if Str.is_empty a || Str.endswith a sep then a +:+ b
  else a +:+ sep +:+ b.

(** [os.path.join] applied to a non-empty argument list. *)
Definition join_all (parts : list string) : string :=
  match parts with
  | [] => EmptyString
  | a :: rest => fold_left join rest a
  end.

(** One round of the component loop of [normpath]. *)
Definition norm_step (initial_slashes : nat) (new_comps : list string)
    (comp : string) : list string :=
  if String.eqb comp "" || String.eqb comp "." then new_comps
  else if negb (String.eqb comp "..")
          || (Nat.eqb initial_slashes 0 && Nat.eqb (length new_comps) 0)
          || (negb (Nat.eqb (length new_comps) 0)
              && String.eqb (List.last new_comps "") "..")
  then new_comps ++ [comp]
  else List.removelast new_comps.

Definition initial_slashes (path : string) : nat :=
  if Str.startswith path "/" then
    if Str.startswith path "//" && negb (Str.startswith path "///")
    then 2%nat else 1%nat
  else 0%nat.

(** [os.path.normpath(path)] *)
Definition normpath (path : string) : string :=
  if Str.is_empty path then "." else
  let n := initial_slashes path in
  let comps := Str.split Str.slash path in
  let new_comps := fold_left (norm_step n) comps [] in
  let p := Str.repeat Str.slash n +:+ Str.join sep new_comps in
  if Str.is_empty p then "." else p.

Definition isabs (p : string) : bool := Str.startswith p sep.

(** [os.path.abspath(p)], with the process working directory explicit. *)
Definition abspath (cwd p : string) : string :=
  normpath (if isabs p then p else join cwd p).

(** Length of the common prefix of two component lists
    ([len(commonprefix([a, b]))]). *)
Fixpoint common_len (a b : list string) : nat :=
  match a, b with
  | x :: a', y :: b' => if String.eqb x y then S (common_len a' b') else O
  | _, _ => O
  end.

Definition nonempty_parts (p : string) : list string :=
  filter (fun x => negb (Str.is_empty x)) (Str.split Str.slash p).

(** [os.path.relpath(path, start)]; [None] stands for [ValueError]
    ("no path specified"). *)
Definition relpath (cwd path start : string) : option string :=
  if Str.is_empty path then None else
  let start_list := nonempty_parts (abspath cwd start) in
  let path_list := nonempty_parts (abspath cwd path) in
  let i := common_len start_list path_list in
  let rel_list :=
    List.repeat ".." (length start_list - i) ++ skipn i path_list in
  match rel_list with
  | [] => Some "."
  | _ => Some (join_all rel_list)
  end.

End OsPath.

(** The components [normpath] keeps, before they are joined again. *)
Definition norm_comps (path : string) : list string :=
  fold_left (OsPath.norm_step (OsPath.initial_slashes path))
            (Str.split Str.slash path) [].

(** Every [".."] that [normpath] keeps stands at the front of a relative
    path. *)
Definition dotdot_ok (n : nat) (comps : list string) : Prop :=
  forall pre post, comps = pre ++ ".." :: post ->
    n = 0%nat /\ Forall (fun c => c = "..") pre.

(** A kept component: no separator inside, neither empty nor ["."]. *)
Definition proper_comp (c : string) : Prop :=
  Str.contains Str.slash c = false /\ c <> "" /\ c <> ".".

(** ** [config/constants.py] *)

Definition SUPPORTED_VIDEO_EXTS : list string :=
  [".mp4"; ".mov"; ".avi"; ".mkv"; ".webm"].

Definition SUPPORTED_IMAGE_EXTS : list string :=
  [".jpg"; ".jpeg"; ".png"; ".bmp"; ".tiff"; ".tif"; ".gif";
   ".exr"; ".hdr"; ".dpx"; ".psd"; ".svg"; ".jp2"].

Definition THUMB_CACHE_VERSION : string := "2".

(** ** [utils/file_utils.py] *)

Definition is_video (path : string) : bool :=
  Str.mem (Str.lower (OsPath.splitext_ext path)) SUPPORTED_VIDEO_EXTS.

Definition is_image (path : string) : bool :=
  Str.mem (Str.lower (OsPath.splitext_ext path)) SUPPORTED_IMAGE_EXTS.

Definition archive_extensions : list string :=
  [".7z"; ".zip"; ".rar"; ".tar"; ".gz"; ".bz2"].

(** [any(part.lower().endswith(ext) for ext in archive_extensions)] *)
Definition is_archive_part (part : string) : bool :=
  existsb (fun ext => Str.endswith (Str.lower part) ext) archive_extensions.

(** [os.path.normpath(path).split(os.sep)] *)
Definition path_parts (path : string) : list string :=
  Str.split Str.slash (OsPath.normpath path).

Definition is_in_archive (path : string) : bool :=
  existsb is_archive_part (path_parts path).

(** The [for part in path_parts: if ...: return part] loop. *)
Fixpoint first_archive_part (parts : list string) : option string :=
  match parts with
  | [] => None
  | part :: rest =>
      if is_archive_part part then Some part else first_archive_part rest
  end.

Definition get_archive_name (path : string) : string :=
  match first_archive_part (path_parts path) with
  | Some part => part
  | None => ""
  end.

(** A segment "whose lowercase form ends with one of the archive
    extensions", in the words of the specification. *)
Definition ends_with_archive_ext (seg : string) : Prop :=
  exists ext, In ext [".7z"; ".zip"; ".rar"; ".tar"; ".gz"; ".bz2"]
              /\ Str.endswith (Str.lower seg) ext = true.

(** ** [hashlib.sha1] (FIPS 180-4), on 32-bit words written as [Z] *)

Module SHA1.

Definition w32 (x : Z) : Z := x mod 2 ^ 32.

Definition rotl (n x : Z) : Z :=
  w32 (Z.lor (Z.shiftl x n) (Z.shiftr x (32 - n))).

(** [payload.encode()]: the bytes of the text. *)
Fixpoint bytes (s : string) : list Z :=
  match s with
  | EmptyString => []
  | String c s' => Z.of_N (N_of_ascii c) :: bytes s'
  end.

Definition be64 (v : Z) : list Z :=
  map (fun i => Z.land (Z.shiftr v (8 * i)) 255) [7; 6; 5; 4; 3; 2; 1; 0].

Definition pad (msg : list Z) : list Z :=
  let len := Z.of_nat (length msg) in
  msg ++ [128] ++ List.repeat 0 (Z.to_nat ((55 - len) mod 64))
      ++ be64 (8 * len).

Fixpoint words (bs : list Z) : list Z :=
  match bs with
  | a :: b :: c :: d :: r =>
      (Z.shiftl a 24 + Z.shiftl b 16 + Z.shiftl c 8 + d) :: words r
  | _ => []
  end.

Fixpoint blocks (fuel : nat) (ws : list Z) : list (list Z) :=
  match fuel, ws with
  | S k, _ :: _ => firstn 16 ws :: blocks k (skipn 16 ws)
  | _, _ => []
  end.

(** Message schedule, most recent word first. *)
Fixpoint extend (n : nat) (rev_w : list Z) : list Z :=
  match n with
  | O => rev_w
  | S k =>
      let w := rotl 1 (Z.lxor (Z.lxor (Z.lxor (nth 2 rev_w 0) (nth 7 rev_w 0))
                                      (nth 13 rev_w 0)) (nth 15 rev_w 0)) in
      extend k (w :: rev_w)
  end.

Definition schedule (block : list Z) : list Z := rev (extend 64 (rev block)).

Definition f (t : nat) (b c d : Z) : Z :=
  if (t <? 20)%nat then Z.lor (Z.land b c) (Z.land (Z.lxor b 0xFFFFFFFF) d)
  else if (t <? 40)%nat then Z.lxor (Z.lxor b c) d
  else if (t <? 60)%nat then
    Z.lor (Z.lor (Z.land b c) (Z.land b d)) (Z.land c d)
  else Z.lxor (Z.lxor b c) d.

Definition k (t : nat) : Z :=
  if (t <? 20)%nat then 0x5A827999
  else if (t <? 40)%nat then 0x6ED9EBA1
  else if (t <? 60)%nat then 0x8F1BBCDC
  else 0xCA62C1D6.

Definition regs : Type := Z * Z * Z * Z * Z.

Definition round (st : regs) (tw : nat * Z) : regs :=
  let '(a, b, c, d, e) := st in
  let '(t, w) := tw in
  (w32 (rotl 5 a + f t b c d + e + k t + w), a, rotl 30 b, c, d).

Definition compress (h : regs) (block : list Z) : regs :=
  let '(h0, h1, h2, h3, h4) := h in
  let '(a, b, c, d, e) :=
    fold_left round (combine (seq 0 80) (schedule block)) h in
  (w32 (h0 + a), w32 (h1 + b), w32 (h2 + c), w32 (h3 + d), w32 (h4 + e)).

Definition init : regs :=
  (0x67452301, 0xEFCDAB89, 0x98BADCFE, 0x10325476, 0xC3D2E1F0).

Definition hex_digit (n : Z) : ascii :=
  if n <? 10 then ascii_of_N (Z.to_N (48 + n))
  else ascii_of_N (Z.to_N (87 + n)).

Definition hex32 (x : Z) : string :=
  string_of_list_ascii
    (map (fun i => hex_digit (Z.land (Z.shiftr x (4 * i)) 15))
         [7; 6; 5; 4; 3; 2; 1; 0]).

(** [hashlib.sha1(payload).hexdigest()] *)
Definition hexdigest (s : string) : string :=
  let ws := words (pad (bytes s)) in
  let '(h0, h1, h2, h3, h4) :=
    fold_left compress (blocks (length ws) ws) init in
  hex32 h0 +:+ hex32 h1 +:+ hex32 h2 +:+ hex32 h3 +:+ hex32 h4.

End SHA1.

(** ** Exceptions *)

Inductive pyexn : Type :=
| FileNotFoundError
| NotADirectoryError   (* a component of the path is a regular file *)
| OSError              (* any other [OSError]: permissions, ... *)
| ValueError
| ZeroDivisionError
| UnicodeEncodeError
| cv2_error.

Inductive result (A : Type) : Type :=
| Ok (a : A)
| Raise (e : pyexn).
Arguments Ok {A} a.
Arguments Raise {A} e.

(** ** [str.encode()]

    [s.encode()] raises [UnicodeEncodeError] when the text holds a lone
    surrogate, which is how Python keeps an undecodable byte of a file name:
    it succeeds exactly when the bytes of the text are well-formed UTF-8,
    and then returns these bytes. *)

Module Utf8.

(** What the bytes read so far still require. *)
Inductive state : Type :=
| Start          (* at a character boundary *)
| Cont1          (* one continuation byte *)
| Cont2          (* two continuation bytes *)
| Cont3          (* three continuation bytes *)
| AfterE0        (* [A0..BF], then one continuation byte *)
| AfterED        (* [80..9F], then one continuation byte *)
| AfterF0        (* [90..BF], then two continuation bytes *)
| AfterF4.       (* [80..8F], then two continuation bytes *)

Definition between (lo hi : N) (c : ascii) : bool :=
  let n := N_of_ascii c in ((lo <=? n) && (n <=? hi))%N.

Definition step (st : state) (c : ascii) : option state :=
  match st with
  | Start =>
      if between 0 127 c then Some Start
      else if between 194 223 c then Some Cont1
      else if between 224 224 c then Some AfterE0
      else if between 225 236 c then Some Cont2
      else if between 237 237 c then Some AfterED
      else if between 238 239 c then Some Cont2
      else if between 240 240 c then Some AfterF0
      else if between 241 243 c then Some Cont3
      else if between 244 244 c then Some AfterF4
      else None
  | Cont1 => if between 128 191 c then Some Start else None
  | Cont2 => if between 128 191 c then Some Cont1 else None
  | Cont3 => if between 128 191 c then Some Cont2 else None
  | AfterE0 => if between 160 191 c then Some Cont1 else None
  | AfterED => if between 128 159 c then Some Cont1 else None
  | AfterF0 => if between 144 191 c then Some Cont2 else None
  | AfterF4 => if between 128 143 c then Some Cont2 else None
  end.

Fixpoint run (st : state) (s : string) : bool :=
  match s with
  | EmptyString => match st with Start => true | _ => false end
  | String c s' =>
      match step st c with
      | Some st' => run st' s'
      | None => false
      end
  end.

(** The bytes are well-formed UTF-8. *)
Definition valid (s : string) : bool := run Start s.

(** Every byte is below 128. *)
Fixpoint all_ascii (s : string) : bool :=
  match s with
  | EmptyString => true
  | String c s' => between 0 127 c && all_ascii s'
  end.

End Utf8.

(** [s.encode()] *)
Definition encode (s : string) : result string :=
  if Utf8.valid s then Ok s else Raise UnicodeEncodeError.

(** What [os.stat(path)] does: the two fields the cache key reads, or the
    exception it raises. *)
Inductive stat_result : Type :=
| StatOk (st_mtime_ns st_size : Z)
| StatRaises (e : pyexn).

(** ** [thumbnail/cache.py]: [CacheManager] *)

(** [str(n)] inside an f-string. *)
Definition str_of_int (z : Z) : string := NilEmpty.string_of_int (Z.to_int z).

(** [hashlib.sha1(payload).hexdigest()] after [payload = text.encode()] *)
Definition sha1_of_text (text : string) : result string :=
  match encode text with
  | Ok payload => Ok (SHA1.hexdigest payload)
  | Raise e => Raise e
  end.

(** [hash_for_file(path)]: only [FileNotFoundError] is caught, and both
    payloads are encoded, which fails for a path that is not UTF-8. *)
Definition hash_for_file (os_stat : string -> stat_result) (path : string)
  : result string :=
  match os_stat path with
  | StatOk st_mtime_ns st_size =>
      sha1_of_text
        (THUMB_CACHE_VERSION +:+ "|" +:+ path +:+ "|"
           +:+ str_of_int st_mtime_ns +:+ "|" +:+ str_of_int st_size)
  | StatRaises FileNotFoundError =>
      sha1_of_text (THUMB_CACHE_VERSION +:+ "|" +:+ path)
  | StatRaises e => Raise e
  end.

Definition backslash : ascii := ascii_of_nat 92.

(** [generate_cache_root(current_project, folder)]; [cwd] is the working
    directory of the process, which [os.path.relpath] reads. *)
Definition generate_cache_root (cwd : string) (current_project : option string)
    (folder : string) : string :=
  match current_project with
  | Some project =>
      if Str.is_empty project then OsPath.join folder ".assetbrowser_cache"
      else
        let project_name := OsPath.basename project in
        let cache_folder_name := project_name +:+ "_AssetBrowserCache" in
        let cache_root := OsPath.join project cache_folder_name in
        match OsPath.relpath cwd folder project with
        | Some rel_path =>
            if negb (Str.is_empty rel_path) && negb (String.eqb rel_path ".")
            then
              let safe_rel_path :=
                Str.replace backslash "_"
                  (Str.replace Str.slash "_"
                     (Str.replace Str.slash "_" rel_path)) in
              OsPath.join cache_root safe_rel_path
            else cache_root
        | None => cache_root
        end
  | None => OsPath.join folder ".assetbrowser_cache"
  end.

(** The payload of the cache key in the words of the specification: the
    format version, the path, the mtime and the size, joined. *)
Definition key_payload (version path : string) (mtime size : Z) : string :=
  Str.join "|" [version; path; str_of_int mtime; str_of_int size].

Definition key_payload_missing (version path : string) : string :=
  Str.join "|" [version; path].

(** The field separator of the key payload. *)
Definition bar : ascii := "|"%char.

(** Two distinct payloads with one digest. *)
Definition sha1_collision (x y : string) : Prop :=
  x <> y /\ SHA1.hexdigest x = SHA1.hexdigest y.

(** ** Python [float] (IEEE binary64)

    A finite float is written [man * 2 ^ exp]; every operation rounds the
    exact result to 53 significant bits, ties to even.  The exponent range is
    not bounded: quotients and products of integers below [2 ^ 63] stay
    far inside the normal range of binary64. *)

Module Float.

Record t : Type := mk { man : Z; exp : Z }.

(** [floor (log2 (p / q))] for positive [p] and [q]. *)
Definition ilog2_ratio (p q : Z) : Z :=
  let l := Z.log2 p - Z.log2 q in
  let ge := if 0 <=? l then q * 2 ^ l <=? p else q <=? p * 2 ^ (- l) in
  if ge then l else l - 1.

(** [num / den] rounded to the nearest integer, ties to even ([den > 0]). *)
Definition round_half_even (num den : Z) : Z :=
  let q := num / den in
  let r := num mod den in
  if 2 * r <? den then q
  else if den <? 2 * r then q + 1
  else if Z.even q then q else q + 1.

Definition rne_pos (p q : Z) : t :=
  let e := ilog2_ratio p q - 52 in
  let m := if 0 <=? e then round_half_even p (q * 2 ^ e)
           else round_half_even (p * 2 ^ (- e)) q in
  mk m e.

(** The float nearest to [p / q] ([q > 0]). *)
Definition rne (p q : Z) : t :=
  if p =? 0 then mk 0 0
  else if p <? 0 then let r := rne_pos (- p) q in mk (- man r) (exp r)
  else rne_pos p q.

(** [float(n)] *)
Definition of_int (n : Z) : t := rne n 1.

(** [a / b] on two [int]s: the correctly rounded quotient. *)
Definition truediv (a b : Z) : result t :=
  if b =? 0 then Raise ZeroDivisionError
  else if b <? 0 then Ok (rne (- a) (- b))
  else Ok (rne a b).

(** [x * y] *)
Definition mul (x y : t) : t :=
  let m := man x * man y in
  let e := exp x + exp y in
  if 0 <=? e then rne (m * 2 ^ e) 1 else rne m (2 ^ (- e)).

(** [x < y] *)
Definition ltb (x y : t) : bool :=
  let e := Z.min (exp x) (exp y) in
  man x * 2 ^ (exp x - e) <? man y * 2 ^ (exp y - e).

Definition eqb (x y : t) : bool := negb (ltb x y) && negb (ltb y x).

(** [min(x, y)]: the first argument unless the second is smaller. *)
Definition min (x y : t) : t := if ltb y x then y else x.

(** [int(x)]: truncation toward zero. *)
Definition trunc (x : t) : Z :=
  if 0 <=? exp x then man x * 2 ^ exp x
  else Z.quot (man x) (2 ^ (- exp x)).

(** [round(x)] for [x >= 0]: nearest integer, ties to even. *)
Definition round (x : t) : Z :=
  if 0 <=? exp x then man x * 2 ^ exp x
  else round_half_even (man x) (2 ^ (- exp x)).

End Float.

(** The same operations on the primitive binary64 floats of the kernel, to
    test [Float] against the hardware arithmetic. *)
Definition prim_of_int (n : Z) : PrimFloat.float :=
  PrimFloat.of_uint63 (Uint63.of_Z n).

Definition prim_value (x : PrimFloat.float) : Float.t :=
  match FloatOps.Prim2SF x with
  | SpecFloat.S754_finite s m e =>
      Float.mk (if s then Z.neg m else Z.pos m) e
  | _ => Float.mk 0 0
  end.

(** ** Arrays and the error monad *)

(** An image array of shape [(h, w, 3)]: what a decoder returned, a
    placeholder ([np.full] then [cv2.putText]), or a canvas with a resized
    source pasted at [(y0, x0)]. *)
Inductive ndarray : Type :=
| Decoded (h w : Z) (id : nat)
| Placeholder (h w : Z) (label : string) (org_x org_y : Z)
| Composite (h w : Z) (y0 x0 new_h new_w : Z) (src : ndarray).

Definition shape (a : ndarray) : Z * Z :=
  match a with
  | Decoded h w _ => (h, w)
  | Placeholder h w _ _ _ => (h, w)
  | Composite h w _ _ _ _ _ => (h, w)
  end.

Definition rbind {A B : Type} (r : result A) (k : A -> result B) : result B :=
  match r with
  | Ok a => k a
  | Raise e => Raise e
  end.

(** ** [thumbnail/thumb_task.py]: the compositor *)

(** [int(thumb_size * 9 / 16)] *)
Definition thumb_height_of (thumb_size : Z) : result Z :=
  rbind (Float.truediv (thumb_size * 9) 16) (fun q => Ok (Float.trunc q)).

(** [scale = min(thumb_size / w, thumb_height / h)] and
    [new_w, new_h = max(1, int(w*scale)), max(1, int(h*scale))]. *)
Definition scaled_size (h w thumb_size thumb_height : Z) : result (Z * Z) :=
  rbind (Float.truediv thumb_size w) (fun sw =>
  rbind (Float.truediv thumb_height h) (fun sh =>
  let scale := Float.min sw sh in
  let new_w := Z.max 1 (Float.trunc (Float.mul (Float.of_int w) scale)) in
  let new_h := Z.max 1 (Float.trunc (Float.mul (Float.of_int h) scale)) in
  Ok (new_w, new_h))).

(** The canvas of a decoded raster: [np.full] rejects a negative dimension;
    the resized image goes to [y0 = (thumb_height - new_h) // 2] and
    [x0 = (thumb_size - new_w) // 2]. *)
Definition composite_canvas (img_bgr : ndarray) (thumb_size : Z)
  : result ndarray :=
  let '(h, w) := shape img_bgr in
  rbind (thumb_height_of thumb_size) (fun thumb_height =>
  rbind (scaled_size h w thumb_size thumb_height) (fun '(new_w, new_h) =>
  if (thumb_height <? 0) || (thumb_size <? 0) then Raise ValueError
  else
    let y0 := (thumb_height - new_h) / 2 in
    let x0 := (thumb_size - new_w) / 2 in
    Ok (Composite thumb_height thumb_size y0 x0 new_h new_w img_bgr))).

(** The size of the pasted content in the words of the specification:
    [round], not [int]. *)
Definition spec_scaled_size (h w W : Z) : result (Z * Z) :=
  let target_height := W * 9 / 16 in
  rbind (Float.truediv W w) (fun sw =>
  rbind (Float.truediv target_height h) (fun sh =>
  let scale := Float.min sw sh in
  Ok (Z.max 1 (Float.round (Float.mul (Float.of_int w) scale)),
      Z.max 1 (Float.round (Float.mul (Float.of_int h) scale))))).

(** One comparison of [Float] with the primitive floats: the quotient
    [a / b] and the product [c * (a / b)]. *)
Definition float_agrees (a b c : Z) : bool :=
  let q := PrimFloat.div (prim_of_int a) (prim_of_int b) in
  match Float.truediv a b with
  | Ok x =>
      Float.eqb x (prim_value q)
      && Float.eqb (Float.mul (Float.of_int c) x)
                   (prim_value (PrimFloat.mul (prim_of_int c) q))
  | Raise _ => false
  end.

(** The size [(new_w, new_h)] of the content pasted on a canvas. *)
Definition pasted_size (canvas : ndarray) : option (Z * Z) :=
  match canvas with
  | Composite _ _ _ _ new_h new_w _ => Some (new_w, new_h)
  | _ => None
  end.

(** ** The world of one task

    The operating system and the two image libraries answer by path; the
    answers are fixed while one task runs.  What the task does to the world is
    kept in a log of events. *)

(** An opened [cv2.VideoCapture]: whether it reports a positive frame rate,
    and what [cap.read()] returns at position 0 and after seeking to
    1000 ms. *)
Record video : Type := {
  v_fps_positive : bool;
  v_frame_start : option ndarray;
  v_frame_1s : option ndarray
}.

Record World : Type := {
  os_stat : string -> stat_result;
  os_makedirs : string -> result unit;          (* [exist_ok=True] *)
  os_path_exists : string -> bool;
  cv2_imread : string -> result (option ndarray);
  cv2_imwrite : string -> ndarray -> result unit;
  cv2_VideoCapture : string -> option video;    (* [None]: not opened *)
  video_props_text : string -> string;          (* size, fps, duration, ... *)
  oiio_available : bool;                        (* [oiio is not None] *)
  oiio_read : string -> option ndarray;         (* [None]: any exception *)
  oiio_spec_text : string -> string
}.

Definition QPixmap : Type := ndarray.

Record ThumbResult : Type := {
  path : string;
  pixmap : option QPixmap;
  meta_text : string
}.

Inductive event : Type :=
| Makedirs (p : string)
| Imread (p : string)               (* [cv2.imread(p)] *)
| OiioOpen (p : string)             (* [oiio.ImageInput.open(p)], to decode *)
| OiioSpec (p : string)             (* [oiio.ImageInput.open(p)], for metadata *)
| VideoOpen (p : string)            (* [cv2.VideoCapture(p)] *)
| Imwrite (p : string) (img : ndarray)
| Emit (r : ThumbResult).           (* [signals.done.emit(r)] *)

(** A computation logs events and returns or raises. *)
Definition M (A : Type) : Type := list event * result A.

Definition ret {A : Type} (a : A) : M A := ([], Ok a).

Definition raise {A : Type} (e : pyexn) : M A := ([], Raise e).

Definition lift {A : Type} (r : result A) : M A := ([], r).

Definition tell (ev : event) : M unit := ([ev], Ok tt).

Definition bind {A B : Type} (m : M A) (k : A -> M B) : M B :=
  match m with
  | (l, Ok a) => let '(l', r) := k a in (l ++ l', r)
  | (l, Raise e) => (l, Raise e)
  end.

Notation "x <- m ;; k" := (bind m (fun x => k))
  (at level 62, m at next level, right associativity).
Notation "m ;;; k" := (bind m (fun _ => k))
  (at level 62, right associativity).

Definition pyexn_eqb (a b : pyexn) : bool :=
  match a, b with
  | FileNotFoundError, FileNotFoundError => true
  | NotADirectoryError, NotADirectoryError => true
  | OSError, OSError => true
  | UnicodeEncodeError, UnicodeEncodeError => true
  | ValueError, ValueError => true
  | ZeroDivisionError, ZeroDivisionError => true
  | cv2_error, cv2_error => true
  | _, _ => false
  end.

(** [try: m except e: handler] *)
Definition try_except {A : Type} (m : M A) (e : pyexn) (handler : M A) : M A :=
  match m with
  | (l, Raise e') =>
      if pyexn_eqb e e' then let '(l', r) := handler in (l ++ l', r) else m
  | _ => m
  end.

(** [try: m except Exception: pass] *)
Definition try_ignore (m : M unit) : M unit :=
  match m with
  | (l, Raise _) => (l, Ok tt)
  | _ => m
  end.

Definition nl : string := String (ascii_of_nat 10) EmptyString.

(** [s[1:]] *)
Definition tail_str (s : string) : string :=
  match s with
  | EmptyString => EmptyString
  | String _ s' => s'
  end.

(** ** [thumbnail/image_processor.py]: [ImageProcessor] *)

(** [to_qimage(img, is_bgr=True)]: [cv2.cvtColor] rejects an empty array. *)
Definition to_qimage (img : ndarray) : result QPixmap :=
  let '(h, w) := shape img in
  if (h =? 0) || (w =? 0) then Raise cv2_error else Ok img.

(** [read_image_oiio]: nothing is opened without the library or for a video
    extension; every exception of the reader gives [None]. *)
Definition read_image_oiio (w : World) (path : string) : M (option ndarray) :=
  if negb (oiio_available w) then ret None
  else if Str.mem (Str.lower (OsPath.splitext_ext path)) SUPPORTED_VIDEO_EXTS
  then ret None
  else tell (OiioOpen path) ;;; ret (oiio_read w path).

Definition read_metadata_oiio (w : World) (path : string) : M string :=
  if negb (oiio_available w) then ret ""
  else
    let ext := Str.lower (OsPath.splitext_ext path) in
    if Str.mem ext SUPPORTED_VIDEO_EXTS
    then ret ("Video file: " +:+ Str.upper ext)
    else tell (OiioSpec path) ;;; ret (oiio_spec_text w path).

(** [extract_frame_video]: the archive scan and the existence check come
    before [cv2.VideoCapture]. *)
Definition extract_frame_video (w : World) (path : string)
  : M (option ndarray) :=
  let normalized_path := OsPath.normpath path in
  let path_parts := Str.split Str.slash normalized_path in
  match first_archive_part path_parts with
  | Some _ => ret None
  | None =>
      if negb (os_path_exists w normalized_path) then ret None
      else
        tell (VideoOpen normalized_path) ;;;
        match cv2_VideoCapture w normalized_path with
        | None => ret None
        | Some cap =>
            ret (if v_fps_positive cap then v_frame_1s cap
                 else v_frame_start cap)
        end
  end.

(** [ext[1:] if ext else 'Unknown'] for [ext = splitext(path)[1].upper()] *)
Definition format_label (path : string) : string :=
  let ext := Str.upper (OsPath.splitext_ext path) in
  if Str.is_empty ext then "Unknown" else tail_str ext.

Definition get_video_metadata (w : World) (path : string) : M string :=
  let normalized_path := OsPath.normpath path in
  let path_parts := Str.split Str.slash normalized_path in
  match first_archive_part path_parts with
  | Some archive_name =>
      ret ("Video file in archive: " +:+ archive_name +:+ nl
           +:+ "Format: " +:+ format_label path +:+ nl
           +:+ "Note: Extract archive to view video")
  | None =>
      if negb (os_path_exists w normalized_path)
      then ret ("Video file not found" +:+ nl +:+ "Format: "
                +:+ format_label path)
      else
        tell (VideoOpen normalized_path) ;;;
        match cv2_VideoCapture w normalized_path with
        | None => ret ("Cannot open video file" +:+ nl +:+ "Format: "
                       +:+ format_label path)
        | Some _ => ret (video_props_text w normalized_path)
        end
  end.

(** ** [thumbnail/cache.py]: [CacheManager.get_cache_path] *)

Definition makedirs (w : World) (p : string) : M unit :=
  tell (Makedirs p) ;;; lift (os_makedirs w p).

Definition get_cache_path (w : World) (cache_root src_path : string)
  : M string :=
  h <- lift (hash_for_file (os_stat w) src_path) ;;
  let sub := OsPath.join cache_root (String.substring 0 2 h) in
  makedirs w sub ;;;
  ret (OsPath.join sub (h +:+ ".png")).

(** ** [thumbnail/thumb_task.py]: [ThumbTask] *)

Definition imread (w : World) (p : string) : M (option ndarray) :=
  tell (Imread p) ;;; lift (cv2_imread w p).

(** The cache check: a cache file that cannot be read is a miss. *)
Definition load_cached (w : World) (cache_path : string)
  : M (option ndarray) :=
  if os_path_exists w cache_path then imread w cache_path else ret None.

(** The three decode branches, by the extension of the normalized path. *)
Definition decode_media (w : World) (path : string)
  : M (option ndarray * string) :=
  let normalized_path := OsPath.normpath path in
  if is_video normalized_path then
    img_bgr <- extract_frame_video w normalized_path ;;
    meta <- get_video_metadata w normalized_path ;;
    ret (img_bgr, meta)
  else if is_image normalized_path then
    img_bgr <- read_image_oiio w normalized_path ;;
    meta <- read_metadata_oiio w normalized_path ;;
    match img_bgr with
    | Some _ => ret (img_bgr, meta)
    | None =>
        img_bgr <- try_except (imread w normalized_path) cv2_error (ret None) ;;
        ret (img_bgr, meta)
    end
  else
    try_except
      (img_bgr <- imread w normalized_path ;;
       meta <- read_metadata_oiio w normalized_path ;;
       ret (img_bgr, meta))
      cv2_error
      (img_bgr <- read_image_oiio w normalized_path ;;
       meta <- read_metadata_oiio w normalized_path ;;
       ret (img_bgr, meta)).

(** [meta or default] *)
Definition or_default (meta default : string) : string :=
  if Str.is_empty meta then default else meta.

(** No raster: the placeholder canvas, with the archive mark when the path
    runs through an archive.  Nothing is written. *)
Definition make_placeholder (path : string) (thumb_size : Z) (meta : string)
  : M (QPixmap * string) :=
  thumb_height <- lift (thumb_height_of thumb_size) ;;
  if (thumb_height <? 0) || (thumb_size <? 0) then raise ValueError
  else if is_in_archive path then
    let thumb := Placeholder thumb_height thumb_size "ZIP"
                   (thumb_size / 2 - 20) (thumb_height / 2 + 10) in
    let archive_name := get_archive_name path in
    let meta := or_default meta
                  ("File in compressed archive: " +:+ archive_name +:+ nl
                   +:+ "Extract archive to view content") in
    qimg <- lift (to_qimage thumb) ;;
    ret (qimg, meta)
  else
    let thumb := Placeholder thumb_height thumb_size "?"
                   (thumb_size / 2 - 10) (thumb_height / 2 + 10) in
    let meta := or_default meta "(unsupported or failed to load)" in
    qimg <- lift (to_qimage thumb) ;;
    ret (qimg, meta).

(** A raster: composite it, try to write the cache file, return the canvas. *)
Definition finish_thumbnail (w : World) (img_bgr : ndarray)
    (cache_path : string) (thumb_size : Z) (meta : string)
  : M (QPixmap * string) :=
  canvas <- lift (composite_canvas img_bgr thumb_size) ;;
  try_ignore (tell (Imwrite cache_path canvas) ;;;
              lift (cv2_imwrite w cache_path canvas)) ;;;
  qimg <- lift (to_qimage canvas) ;;
  ret (qimg, meta).

(** The first two statements of [_make_thumbnail]: create the cache root,
    derive the cache path. *)
Definition prepare_cache (w : World) (path cache_root : string) : M string :=
  makedirs w cache_root ;;;
  get_cache_path w cache_root path.

Definition _make_thumbnail (w : World) (path : string) (thumb_size : Z)
    (cache_root : string) : M (QPixmap * string) :=
  cache_path <- prepare_cache w path cache_root ;;
  cached <- load_cached w cache_path ;;
  match cached with
  | Some img =>
      pixmap <- lift (to_qimage img) ;;
      meta <- (if is_video path then get_video_metadata w path
               else read_metadata_oiio w path) ;;
      ret (pixmap, meta)
  | None =>
      decoded <- decode_media w path ;;
      match decoded with
      | (None, meta) => make_placeholder path thumb_size meta
      | (Some img_bgr, meta) =>
          finish_thumbnail w img_bgr cache_path thumb_size meta
      end
  end.

(** [ThumbTask.run] *)
Definition run (w : World) (path : string) (thumb_size : Z)
    (cache_root : string) : M unit :=
  made <- _make_thumbnail w path thumb_size cache_root ;;
  let '(pixmap, meta_text) := made in
  tell (Emit {| path := path; pixmap := Some pixmap; meta_text := meta_text |}).

(** ** Reading a log *)

Definition is_emit (ev : event) : bool :=
  match ev with Emit _ => true | _ => false end.

Definition is_write (ev : event) : bool :=
  match ev with Imwrite _ _ => true | _ => false end.

(** The task opens [p] as media: with [cv2.imread], OpenImageIO or
    [cv2.VideoCapture]. *)
Definition opens_media (p : string) (ev : event) : bool :=
  match ev with
  | Imread q | OiioOpen q | OiioSpec q | VideoOpen q => String.eqb p q
  | _ => false
  end.

Definition is_oiio_decode (ev : event) : bool :=
  match ev with OiioOpen _ => true | _ => false end.

(** The results a task delivered. *)
Definition emitted (l : list event) : list ThumbResult :=
  flat_map (fun ev => match ev with Emit r => [r] | _ => [] end) l.

(** The files of the cache after the writes of a log. *)
Definition files_after (w : World) (l : list event)
    (files : gmap string ndarray) : gmap string ndarray :=
  fold_left (fun fs ev =>
               match ev with
               | Imwrite p img =>
                   match cv2_imwrite w p img with
                   | Ok _ => <[p := img]> fs
                   | Raise _ => fs
                   end
               | _ => fs
               end) l files.

(** "On a cache miss, or on an unreadable cache file". *)
Definition cache_miss (w : World) (cache_path : string) : Prop :=
  os_path_exists w cache_path = false \/ cv2_imread w cache_path = Ok None.

(** [s] mentions [name]. *)
Definition mentions (s name : string) : Prop :=
  exists pre post, s = pre +:+ name +:+ post.

(** ** Worlds for the examples *)

(** An empty disk: nothing exists, every directory can be created,
    OpenImageIO is installed and no reader decodes anything. *)
Definition empty_world : World := {|
  os_stat := fun _ => StatRaises FileNotFoundError;
  os_makedirs := fun _ => Ok tt;
  os_path_exists := fun _ => false;
  cv2_imread := fun _ => Ok None;
  cv2_imwrite := fun _ _ => Ok tt;
  cv2_VideoCapture := fun _ => None;
  video_props_text := fun _ => "";
  oiio_available := true;
  oiio_read := fun _ => None;
  oiio_spec_text := fun _ => ""
|}.

(** One file [p] of 4096 bytes that OpenImageIO decodes to a 640 x 480
    raster and [cv2.imread] cannot read. *)
Definition world_with_oiio_image (p : string) : World := {|
  os_stat := fun q => if String.eqb q p then StatOk 17 4096
                      else StatRaises FileNotFoundError;
  os_makedirs := fun _ => Ok tt;
  os_path_exists := fun q => String.eqb q p;
  cv2_imread := fun _ => Ok None;
  cv2_imwrite := fun _ _ => Ok tt;
  cv2_VideoCapture := fun _ => None;
  video_props_text := fun _ => "";
  oiio_available := true;
  oiio_read := fun q => if String.eqb q p then Some (Decoded 480 640 1)
                        else None;
  oiio_spec_text := fun q => if String.eqb q p then "640x480x3, format=uint8"
                             else ""
|}.

(** The cache root is the path of a regular file, so that
    [os.makedirs(cache_root, exist_ok=True)] raises [FileExistsError]. *)
Definition world_cache_root_is_file (cache_root : string) : World := {|
  os_stat := fun _ => StatOk 17 4096;
  os_makedirs := fun q => if String.eqb q cache_root then Raise OSError
                          else Ok tt;
  os_path_exists := fun q => String.eqb q cache_root;
  cv2_imread := fun _ => Ok (Some (Decoded 480 640 1));
  cv2_imwrite := fun _ _ => Ok tt;
  cv2_VideoCapture := fun _ => None;
  video_props_text := fun _ => "";
  oiio_available := true;
  oiio_read := fun _ => None;
  oiio_spec_text := fun _ => ""
|}.

(** Every event of the log of [m] satisfies [P]. *)
Definition logs {A : Type} (P : event -> bool) (m : M A) : Prop :=
  Forall (fun ev => P ev = true) (fst m).

Definition no_write (ev : event) : bool := negb (is_write ev).

Definition no_emit (ev : event) : bool := negb (is_emit ev).

Definition no_oiio_decode (ev : event) : bool := negb (is_oiio_decode ev).

(** The log of a cache check that misses. *)
Definition lookup_log (w : World) (cache_path : string) : list event :=
  if os_path_exists w cache_path then [Imread cache_path] else [].

(** The metadata text of a video inside the archive [archive_name]. *)
Definition archived_video_text (archive_name path : string) : string :=
  "Video file in archive: " +:+ archive_name +:+ nl
  +:+ "Format: " +:+ format_label path +:+ nl
  +:+ "Note: Extract archive to view video".

(** ** The world after a run

    What a later task finds: a directory that was created exists, and a file
    that [cv2.imwrite] wrote exists and reads back as the array written (the
    cache files are PNG, which is lossless). *)
Definition world_step (w0 w : World) (ev : event) : World :=
  match ev with
  | Makedirs p =>
      match os_makedirs w0 p with
      | Ok _ =>
          {| os_stat := os_stat w;
             os_makedirs := os_makedirs w;
             os_path_exists := fun q => String.eqb q p || os_path_exists w q;
             cv2_imread := cv2_imread w;
             cv2_imwrite := cv2_imwrite w;
             cv2_VideoCapture := cv2_VideoCapture w;
             video_props_text := video_props_text w;
             oiio_available := oiio_available w;
             oiio_read := oiio_read w;
             oiio_spec_text := oiio_spec_text w |}
      | Raise _ => w
      end
  | Imwrite p img =>
      match cv2_imwrite w0 p img with
      | Ok _ =>
          {| os_stat := os_stat w;
             os_makedirs := os_makedirs w;
             os_path_exists := fun q => String.eqb q p || os_path_exists w q;
             cv2_imread := fun q => if String.eqb q p then Ok (Some img)
                                    else cv2_imread w q;
             cv2_imwrite := cv2_imwrite w;
             cv2_VideoCapture := cv2_VideoCapture w;
             video_props_text := video_props_text w;
             oiio_available := oiio_available w;
             oiio_read := oiio_read w;
             oiio_spec_text := oiio_spec_text w |}
      | Raise _ => w
      end
  | _ => w
  end.

Definition world_after (w : World) (l : list event) : World :=
  fold_left (world_step w) l w.

(** The metadata reader of the cache-hit branch. *)
Definition fresh_metadata (w : World) (p : string) : M string :=
  if is_video p then get_video_metadata w p else read_metadata_oiio w p.

Definition no_decode (ev : event) : bool :=
  match ev with
  | OiioOpen _ | Imwrite _ _ => false
  | _ => true
  end.

(** The world of [world_with_oiio_image p] after the cache file [cp] was
    written with [canvas]. *)
Definition world_with_cached (p cp : string) (canvas : ndarray) : World :=
  world_after (world_with_oiio_image p) [Imwrite cp canvas].

(** ** Shapes used by the properties of the cache path *)

(** The alphabet of [hexdigest()]. *)
Definition is_hex_lower (c : ascii) : bool :=
  Str.contains c "0123456789abcdef".

Fixpoint all_hex (s : string) : bool :=
  match s with
  | EmptyString => true
  | String c s' => is_hex_lower c && all_hex s'
  end.

(** [utils/file_utils.py]: [is_supported_asset] *)
Definition is_supported_asset (path : string) : bool :=
  is_image path || is_video path.

(** [os.stat(p)] raises [e]; every other file is missing. *)
Definition world_stat_fails (p : string) (e : pyexn) : World := {|
  os_stat := fun q => if String.eqb q p then StatRaises e
                      else StatRaises FileNotFoundError;
  os_makedirs := fun _ => Ok tt;
  os_path_exists := fun _ => false;
  cv2_imread := fun _ => Ok None;
  cv2_imwrite := fun _ _ => Ok tt;
  cv2_VideoCapture := fun _ => None;
  video_props_text := fun _ => "";
  oiio_available := true;
  oiio_read := fun _ => None;
  oiio_spec_text := fun _ => ""
|}.

(** The [rel_list] of [os.path.relpath(folder, project)] for absolute
    paths: one [".."] per component of the project that the folder does not
    share, then the rest of the folder. *)
Definition rel_comps (project folder : string) : list string :=
  let start_list := norm_comps project in
  let path_list := norm_comps folder in
  let i := OsPath.common_len start_list path_list in
  List.repeat ".." (length start_list - i) ++ skipn i path_list.

(** [<project>/<projectName>_AssetBrowserCache] *)
Definition project_cache_root (project : string) : string :=
  OsPath.join project (OsPath.basename project +:+ "_AssetBrowserCache").

(** The name of a directory entry: a kept component that is not [".."]. *)
Definition proper_name (c : string) : Prop :=
  proper_comp c /\ c <> "..".

(** An event that only reads: [cv2.imread], OpenImageIO, [cv2.VideoCapture]. *)
Definition is_read (ev : event) : bool :=
  match ev with
  | Imread _ | OiioOpen _ | OiioSpec _ | VideoOpen _ => true
  | _ => false
  end.

(** [_make_thumbnail] from the cache check on, with the cache path known. *)
Definition after_prepare (w : World) (path : string) (thumb_size : Z)
    (cache_path : string) : M (QPixmap * string) :=
  cached <- load_cached w cache_path ;;
  match cached with
  | Some img =>
      pixmap <- lift (to_qimage img) ;;
      meta <- (if is_video path then get_video_metadata w path
               else read_metadata_oiio w path) ;;
      ret (pixmap, meta)
  | None =>
      decoded <- decode_media w path ;;
      match decoded with
      | (None, meta) => make_placeholder path thumb_size meta
      | (Some img_bgr, meta) =>
          finish_thumbnail w img_bgr cache_path thumb_size meta
      end
  end.

(** ** The value of a float, for the error analysis of the compositor *)

(** The real number [man * 2 ^ exp]. *)
Definition float_val (x : Float.t) : R :=
  (IZR (Float.man x) * powerRZ 2 (Float.exp x))%R.

(** Half an ulp of [1]: the relative error of one rounding. *)
Definition float_eps : R := powerRZ 2 (-53).

(** [/data/pack.zip] is a directory named like an archive; the clip in it
    exists, and [cv2.VideoCapture] would open it and read a frame. *)
Definition world_archive_folder : World := {|
  os_stat := fun q => if String.eqb q "/data/pack.zip/clip.mp4"
                      then StatOk 17 4096
                      else StatRaises FileNotFoundError;
  os_makedirs := fun _ => Ok tt;
  os_path_exists := fun q => String.eqb q "/data/pack.zip/clip.mp4";
  cv2_imread := fun _ => Ok None;
  cv2_imwrite := fun _ _ => Ok tt;
  cv2_VideoCapture := fun q =>
    if String.eqb q "/data/pack.zip/clip.mp4"
    then Some {| v_fps_positive := true;
                 v_frame_start := Some (Decoded 1080 1920 2);
                 v_frame_1s := Some (Decoded 1080 1920 3) |}
    else None;
  video_props_text := fun _ => "Video: 1920x1080";
  oiio_available := true;
  oiio_read := fun _ => None;
  oiio_spec_text := fun _ => ""
|}.

(* ================================================================== *)
(** * Theorems *)
(* ================================================================== *)

Example normpath_ex1 : OsPath.normpath "/a//b/./c/../d.zip/e.mp4" = "/a/b/d.zip/e.mp4".
Proof. reflexivity. Qed.

Example normpath_ex2 : OsPath.normpath "//a/../../b" = "//b".
Proof. reflexivity. Qed.

Example normpath_ex3 : OsPath.normpath "a/../.." = "..".
Proof. reflexivity. Qed.

Example splitext_ex : OsPath.splitext_ext "/x/.hidden" = "" /\ OsPath.splitext_ext "a.tar.GZ" = ".GZ".
Proof. split; reflexivity. Qed.

Example relpath_ex : OsPath.relpath "/" "/p/a/b" "/p" = Some "a/b"
  /\ OsPath.relpath "/" "/q" "/p/r" = Some "../../q".
Proof. split; reflexivity. Qed.

Example archive_ex : get_archive_name "/data/Pack.ZIP/clip.mp4" = "Pack.ZIP".
Proof. reflexivity. Qed.

(** ** Facts about the string operations *)

Section StrFacts.

Lemma append_cons (c : ascii) (s t : string) :
  String c s +:+ t = String c (s +:+ t).
Proof. reflexivity. Qed.

Lemma append_nil_l (s : string) : "" +:+ s = s.
Proof. reflexivity. Qed.

Lemma append_nil_r (s : string) : s +:+ "" = s.
Proof.
  induction s as [|c s IH]; [reflexivity |].
  rewrite append_cons. f_equal. exact IH.
Qed.

Lemma append_assoc (a b c : string) : (a +:+ b) +:+ c = a +:+ (b +:+ c).
Proof.
  induction a as [|x a IH]; [reflexivity |].
  rewrite !append_cons. f_equal. exact IH.
Qed.

Lemma length_append (a b : string) :
  String.length (a +:+ b) = (String.length a + String.length b)%nat.
Proof.
  induction a as [|x a IH]; [reflexivity |].
  rewrite append_cons. simpl. f_equal. exact IH.
Qed.

Lemma split_not_nil (c : ascii) (s : string) : Str.split c s <> [].
Proof.
  destruct s as [|a s]; simpl; [discriminate |].
  destruct (Ascii.eqb a c); [discriminate |].
  destruct (Str.split c s); discriminate.
Qed.

(** A string without the separator is its own single part. *)
Lemma split_no_sep (c : ascii) (s : string) :
  Str.contains c s = false -> Str.split c s = [s].
Proof.
  induction s as [|a s IH]; simpl; intros H; [reflexivity |].
  apply orb_false_iff in H as [Ha Hs].
  rewrite Ha, (IH Hs). reflexivity.
Qed.

(** Splitting distributes over a separator in the middle. *)
Lemma split_app_sep (c : ascii) (s t : string) :
  Str.split c (s +:+ String c t) = Str.split c s ++ Str.split c t.
Proof.
  induction s as [|a s IH]; [rewrite append_nil_l | rewrite append_cons]; simpl.
  - now rewrite Ascii.eqb_refl.
  - destruct (Ascii.eqb a c); [now rewrite IH |].
    rewrite IH.
    destruct (Str.split c s) as [|h l] eqn:E; [now apply split_not_nil in E |].
    reflexivity.
Qed.

(** No part of a split contains the separator. *)
Lemma split_parts_no_sep (c : ascii) (s : string) :
  Forall (fun p => Str.contains c p = false) (Str.split c s).
Proof.
  induction s as [|a s IH]; simpl.
  - constructor; [reflexivity | constructor].
  - destruct (Ascii.eqb a c) eqn:E.
    + constructor; [reflexivity | exact IH].
    + destruct (Str.split c s) as [|h l]; inversion IH; subst;
        (constructor; [simpl; now rewrite E | assumption || constructor]).
Qed.

(** [rpartition] cuts off the last part of [split]. *)
Lemma rpartition_split (c : ascii) (s : string) :
  match Str.rpartition c s with
  | None => Str.split c s = [s]
  | Some (b, t) => Str.split c s = Str.split c b ++ [t]
  end.
Proof.
  induction s as [|a s IH]; simpl; [reflexivity |].
  destruct (Str.rpartition c s) as [[b t]|].
  - simpl. destruct (Ascii.eqb a c); [now rewrite IH |].
    rewrite IH.
    destruct (Str.split c b) as [|h l] eqn:E; [now apply split_not_nil in E |].
    reflexivity.
  - destruct (Ascii.eqb a c); rewrite IH; reflexivity.
Qed.

Lemma rpartition_tail_no_sep (c : ascii) (s b t : string) :
  Str.rpartition c s = Some (b, t) -> Str.contains c t = false.
Proof.
  intros H. pose proof (rpartition_split c s) as Hs. rewrite H in Hs.
  pose proof (split_parts_no_sep c s) as Hall. rewrite Hs in Hall.
  apply Forall_app in Hall as [_ Hall]. now inversion Hall.
Qed.

Lemma rpartition_none_no_sep (c : ascii) (s : string) :
  Str.rpartition c s = None -> Str.contains c s = false.
Proof.
  intros H. pose proof (rpartition_split c s) as Hs. rewrite H in Hs.
  pose proof (split_parts_no_sep c s) as Hall. rewrite Hs in Hall.
  now inversion Hall.
Qed.

(** The last part of a split is the base name. *)
Lemma split_last_basename (s : string) :
  List.last (Str.split Str.slash s) "" = OsPath.basename s.
Proof.
  unfold OsPath.basename.
  pose proof (rpartition_split Str.slash s) as H.
  destruct (Str.rpartition Str.slash s) as [[b t]|]; rewrite H.
  - apply last_last.
  - reflexivity.
Qed.

Lemma basename_no_sep (s : string) :
  Str.contains Str.slash (OsPath.basename s) = false.
Proof.
  unfold OsPath.basename.
  destruct (Str.rpartition Str.slash s) as [[b t]|] eqn:E.
  - eapply rpartition_tail_no_sep; eassumption.
  - now apply rpartition_none_no_sep.
Qed.

End StrFacts.

(** ** Facts about [normpath] *)

Section NormpathFacts.

Lemma removelast_Forall {A} (P : A -> Prop) (l : list A) :
  Forall P l -> Forall P (List.removelast l).
Proof.
  induction l as [|x l IH]; intros H; [constructor |].
  inversion H; subst. destruct l as [|y l]; [constructor |].
  change (Forall P (x :: List.removelast (y :: l))).
  constructor; [assumption | now apply IH].
Qed.

Lemma norm_step_proper (n : nat) (acc : list string) (c : string) :
  Str.contains Str.slash c = false ->
  Forall proper_comp acc -> Forall proper_comp (OsPath.norm_step n acc c).
Proof.
  intros Hc Hacc. unfold OsPath.norm_step.
  destruct (String.eqb c "") eqn:E1; [exact Hacc |].
  destruct (String.eqb c ".") eqn:E2; [exact Hacc |]. simpl.
  apply String.eqb_neq in E1, E2.
  match goal with |- Forall _ (if ?b then _ else _) => destruct b end.
  - apply Forall_app. split; [exact Hacc |].
    constructor; [| constructor]. repeat split; assumption.
  - now apply removelast_Forall.
Qed.

Lemma norm_fold_proper (n : nat) (comps acc : list string) :
  Forall (fun c => Str.contains Str.slash c = false) comps ->
  Forall proper_comp acc ->
  Forall proper_comp (fold_left (OsPath.norm_step n) comps acc).
Proof.
  revert acc. induction comps as [|c comps IH]; intros acc Hc Hacc; [exact Hacc |].
  inversion Hc; subst. simpl. apply IH; [assumption |].
  now apply norm_step_proper.
Qed.

Lemma norm_comps_proper (path : string) : Forall proper_comp (norm_comps path).
Proof.
  apply norm_fold_proper; [apply split_parts_no_sep | constructor].
Qed.

Lemma split_repeat_slash (n : nat) (s : string) :
  Str.split Str.slash (Str.repeat Str.slash n +:+ s)
  = List.repeat "" n ++ Str.split Str.slash s.
Proof.
  induction n as [|n IH]; [reflexivity |].
  simpl Str.repeat. rewrite append_cons. simpl. now rewrite IH.
Qed.

Lemma split_join (comps : list string) :
  Forall (fun c => Str.contains Str.slash c = false) comps -> comps <> [] ->
  Str.split Str.slash (Str.join OsPath.sep comps) = comps.
Proof.
  induction comps as [|a comps IH]; intros H Hn; [contradiction |].
  inversion H; subst.
  destruct comps as [|b r]; [now apply split_no_sep |].
  change (Str.join OsPath.sep (a :: b :: r))
    with (a +:+ String Str.slash (Str.join OsPath.sep (b :: r))).
  rewrite split_app_sep, (split_no_sep _ a) by assumption.
  rewrite IH by (assumption || discriminate). reflexivity.
Qed.

Lemma join_nonempty (comps : list string) :
  Forall proper_comp comps -> comps <> [] ->
  Str.is_empty (Str.join OsPath.sep comps) = false.
Proof.
  intros H Hn. destruct comps as [|a r]; [contradiction |].
  inversion H as [|? ? [_ [Ha _]] _]; subst.
  destruct a as [|x a]; [contradiction |].
  destruct r; reflexivity.
Qed.

(** What [normpath] returns, by the components it keeps. *)
Lemma normpath_spec (path : string) :
  path <> "" ->
  OsPath.normpath path =
    match OsPath.initial_slashes path, norm_comps path with
    | O, [] => "."
    | n, comps => Str.repeat Str.slash n +:+ Str.join OsPath.sep comps
    end.
Proof.
  intros Hp. unfold OsPath.normpath.
  destruct path as [|x path]; [contradiction |].
  cbv beta iota delta [Str.is_empty]. fold (norm_comps (String x path)).
  pose proof (norm_comps_proper (String x path)) as Hc.
  destruct (OsPath.initial_slashes (String x path)) as [|n].
  - destruct (norm_comps (String x path)) as [|a r] eqn:E; [reflexivity |].
    simpl Str.repeat. rewrite append_nil_l.
    pose proof (join_nonempty (a :: r) Hc ltac:(discriminate)) as Hj.
    destruct (Str.join OsPath.sep (a :: r)); [discriminate | reflexivity].
  - reflexivity.
Qed.

(** The segments [path_parts] yields: one empty segment per leading
    separator, then the kept components. *)
Lemma path_parts_spec (path : string) :
  path <> "" ->
  path_parts path =
    match OsPath.initial_slashes path, norm_comps path with
    | O, [] => ["."]
    | n, [] => List.repeat "" (S n)
    | n, comps => List.repeat "" n ++ comps
    end.
Proof.
  intros Hp. unfold path_parts. rewrite (normpath_spec path Hp).
  pose proof (norm_comps_proper path) as Hc.
  destruct (OsPath.initial_slashes path) as [|n];
    destruct (norm_comps path) as [|a r] eqn:E; try reflexivity.
  - simpl Str.repeat. rewrite append_nil_l. simpl List.repeat.
    apply split_join; [| discriminate].
    eapply Forall_impl; [exact Hc |]. now intros c [H _].
  - rewrite split_repeat_slash. simpl Str.join. simpl Str.split.
    change ([""]) with (List.repeat "" 1).
    rewrite <- repeat_app. f_equal. lia.
  - rewrite split_repeat_slash. f_equal.
    apply split_join; [| discriminate].
    eapply Forall_impl; [exact Hc |]. now intros c [H _].
Qed.

(** A final component that is a real name is kept as the last component. *)
Lemma norm_comps_last (path : string) :
  let b := OsPath.basename path in
  b <> "" -> b <> "." -> b <> ".." ->
  exists prev, norm_comps path = prev ++ [b].
Proof.
  intros b H1 H2 H3. unfold norm_comps.
  pose proof (split_not_nil Str.slash path) as Hn.
  rewrite (app_removelast_last "" Hn), split_last_basename.
  fold b. rewrite fold_left_app. simpl.
  set (prev := fold_left _ _ _).
  exists prev. unfold OsPath.norm_step.
  apply String.eqb_neq in H1, H2, H3. now rewrite H1, H2, H3.
Qed.

Lemma basename_in_path_parts (path : string) :
  let b := OsPath.basename path in
  b <> "" -> b <> "." -> b <> ".." -> In b (path_parts path).
Proof.
  intros b H1 H2 H3.
  assert (Hp : path <> "") by (intros ->; now apply H1).
  destruct (norm_comps_last path H1 H2 H3) as [prev Hprev].
  rewrite (path_parts_spec path Hp), Hprev. fold b.
  assert (In b (prev ++ [b])) by (apply in_or_app; right; now left).
  destruct (OsPath.initial_slashes path) as [|n];
    destruct (prev ++ [b]) as [|a r] eqn:E; try contradiction;
    try assumption; apply in_or_app; now right.
Qed.

End NormpathFacts.

(** ** Archive detection ([is_in_archive], [get_archive_name]) *)

Section ArchiveFacts.

Lemma is_archive_part_iff (seg : string) :
  is_archive_part seg = true <-> ends_with_archive_ext seg.
Proof.
  unfold is_archive_part, ends_with_archive_ext, archive_extensions.
  rewrite existsb_exists. reflexivity.
Qed.

Lemma not_archive_part_iff (seg : string) :
  is_archive_part seg = false <-> ~ ends_with_archive_ext seg.
Proof.
  rewrite <- is_archive_part_iff. destruct (is_archive_part seg); split;
    congruence.
Qed.

(** An archive segment is a real name: not empty, not a dot entry. *)
Lemma is_archive_part_name (seg : string) :
  is_archive_part seg = true -> seg <> "" /\ seg <> "." /\ seg <> "..".
Proof. intros H. repeat split; intros ->; discriminate H. Qed.

(** The loop of [get_archive_name] stops at the first archive segment. *)
Lemma first_archive_part_spec (parts : list string) :
  match first_archive_part parts with
  | Some seg =>
      exists pre post, parts = pre ++ seg :: post
        /\ Forall (fun q => is_archive_part q = false) pre
        /\ is_archive_part seg = true
  | None => Forall (fun q => is_archive_part q = false) parts
  end.
Proof.
  induction parts as [|p parts IH]; simpl; [constructor |].
  destruct (is_archive_part p) eqn:E.
  - exists [], parts. repeat split; [constructor | exact E].
  - destruct (first_archive_part parts) as [seg|].
    + destruct IH as (pre & post & -> & Hpre & Hseg).
      exists (p :: pre), post. repeat split; [constructor |]; assumption.
    + constructor; assumption.
Qed.

Lemma is_in_archive_first (path : string) :
  is_in_archive path = true
  <-> exists seg, first_archive_part (path_parts path) = Some seg.
Proof.
  unfold is_in_archive. generalize (path_parts path) as parts.
  induction parts as [|p parts IH]; simpl.
  - split; [discriminate | intros [? ?]; discriminate].
  - destruct (is_archive_part p); simpl; [| exact IH].
    split; [now exists p | reflexivity].
Qed.

End ArchiveFacts.

(** C10. With the segments of the normalized path taken as
    [normpath(path).split("/")]: [is_in_archive path] holds exactly when
    [get_archive_name path] is a non-empty string, and exactly when some
    segment ends, in lowercase, with an archive extension;
    [get_archive_name] returns the first such segment (and the empty string
    when there is none); and a path whose final segment is itself an archive
    file name counts as being in an archive. *)
Theorem archive_name_classification (path : string) :
  let segments := Str.split Str.slash (OsPath.normpath path) in
  (is_in_archive path = true <-> get_archive_name path <> "")
  /\ (is_in_archive path = true
      <-> exists seg, In seg segments /\ ends_with_archive_ext seg)
  /\ ((exists pre seg post,
         segments = pre ++ seg :: post
         /\ Forall (fun q => ~ ends_with_archive_ext q) pre
         /\ ends_with_archive_ext seg
         /\ get_archive_name path = seg)
      \/ (Forall (fun q => ~ ends_with_archive_ext q) segments
          /\ get_archive_name path = ""))
  /\ (ends_with_archive_ext (OsPath.basename path) -> is_in_archive path = true).
Proof.
  intros segments. unfold segments. fold (path_parts path).
  split; [| split; [| split]].
  - rewrite is_in_archive_first. unfold get_archive_name.
    pose proof (first_archive_part_spec (path_parts path)) as H.
    destruct (first_archive_part (path_parts path)) as [seg|].
    + destruct H as (_ & _ & _ & _ & Hseg).
      apply is_archive_part_name in Hseg as [Hne _].
      split; [intros _; exact Hne | intros _; now exists seg].
    + split; [intros [? ?]; discriminate | intros Hc; now contradiction Hc].
  - unfold is_in_archive. rewrite existsb_exists.
    split; intros (seg & Hin & Hseg); exists seg; (split; [exact Hin |]);
      now apply is_archive_part_iff.
  - unfold get_archive_name.
    pose proof (first_archive_part_spec (path_parts path)) as H.
    destruct (first_archive_part (path_parts path)) as [seg|].
    + left. destruct H as (pre & post & Hparts & Hpre & Hseg).
      exists pre, seg, post. repeat split; try assumption.
      * eapply Forall_impl; [exact Hpre |].
        intros q Hq. now apply not_archive_part_iff.
      * now apply is_archive_part_iff.
    + right. split; [| reflexivity].
      eapply Forall_impl; [exact H |].
      intros q Hq. now apply not_archive_part_iff.
  - intros Hb. apply is_archive_part_iff in Hb.
    pose proof (is_archive_part_name _ Hb) as (H1 & H2 & H3).
    unfold is_in_archive. apply existsb_exists.
    exists (OsPath.basename path). split; [| exact Hb].
    now apply basename_in_path_parts.
Qed.

(** The clip [/data/pack.zip/clip.mp4] lies below the segment [pack.zip],
    and the archive file ["/videos/movie.zip"] itself is classified as being
    in an archive. *)
Lemma archive_name_classification_witness :
  is_in_archive "/data/pack.zip/clip.mp4" = true
  /\ is_in_archive "/videos/movie.zip" = true.
Proof.
  split.
  - apply (proj1 (proj2 (archive_name_classification
                           "/data/pack.zip/clip.mp4"))).
    exists "pack.zip". split; [right; right; left; reflexivity |].
    exists ".zip". split; [right; left; reflexivity | reflexivity].
  - apply (proj2 (proj2 (proj2 (archive_name_classification
                                  "/videos/movie.zip")))).
    exists ".zip". split; [right; left; reflexivity | reflexivity].
Defined.

(** The archive name of a clip two segments below the archive, on a path
    that is not normalized. *)
Example archive_name_ex :
  get_archive_name "/data//Pack.ZIP/./shots/clip.mp4" = "Pack.ZIP"
  /\ get_archive_name "/data/x/../notes.txt" = "".
Proof. split; reflexivity. Qed.

(** ** The cache key ([CacheManager.hash_for_file]) *)

Example sha1_empty : SHA1.hexdigest "" = "da39a3ee5e6b4b0d3255bfef95601890afd80709".
Proof. vm_compute. reflexivity. Qed.

Example sha1_abc : SHA1.hexdigest "abc" = "a9993e364706816aba3e25717850c26c9cd0d89d".
Proof. vm_compute. reflexivity. Qed.

Example sha1_two_blocks :
  SHA1.hexdigest "abcdbcdecdefdefgefghfghighijhijkijkljklmklmnlmnomnopnopq"
  = "84983e441c3bd26ebaae4aa1f95129e5e54670f1".
Proof. vm_compute. reflexivity. Qed.

Example str_of_int_ex :
  str_of_int 0 = "0" /\ str_of_int (-15) = "-15" /\ str_of_int 1048576 = "1048576".
Proof. repeat split. Qed.

Section KeyFacts.

Lemma append_inv_head (a b c : string) : a +:+ b = a +:+ c -> b = c.
Proof.
  induction a as [|x a IH]; [trivial |].
  rewrite !append_cons. intros [= H]. now apply IH.
Qed.

Lemma contains_none_rpartition (c : ascii) (s : string) :
  Str.contains c s = false -> Str.rpartition c s = None.
Proof.
  induction s as [|a s IH]; simpl; [reflexivity |].
  intros H. apply orb_false_iff in H as [Ha Hs].
  now rewrite (IH Hs), Ha.
Qed.

(** The last separator of [a ++ c ++ b] is the one written out, when [b]
    has none. *)
Lemma rpartition_app (c : ascii) (a b : string) :
  Str.contains c b = false ->
  Str.rpartition c (a +:+ String c b) = Some (a, b).
Proof.
  intros Hb. induction a as [|x a IH].
  - rewrite append_nil_l. simpl.
    now rewrite (contains_none_rpartition c b Hb), Ascii.eqb_refl.
  - rewrite append_cons. simpl. now rewrite IH.
Qed.

Lemma app_sep_inj (c : ascii) (a a' b b' : string) :
  Str.contains c b = false -> Str.contains c b' = false ->
  a +:+ String c b = a' +:+ String c b' -> a = a' /\ b = b'.
Proof.
  intros Hb Hb' E.
  pose proof (rpartition_app c a b Hb) as H.
  rewrite E, (rpartition_app c a' b' Hb') in H.
  now injection H as -> ->.
Qed.

Lemma uint_no_bar (d : Decimal.uint) :
  Str.contains bar (NilEmpty.string_of_uint d) = false.
Proof. induction d; simpl; trivial. Qed.

Lemma str_of_int_no_bar (z : Z) : Str.contains bar (str_of_int z) = false.
Proof.
  unfold str_of_int. destruct (Z.to_int z); simpl; apply uint_no_bar.
Qed.

Lemma str_of_int_inj (x y : Z) : str_of_int x = str_of_int y -> x = y.
Proof.
  unfold str_of_int. intros H. apply DecimalZ.to_int_inj.
  pose proof (NilEmpty.isi (Z.to_int x)) as Hx.
  rewrite H, NilEmpty.isi in Hx. now injection Hx.
Qed.

Lemma key_payload_shape (v p : string) (m s : Z) :
  key_payload v p m s
  = ((v +:+ String bar p) +:+ String bar (str_of_int m))
      +:+ String bar (str_of_int s).
Proof.
  unfold key_payload. cbn [Str.join]. rewrite !append_assoc. reflexivity.
Qed.

(** The payload determines the path, the mtime and the size. *)
Lemma key_payload_inj (v p1 p2 : string) (m1 s1 m2 s2 : Z) :
  key_payload v p1 m1 s1 = key_payload v p2 m2 s2 ->
  p1 = p2 /\ m1 = m2 /\ s1 = s2.
Proof.
  rewrite !key_payload_shape. intros E.
  apply app_sep_inj in E as [E Hs]; try apply str_of_int_no_bar.
  apply app_sep_inj in E as [E Hm]; try apply str_of_int_no_bar.
  apply append_inv_head in E. injection E as ->.
  apply str_of_int_inj in Hs, Hm. auto.
Qed.

(** *** Which payloads encode *)

Example utf8_valid_ex :
  Utf8.valid "/data/shots/a.png" = true
  /\ Utf8.valid (String (ascii_of_nat 195) (String (ascii_of_nat 169) ""))
     = true
  /\ Utf8.valid (String (ascii_of_nat 226) (String (ascii_of_nat 130)
                   (String (ascii_of_nat 172) ""))) = true
  /\ Utf8.valid (String (ascii_of_nat 240) (String (ascii_of_nat 157)
                   (String (ascii_of_nat 132)
                      (String (ascii_of_nat 158) "")))) = true
  /\ Utf8.valid (String (ascii_of_nat 255) "") = false
  /\ Utf8.valid (String (ascii_of_nat 192) (String (ascii_of_nat 128) ""))
     = false
  /\ Utf8.valid (String (ascii_of_nat 237) (String (ascii_of_nat 160)
                   (String (ascii_of_nat 128) ""))) = false
  /\ Utf8.valid (String (ascii_of_nat 244) (String (ascii_of_nat 144)
                   (String (ascii_of_nat 128)
                      (String (ascii_of_nat 128) "")))) = false
  /\ Utf8.valid (String (ascii_of_nat 226) (String (ascii_of_nat 130) ""))
     = false.
Proof. repeat split. Qed.

Lemma between_above_ascii (lo hi : N) (c : ascii) :
  Utf8.between 0 127 c = true -> (128 <= lo)%N -> Utf8.between lo hi c = false.
Proof.
  unfold Utf8.between. cbv zeta. intros H Hlo.
  apply andb_true_iff in H as [_ H]. apply N.leb_le in H.
  apply andb_false_iff. left. apply N.leb_gt. lia.
Qed.

Lemma step_ascii (st : Utf8.state) (c : ascii) :
  Utf8.between 0 127 c = true ->
  Utf8.step st c
  = match st with Utf8.Start => Some Utf8.Start | _ => None end.
Proof.
  intros H. destruct st; unfold Utf8.step;
    [now rewrite H | ..]; now rewrite (between_above_ascii _ _ c H) by lia.
Qed.

(** ASCII text is accepted at a character boundary and nowhere else. *)
Lemma run_ascii (st : Utf8.state) (s : string) :
  Utf8.all_ascii s = true -> Utf8.run st s = Utf8.run st "".
Proof.
  revert st. induction s as [|c s IH]; intros st H; [reflexivity |].
  simpl in H. apply andb_true_iff in H as [Hc Hs].
  cbn [Utf8.run]. rewrite (step_ascii st c Hc).
  destruct st; try reflexivity. now rewrite (IH Utf8.Start Hs).
Qed.

Lemma run_app_ascii (st : Utf8.state) (p s : string) :
  Utf8.all_ascii s = true -> Utf8.run st (p +:+ s) = Utf8.run st p.
Proof.
  intros Hs. revert st. induction p as [|c p IH]; intros st.
  - rewrite append_nil_l. now apply run_ascii.
  - rewrite append_cons. cbn [Utf8.run].
    destruct (Utf8.step st c); [apply IH | reflexivity].
Qed.

Lemma valid_ascii_prefix (a b : string) :
  Utf8.all_ascii a = true -> Utf8.valid (a +:+ b) = Utf8.valid b.
Proof.
  unfold Utf8.valid. induction a as [|c a IH]; intros H;
    [now rewrite append_nil_l |].
  simpl in H. apply andb_true_iff in H as [Hc Ha].
  rewrite append_cons. cbn [Utf8.run]. rewrite (step_ascii _ c Hc).
  now apply IH.
Qed.

Lemma all_ascii_app (a b : string) :
  Utf8.all_ascii (a +:+ b) = Utf8.all_ascii a && Utf8.all_ascii b.
Proof.
  induction a as [|c a IH]; [now rewrite append_nil_l |].
  rewrite append_cons. simpl. now rewrite IH, andb_assoc.
Qed.

Lemma uint_ascii (d : Decimal.uint) :
  Utf8.all_ascii (NilEmpty.string_of_uint d) = true.
Proof. induction d; simpl; trivial. Qed.

Lemma str_of_int_ascii (z : Z) : Utf8.all_ascii (str_of_int z) = true.
Proof.
  unfold str_of_int. destruct (Z.to_int z); simpl; apply uint_ascii.
Qed.

(** A payload encodes exactly when the path does. *)
Lemma payload_valid (path : string) (m s : Z) :
  Utf8.valid (THUMB_CACHE_VERSION +:+ "|" +:+ path +:+ "|"
                +:+ str_of_int m +:+ "|" +:+ str_of_int s)
  = Utf8.valid path.
Proof.
  rewrite <- append_assoc, valid_ascii_prefix by reflexivity.
  unfold Utf8.valid. apply run_app_ascii.
  rewrite !all_ascii_app, !str_of_int_ascii. reflexivity.
Qed.

Lemma payload_missing_valid (path : string) :
  Utf8.valid (THUMB_CACHE_VERSION +:+ "|" +:+ path) = Utf8.valid path.
Proof. now rewrite <- append_assoc, valid_ascii_prefix. Qed.

(** The f-string of the source is the joined payload. *)
Lemma hash_for_file_ok (os_stat : string -> stat_result) (path : string)
    (m s : Z) :
  Utf8.valid path = true ->
  os_stat path = StatOk m s ->
  hash_for_file os_stat path
  = Ok (SHA1.hexdigest (key_payload THUMB_CACHE_VERSION path m s)).
Proof.
  intros Hv H. unfold hash_for_file, sha1_of_text, encode.
  now rewrite H, payload_valid, Hv.
Qed.

Lemma hash_for_file_missing (os_stat : string -> stat_result) (path : string) :
  Utf8.valid path = true ->
  os_stat path = StatRaises FileNotFoundError ->
  hash_for_file os_stat path
  = Ok (SHA1.hexdigest (key_payload_missing THUMB_CACHE_VERSION path)).
Proof.
  intros Hv H. unfold hash_for_file, sha1_of_text, encode.
  now rewrite H, payload_missing_valid, Hv.
Qed.

(** A path that does not encode: no key, whatever [os.stat] finds. *)
Lemma hash_for_file_unencodable (os_stat : string -> stat_result)
    (path : string) :
  Utf8.valid path = false ->
  (exists m s, os_stat path = StatOk m s)
  \/ os_stat path = StatRaises FileNotFoundError ->
  hash_for_file os_stat path = Raise UnicodeEncodeError.
Proof.
  intros Hv H. unfold hash_for_file, sha1_of_text, encode.
  destruct H as [(m & s & ->) | ->].
  - now rewrite payload_valid, Hv.
  - now rewrite payload_missing_valid, Hv.
Qed.

(** Every key is the digest of one of the two payloads. *)
Lemma hash_for_file_inv (os_stat : string -> stat_result) (path key : string) :
  hash_for_file os_stat path = Ok key ->
  Utf8.valid path = true
  /\ ((exists m s, os_stat path = StatOk m s
         /\ key = SHA1.hexdigest (key_payload THUMB_CACHE_VERSION path m s))
      \/ (os_stat path = StatRaises FileNotFoundError
          /\ key = SHA1.hexdigest
                     (key_payload_missing THUMB_CACHE_VERSION path))).
Proof.
  unfold hash_for_file, sha1_of_text, encode. intros H.
  destruct (os_stat path) as [m s | e] eqn:E.
  - rewrite payload_valid in H. destruct (Utf8.valid path); [| discriminate].
    injection H as <-. split; [reflexivity |]. left. now exists m, s.
  - destruct e; try discriminate. rewrite payload_missing_valid in H.
    destruct (Utf8.valid path); [| discriminate].
    injection H as <-. split; [reflexivity |]. now right.
Qed.

End KeyFacts.

(** The claim "for every path [hash_for_file] returns the hash" fails twice:
    a file name with a byte that is not UTF-8 (here [E9], a Latin-1 e-acute)
    makes [payload.encode()] raise although [os.stat] succeeds, and a path
    below a regular file is missing but [os.stat] raises
    [NotADirectoryError], which [except FileNotFoundError] lets through. *)
Lemma hash_for_file_no_key :
  hash_for_file (fun _ => StatOk 17 4096)
                ("/shots/caf" +:+ String (ascii_of_nat 233) ".png")
  = Raise UnicodeEncodeError
  /\ hash_for_file (fun _ => StatRaises NotADirectoryError)
                   "/data/pack.zip/clip.mp4"
     = Raise NotADirectoryError.
Proof. split; reflexivity. Qed.

(** C1 (amended). For a path whose text is well-formed UTF-8,
    [hash_for_file] returns the SHA-1 digest of the payload joining the
    cache format version, the path, the mtime and the size when [os.stat]
    succeeds, and the digest of the version and the path only when
    [os.stat] raises [FileNotFoundError]; for every path, any other error
    of [os.stat] leaves [hash_for_file] and no key is returned; and with the
    same path, mtime and size every call gives the same result. *)
Theorem hash_for_file_payload (os_stat : string -> stat_result) (path : string) :
  (Utf8.valid path = true ->
   (forall m s, os_stat path = StatOk m s ->
      hash_for_file os_stat path
      = Ok (SHA1.hexdigest (key_payload THUMB_CACHE_VERSION path m s)))
   /\ (os_stat path = StatRaises FileNotFoundError ->
       hash_for_file os_stat path
       = Ok (SHA1.hexdigest (key_payload_missing THUMB_CACHE_VERSION path))))
  /\ (forall e, os_stat path = StatRaises e -> e <> FileNotFoundError ->
        hash_for_file os_stat path = Raise e)
  /\ (forall os_stat' m s,
        os_stat path = StatOk m s -> os_stat' path = StatOk m s ->
        hash_for_file os_stat' path = hash_for_file os_stat path).
Proof.
  split; [| split].
  - intros Hv. split.
    + intros m s H. now apply hash_for_file_ok.
    + intros H. now apply hash_for_file_missing.
  - intros e H Hne. unfold hash_for_file. rewrite H.
    destruct e; try reflexivity. now contradiction Hne.
  - intros os_stat' m s H H'. unfold hash_for_file. now rewrite H, H'.
Qed.

(** The key of ["/data/shots/a.png"] with mtime 1700000000123456789 ns and
    1 MiB, as [hashlib] computes it. *)
Lemma hash_for_file_payload_witness :
  hash_for_file (fun _ => StatOk 1700000000123456789 1048576)
                "/data/shots/a.png"
  = Ok "4e35e61f1ef0f0a0fc2a64ea808b9d4fd27ced20".
Proof.
  rewrite (proj1 (proj1 (hash_for_file_payload
                           (fun _ => StatOk 1700000000123456789 1048576)
                           "/data/shots/a.png") eq_refl)
             1700000000123456789 1048576 eq_refl).
  vm_compute. reflexivity.
Defined.

(** C7. Two files that differ in path, mtime or size have different key
    payloads, so their keys can only coincide through a SHA-1 collision on
    these two payloads: the payload is injective in (path, mtime, size).
    Both keys exist when the two paths are well-formed UTF-8. *)
Theorem cache_key_sensitivity
    (os_stat1 os_stat2 : string -> stat_result)
    (p1 p2 : string) (m1 s1 m2 s2 : Z) :
  os_stat1 p1 = StatOk m1 s1 ->
  os_stat2 p2 = StatOk m2 s2 ->
  (p1, m1, s1) <> (p2, m2, s2) ->
  let x := key_payload THUMB_CACHE_VERSION p1 m1 s1 in
  let y := key_payload THUMB_CACHE_VERSION p2 m2 s2 in
  x <> y
  /\ (Utf8.valid p1 = true -> Utf8.valid p2 = true ->
      exists k1 k2,
        hash_for_file os_stat1 p1 = Ok k1
        /\ hash_for_file os_stat2 p2 = Ok k2
        /\ (k1 = k2 -> sha1_collision x y))
  /\ (forall k1 k2,
        hash_for_file os_stat1 p1 = Ok k1 ->
        hash_for_file os_stat2 p2 = Ok k2 ->
        k1 = k2 -> sha1_collision x y).
Proof.
  intros H1 H2 Hne x y.
  assert (Hxy : x <> y).
  { intros E. apply key_payload_inj in E as (-> & -> & ->). now apply Hne. }
  split; [exact Hxy |]. split.
  - intros Hv1 Hv2. exists (SHA1.hexdigest x), (SHA1.hexdigest y).
    repeat split; try (now apply hash_for_file_ok); assumption.
  - intros k1 k2 Hk1 Hk2 E.
    apply hash_for_file_inv in Hk1 as (_ & [(m & s & Hs & ->) | (Hs & _)]);
      [| congruence].
    apply hash_for_file_inv in Hk2 as (_ & [(m' & s' & Hs' & ->) | (Hs' & _)]);
      [| congruence].
    rewrite H1 in Hs. rewrite H2 in Hs'.
    injection Hs as <- <-. injection Hs' as <- <-.
    split; assumption.
Qed.

(** Renaming a file changes the payload, and here the key as well. *)
Lemma cache_key_sensitivity_witness :
  key_payload THUMB_CACHE_VERSION "/clips/a.png" 17 4096
  <> key_payload THUMB_CACHE_VERSION "/clips/b.png" 17 4096.
Proof.
  apply (cache_key_sensitivity (fun _ => StatOk 17 4096) (fun _ => StatOk 17 4096)
           "/clips/a.png" "/clips/b.png" 17 4096 17 4096 eq_refl eq_refl).
  discriminate.
Defined.

(** ** The cache root ([CacheManager.generate_cache_root]) *)

Example cache_root_ex :
  generate_cache_root "/" (Some "/proj/show") "/proj/show/seq/sh010"
  = "/proj/show/show_AssetBrowserCache/seq_sh010"
  /\ generate_cache_root "/" (Some "/proj/show") "/proj/show"
     = "/proj/show/show_AssetBrowserCache"
  /\ generate_cache_root "/" (Some "/proj/show") "/other/x"
     = "/proj/show/show_AssetBrowserCache/.._.._other_x"
  /\ generate_cache_root "/" None "/x/y" = "/x/y/.assetbrowser_cache".
Proof. repeat split. Qed.

Section CacheRootFacts.

Lemma common_len_app (a sub : list string) :
  OsPath.common_len a (a ++ sub) = length a.
Proof.
  induction a as [|x a IH]; [now destruct sub |].
  simpl. now rewrite String.eqb_refl, IH.
Qed.

Lemma startswith_no_sep (b : string) :
  Str.contains Str.slash b = false -> Str.startswith b OsPath.sep = false.
Proof.
  destruct b as [|x b]; [reflexivity |]. simpl. intros H.
  apply orb_false_iff in H as [Hx _].
  unfold OsPath.sep. simpl. unfold Str.slash in Hx. now rewrite Hx.
Qed.

Lemma endswith_cons (a : ascii) (s suf : string) :
  Str.endswith (String a s) suf
  = String.eqb (String a s) suf || Str.endswith s suf.
Proof. reflexivity. Qed.

Lemma endswith_no_sep (b : string) :
  Str.contains Str.slash b = false -> Str.endswith b OsPath.sep = false.
Proof.
  induction b as [|x b IH]; [reflexivity |]. intros H.
  apply orb_false_iff in H as [Hx Hb].
  rewrite endswith_cons, (IH Hb), orb_false_r.
  apply String.eqb_neq. intros [= -> _]. discriminate Hx.
Qed.

Lemma endswith_app_proper (x b : string) :
  proper_comp b -> Str.endswith (x +:+ b) OsPath.sep = false.
Proof.
  intros (Hb & Hne & _). induction x as [|a x IH].
  - rewrite append_nil_l. now apply endswith_no_sep.
  - rewrite append_cons, endswith_cons, IH, orb_false_r.
    apply String.eqb_neq. intros [= _ E].
    destruct x; [rewrite append_nil_l in E; contradiction |].
    rewrite append_cons in E. discriminate.
Qed.

Lemma join_proper (acc b : string) :
  acc <> "" -> Str.endswith acc OsPath.sep = false -> proper_comp b ->
  OsPath.join acc b = acc +:+ OsPath.sep +:+ b.
Proof.
  intros Hacc He (Hb & _). unfold OsPath.join.
  rewrite (startswith_no_sep b Hb), He.
  destruct acc; [contradiction | reflexivity].
Qed.

Lemma fold_join_proper (rest : list string) (acc : string) :
  acc <> "" -> Str.endswith acc OsPath.sep = false ->
  Forall proper_comp rest ->
  fold_left OsPath.join rest acc
  = match rest with
    | [] => acc
    | _ => acc +:+ OsPath.sep +:+ Str.join OsPath.sep rest
    end.
Proof.
  revert acc. induction rest as [|b r IH]; intros acc Hacc He Hall;
    [reflexivity |].
  inversion Hall as [|? ? Hb Hr]; subst. simpl fold_left.
  rewrite (join_proper acc b Hacc He Hb).
  rewrite IH; [| | | exact Hr].
  - destruct r as [|c r]; [reflexivity |].
    change (Str.join OsPath.sep (b :: c :: r))
      with (b +:+ OsPath.sep +:+ Str.join OsPath.sep (c :: r)).
    now rewrite !append_assoc.
  - destruct acc; [contradiction | discriminate].
  - rewrite <- append_assoc. now apply endswith_app_proper.
Qed.

(** Joining real components one by one is joining them with the separator. *)
Lemma join_all_proper (comps : list string) :
  Forall proper_comp comps ->
  OsPath.join_all comps = Str.join OsPath.sep comps.
Proof.
  destruct comps as [|a rest]; [reflexivity |]. intros Hall.
  inversion Hall as [|? ? Ha Hr]; subst. unfold OsPath.join_all.
  rewrite fold_join_proper; [| | | exact Hr].
  - now destruct rest.
  - now destruct Ha as (_ & Hne & _).
  - destruct Ha as (Hs & _). now apply endswith_no_sep.
Qed.

Lemma contains_app (c : ascii) (a b : string) :
  Str.contains c (a +:+ b) = Str.contains c a || Str.contains c b.
Proof.
  induction a as [|x a IH]; [reflexivity |].
  rewrite append_cons. simpl. now rewrite IH, orb_assoc.
Qed.

Lemma replace_app (c : ascii) (n a b : string) :
  Str.replace c n (a +:+ b) = Str.replace c n a +:+ Str.replace c n b.
Proof.
  induction a as [|x a IH]; [reflexivity |].
  rewrite append_cons. simpl. destruct (Ascii.eqb x c).
  - now rewrite IH, append_assoc.
  - now rewrite IH, append_cons.
Qed.

Lemma replace_absent (c : ascii) (n s : string) :
  Str.contains c s = false -> Str.replace c n s = s.
Proof.
  induction s as [|x s IH]; [reflexivity |]. simpl. intros H.
  apply orb_false_iff in H as [Hx Hs]. now rewrite Hx, (IH Hs).
Qed.

(** Replacing the separators of a joined path joins with the replacement. *)
Lemma replace_join (comps : list string) :
  Forall proper_comp comps ->
  Str.replace Str.slash "_" (Str.join OsPath.sep comps) = Str.join "_" comps.
Proof.
  induction comps as [|a r IH]; [reflexivity |]. intros Hall.
  inversion Hall as [|? ? (Ha & _) Hr]; subst.
  destruct r as [|b r]; [now apply replace_absent |].
  change (Str.join OsPath.sep (a :: b :: r))
    with (a +:+ OsPath.sep +:+ Str.join OsPath.sep (b :: r)).
  change (Str.join "_" (a :: b :: r))
    with (a +:+ "_" +:+ Str.join "_" (b :: r)).
  rewrite !replace_app, (replace_absent _ _ a Ha), (IH Hr). reflexivity.
Qed.

Lemma join_underscore_no_sep (comps : list string) :
  Forall proper_comp comps ->
  Str.contains Str.slash (Str.join "_" comps) = false.
Proof.
  induction comps as [|a r IH]; [reflexivity |]. intros Hall.
  inversion Hall as [|? ? (Ha & _) Hr]; subst.
  destruct r as [|b r]; [exact Ha |].
  change (Str.join "_" (a :: b :: r))
    with (a +:+ "_" +:+ Str.join "_" (b :: r)).
  now rewrite !contains_app, Ha, (IH Hr).
Qed.

Lemma join_not_dot (comps : list string) :
  Forall proper_comp comps -> comps <> [] ->
  Str.join OsPath.sep comps <> "".
Proof.
  intros H Hn E. pose proof (join_nonempty comps H Hn) as Hj.
  now rewrite E in Hj.
Qed.

Lemma join_not_curdir (comps : list string) :
  Forall proper_comp comps -> String.eqb (Str.join OsPath.sep comps) "." = false.
Proof.
  intros Hall. apply String.eqb_neq. destruct comps as [|a r]; [discriminate |].
  inversion Hall as [|? ? (_ & Hne & Hd) _]; subst.
  destruct r as [|b r]; [exact Hd |].
  change (Str.join OsPath.sep (a :: b :: r))
    with (a +:+ OsPath.sep +:+ Str.join OsPath.sep (b :: r)).
  destruct a as [|x a]; [contradiction |].
  rewrite append_cons. intros [= _ E].
  destruct a; discriminate E.
Qed.

Lemma isabs_initial_slashes (p : string) :
  OsPath.isabs p = true -> exists n, OsPath.initial_slashes p = S n.
Proof.
  unfold OsPath.isabs, OsPath.initial_slashes, OsPath.sep. intros ->.
  destruct (_ && _); eauto.
Qed.

Lemma filter_repeat_empty (n : nat) (l : list string) :
  filter (fun x => negb (Str.is_empty x)) (List.repeat "" n ++ l)
  = filter (fun x => negb (Str.is_empty x)) l.
Proof. induction n as [|n IH]; [reflexivity | exact IH]. Qed.

Lemma filter_proper (l : list string) :
  Forall proper_comp l -> filter (fun x => negb (Str.is_empty x)) l = l.
Proof.
  induction l as [|a l IH]; [reflexivity |]. intros Hall.
  inversion Hall as [|? ? (_ & Hne & _) Hr]; subst.
  destruct a; [contradiction |].
  change (String a a0 :: filter (fun x => negb (Str.is_empty x)) l
          = String a a0 :: l).
  now rewrite (IH Hr).
Qed.

(** The non-empty segments of a normalized absolute path are the kept
    components. *)
Lemma nonempty_parts_abs (p : string) :
  OsPath.isabs p = true ->
  OsPath.nonempty_parts (OsPath.normpath p) = norm_comps p.
Proof.
  intros Habs. assert (Hp : p <> "") by (intros ->; discriminate).
  unfold OsPath.nonempty_parts. fold (path_parts p).
  rewrite (path_parts_spec p Hp).
  destruct (isabs_initial_slashes p Habs) as [n ->].
  pose proof (norm_comps_proper p) as Hc.
  destruct (norm_comps p) as [|a r]; cbv zeta.
  - rewrite <- (app_nil_r (List.repeat "" (S (S n)))).
    now rewrite filter_repeat_empty.
  - now rewrite filter_repeat_empty, filter_proper.
Qed.

Lemma abspath_abs (cwd p : string) :
  OsPath.isabs p = true -> OsPath.abspath cwd p = OsPath.normpath p.
Proof. intros H. unfold OsPath.abspath. now rewrite H. Qed.

(** [relpath] of a folder inside the start directory. *)
Lemma relpath_inside (cwd folder project : string) (sub : list string) :
  OsPath.isabs project = true -> OsPath.isabs folder = true ->
  norm_comps folder = norm_comps project ++ sub ->
  OsPath.relpath cwd folder project
  = Some (match sub with [] => "." | _ => Str.join OsPath.sep sub end).
Proof.
  intros Hp Hf Hsub. unfold OsPath.relpath.
  destruct folder as [|x folder]; [discriminate Hf |].
  cbv beta iota delta [Str.is_empty].
  rewrite !abspath_abs, !nonempty_parts_abs by assumption.
  rewrite Hsub, common_len_app, Nat.sub_diag.
  rewrite skipn_app, skipn_all, Nat.sub_diag. simpl.
  destruct sub as [|a r]; [reflexivity |].
  f_equal. apply join_all_proper.
  pose proof (norm_comps_proper (String x folder)) as Hc.
  rewrite Hsub in Hc. now apply Forall_app in Hc as [_ Hc].
Qed.

End CacheRootFacts.

Lemma contains_replace (c old : ascii) (n s : string) :
  Ascii.eqb c old = false -> Str.contains c n = false ->
  Str.contains c (Str.replace old n s) = Str.contains c s.
Proof.
  intros Hc Hn. induction s as [|x s IH]; [reflexivity |]. simpl.
  destruct (Ascii.eqb x old) eqn:E.
  - apply Ascii.eqb_eq in E as ->. rewrite contains_app, Hn, IH. simpl.
    rewrite Ascii.eqb_sym, Hc. reflexivity.
  - simpl. now rewrite IH.
Qed.

(** For relative paths the result depends on the working directory of the
    process: the same project ["a"] and folder ["../x"] give two cache roots. *)
Lemma generate_cache_root_reads_cwd :
  generate_cache_root "/" (Some "a") "../x"
  <> generate_cache_root "/p/q" (Some "a") "../x".
Proof. vm_compute. discriminate. Qed.

(** C8 (amended). Without a project the root is [<folder>/.assetbrowser_cache].
    With a project the root is [<project>/<projectName>_AssetBrowserCache];
    it stays without a suffix when [relpath] raises; for absolute project and
    folder paths, a folder inside the project extends it by the relative
    subpath with every separator replaced by an underscore (one path
    component), and the result does not depend on the working directory. *)
Theorem generate_cache_root_layout (cwd project folder : string) :
  generate_cache_root cwd None folder = OsPath.join folder ".assetbrowser_cache"
  /\ (project <> "" ->
      let root :=
        OsPath.join project (OsPath.basename project +:+ "_AssetBrowserCache") in
      (OsPath.relpath cwd folder project = None ->
       generate_cache_root cwd (Some project) folder = root)
      /\ (OsPath.isabs project = true -> OsPath.isabs folder = true ->
          (forall sub, norm_comps folder = norm_comps project ++ sub ->
             let suffix := Str.replace backslash "_" (Str.join "_" sub) in
             Str.contains Str.slash suffix = false
             /\ generate_cache_root cwd (Some project) folder
                = match sub with
                  | [] => root
                  | _ => OsPath.join root suffix
                  end)
          /\ (forall cwd',
                generate_cache_root cwd' (Some project) folder
                = generate_cache_root cwd (Some project) folder))).
Proof.
  split; [reflexivity |]. intros Hproj root.
  assert (Hgen : forall c,
    generate_cache_root c (Some project) folder
    = match OsPath.relpath c folder project with
      | Some rel_path =>
          if negb (Str.is_empty rel_path) && negb (String.eqb rel_path ".")
          then OsPath.join root
                 (Str.replace backslash "_"
                    (Str.replace Str.slash "_"
                       (Str.replace Str.slash "_" rel_path)))
          else root
      | None => root
      end).
  { intros c. unfold generate_cache_root.
    destruct project; [contradiction | reflexivity]. }
  split.
  - intros Hrel. now rewrite Hgen, Hrel.
  - intros Hp Hf. split.
    + intros sub Hsub suffix.
      assert (Hall : Forall proper_comp sub).
      { pose proof (norm_comps_proper folder) as Hc. rewrite Hsub in Hc.
        now apply Forall_app in Hc as [_ Hc]. }
      split.
      * unfold suffix. rewrite contains_replace; [| reflexivity | reflexivity].
        now apply join_underscore_no_sep.
      * rewrite Hgen, (relpath_inside cwd folder project sub Hp Hf Hsub).
        destruct sub as [|a r]; [reflexivity |].
        rewrite (join_nonempty (a :: r) Hall) by discriminate.
        rewrite (join_not_curdir (a :: r) Hall). simpl negb. simpl andb.
        rewrite (replace_join (a :: r) Hall).
        rewrite (replace_absent Str.slash "_" (Str.join "_" (a :: r)))
          by now apply join_underscore_no_sep.
        reflexivity.
    + intros cwd'. rewrite !Hgen. unfold OsPath.relpath.
      now rewrite !abspath_abs by assumption.
Qed.

(** The folder [seq/sh010] of the project [/proj/show]. *)
Lemma generate_cache_root_layout_witness :
  generate_cache_root "/" (Some "/proj/show") "/proj/show/seq/sh010"
  = "/proj/show/show_AssetBrowserCache/seq_sh010".
Proof.
  pose proof (generate_cache_root_layout "/" "/proj/show" "/proj/show/seq/sh010")
    as [_ H].
  specialize (H ltac:(discriminate)).
  destruct H as [_ H].
  destruct (H eq_refl eq_refl) as [H1 _].
  destruct (H1 ["seq"; "sh010"] eq_refl) as [_ H2].
  exact H2.
Defined.

(** ** The compositor (canvas geometry of [_make_thumbnail]) *)

(** [Float] agrees with the binary64 arithmetic of the machine on a grid of
    thumbnail widths and raster sizes. *)
Example float_model_test :
  forallb (fun W =>
    forallb (fun w =>
      forallb (fun c => float_agrees W w c) [1; 3; 49; 103; 300; 1080; 4096])
      [1; 3; 7; 49; 100; 300; 641; 1920; 4095; 7680])
    [1; 2; 64; 144; 255; 256; 300; 576; 1000; 1024] = true.
Proof. vm_compute. reflexivity. Qed.

Example composite_ex :
  composite_canvas (Decoded 20 49 0) 256
  = Ok (Composite 144 256 20 0 104 255 (Decoded 20 49 0))
  /\ composite_canvas (Decoded 1080 1920 0) 256
     = Ok (Composite 144 256 0 0 144 256 (Decoded 1080 1920 0)).
Proof. split; vm_compute; reflexivity. Qed.

Section CompositorFacts.

(** Dividing by 16 is exact in binary64, so [int(p / 16)] is the floor. *)
Lemma trunc_div16 (p : Z) :
  0 <= p < 2 ^ 53 -> Float.trunc (Float.rne p 16) = p / 16.
Proof.
  intros [Hp0 Hp]. unfold Float.rne.
  destruct (Z.eqb_spec p 0) as [-> | Hne]; [reflexivity |].
  destruct (Z.ltb_spec p 0) as [? | _]; [lia |].
  assert (Hpos : 0 < p) by lia.
  pose proof (Z.log2_spec p Hpos) as [Hlo Hhi].
  assert (HL : 0 <= Z.log2 p < 53).
  { split; [apply Z.log2_nonneg |]. now apply Z.log2_lt_pow2. }
  set (L := Z.log2 p) in *.
  assert (Hlog : Float.ilog2_ratio p 16 = L - 4).
  { unfold Float.ilog2_ratio. fold L. change (Z.log2 16) with 4.
    destruct (Z.leb_spec 0 (L - 4)) as [Hl | Hl].
    - replace (16 * 2 ^ (L - 4)) with (2 ^ L).
      + destruct (Z.leb_spec (2 ^ L) p); [reflexivity | lia].
      + replace L with (4 + (L - 4)) at 1 by lia.
        rewrite Z.pow_add_r by lia. reflexivity.
    - assert (16 <= p * 2 ^ (- (L - 4))).
      { replace 16 with (2 ^ L * 2 ^ (- (L - 4))).
        - apply Z.mul_le_mono_nonneg_r; [apply Z.pow_nonneg; lia | exact Hlo].
        - rewrite <- Z.pow_add_r by lia. replace (L + - (L - 4)) with 4 by lia.
          reflexivity. }
      destruct (Z.leb_spec 16 (p * 2 ^ (- (L - 4)))); [reflexivity | lia]. }
  unfold Float.rne_pos. rewrite Hlog.
  destruct (Z.leb_spec 0 (L - 4 - 52)) as [? | _]; [lia |].
  set (k := 52 - L).
  assert (Hk : 0 <= k) by (unfold k; lia).
  assert (Hpow : 2 ^ (- (L - 4 - 52)) = 2 ^ k * 16).
  { replace (- (L - 4 - 52)) with (k + 4) by (unfold k; lia).
    rewrite Z.pow_add_r by lia. reflexivity. }
  assert (Hm : Float.round_half_even (p * 2 ^ (- (L - 4 - 52))) 16 = p * 2 ^ k).
  { unfold Float.round_half_even. rewrite Hpow, Z.mul_assoc.
    rewrite Z.mod_mul, Z.div_mul by lia. reflexivity. }
  rewrite Hm. unfold Float.trunc. simpl Float.exp. simpl Float.man.
  destruct (Z.leb_spec 0 (L - 4 - 52)) as [? | _]; [lia |].
  rewrite Hpow.
  assert (H2k : 0 < 2 ^ k) by (apply Z.pow_pos_nonneg; lia).
  rewrite Z.quot_div_nonneg by nia.
  rewrite (Z.mul_comm (2 ^ k) 16).
  rewrite Z.div_mul_cancel_r by lia. reflexivity.
Qed.

Lemma thumb_height_exact (W : Z) :
  0 <= W -> 9 * W < 2 ^ 53 -> thumb_height_of W = Ok (W * 9 / 16).
Proof.
  intros H0 H. unfold thumb_height_of, Float.truediv. simpl.
  f_equal. apply trunc_div16. lia.
Qed.

Lemma truediv_pos (a b : Z) : 1 <= b -> Float.truediv a b = Ok (Float.rne a b).
Proof.
  intros Hb. unfold Float.truediv.
  destruct (Z.eqb_spec b 0); [lia |].
  destruct (Z.ltb_spec b 0); [lia | reflexivity].
Qed.

(** Floor centering leaves the extra pixel, if any, after the content. *)
Lemma centered_padding (total inner : Z) :
  let before := (total - inner) / 2 in
  let after := total - inner - before in
  after = before \/ after = before + 1.
Proof.
  intros before after. unfold after, before.
  pose proof (Z.div_mod (total - inner) 2 ltac:(lia)).
  pose proof (Z.mod_pos_bound (total - inner) 2 ltac:(lia)). lia.
Qed.

End CompositorFacts.

(** The content is sized with [int], which truncates: a 300 x 103 raster on a
    256 wide canvas is pasted 87 rows high, where rounding 87.89 gives 88. *)
Lemma composite_size_not_rounded :
  ~ (forall h w W id, 1 <= h -> 1 <= w -> 1 <= W ->
       exists canvas size,
         composite_canvas (Decoded h w id) W = Ok canvas
         /\ pasted_size canvas = Some size
         /\ spec_scaled_size h w W = Ok size).
Proof.
  intros H.
  destruct (H 103 300 256 0%nat ltac:(lia) ltac:(lia) ltac:(lia))
    as (canvas & size & Hc & Hs & Hspec).
  vm_compute in Hc. injection Hc as <-.
  vm_compute in Hs. injection Hs as <-.
  vm_compute in Hspec. discriminate Hspec.
Qed.

(** C3 (amended). For a raster of [h] rows and [w] columns and a target width
    [W] (all at least 1, [9 * W] below [2 ^ 53]) the canvas is [W] wide and
    [floor (W * 9 / 16)] high; with [scale = min (W / w, target_height / h)]
    in binary64, the content has size [(max 1 (int (w * scale)),
    max 1 (int (h * scale)))], truncated and not rounded; it is pasted at
    [x0 = floor ((W - new_w) / 2)], [y0 = floor ((target_height - new_h) / 2)],
    and the padding after it equals the padding before it or exceeds it by
    one. *)
Theorem composite_canvas_geometry (img : ndarray) (h w W : Z) :
  shape img = (h, w) ->
  1 <= h < 2 ^ 63 -> 1 <= w < 2 ^ 63 -> 1 <= W -> 9 * W < 2 ^ 53 ->
  let target_height := W * 9 / 16 in
  let scale := Float.min (Float.rne W w) (Float.rne target_height h) in
  let new_w := Z.max 1 (Float.trunc (Float.mul (Float.of_int w) scale)) in
  let new_h := Z.max 1 (Float.trunc (Float.mul (Float.of_int h) scale)) in
  let x0 := (W - new_w) / 2 in
  let y0 := (target_height - new_h) / 2 in
  composite_canvas img W
  = Ok (Composite target_height W y0 x0 new_h new_w img)
  /\ (W - new_w - x0 = x0 \/ W - new_w - x0 = x0 + 1)
  /\ (target_height - new_h - y0 = y0 \/ target_height - new_h - y0 = y0 + 1).
Proof.
  intros Hshape Hh Hw HW Hbound target_height scale new_w new_h x0 y0.
  split; [| split; apply centered_padding].
  unfold composite_canvas. rewrite Hshape.
  rewrite (thumb_height_exact W) by lia. fold target_height.
  cbn [rbind]. unfold scaled_size.
  rewrite !truediv_pos by lia. cbn [rbind].
  assert (H0 : 0 <= target_height)
    by (unfold target_height; apply Z.div_pos; lia).
  destruct (Z.ltb_spec target_height 0); [lia |].
  destruct (Z.ltb_spec W 0); [lia |].
  reflexivity.
Qed.

(** A 1920 x 1080 frame fills the 256 x 144 canvas exactly. *)
Lemma composite_canvas_geometry_witness :
  composite_canvas (Decoded 1080 1920 0) 256
  = Ok (Composite 144 256 0 0 144 256 (Decoded 1080 1920 0)).
Proof.
  destruct (composite_canvas_geometry (Decoded 1080 1920 0) 1080 1920 256
              eq_refl ltac:(lia) ltac:(lia) ltac:(lia) ltac:(lia)) as [H _].
  rewrite H. vm_compute. reflexivity.
Defined.

(** ** [normpath] is idempotent *)

Section NormpathIdempotent.

Lemma snoc_cases {A : Type} (l : list A) :
  l = [] \/ exists l' x, l = l' ++ [x].
Proof.
  destruct l as [|a l]; [now left | right].
  exists (List.removelast (a :: l)), (List.last (a :: l) a).
  now apply app_removelast_last.
Qed.

Lemma dotdot_ok_nil (n : nat) : dotdot_ok n [].
Proof. intros pre post E. now destruct pre. Qed.

Lemma dotdot_ok_prefix (n : nat) (l : list string) (x : string) :
  dotdot_ok n (l ++ [x]) -> dotdot_ok n l.
Proof.
  intros H pre post E. apply (H pre (post ++ [x])).
  rewrite E, <- app_assoc. reflexivity.
Qed.

Lemma dotdot_ok_snoc_name (n : nat) (l : list string) (c : string) :
  c <> ".." -> dotdot_ok n l -> dotdot_ok n (l ++ [c]).
Proof.
  intros Hc H pre post E.
  destruct (snoc_cases post) as [-> | (post' & y & ->)].
  - apply app_inj_tail in E as [_ ->]. contradiction.
  - change (pre ++ ".." :: post' ++ [y]) with (pre ++ (".." :: post') ++ [y]) in E.
    rewrite app_assoc in E. apply app_inj_tail in E as [E _].
    now apply (H pre post').
Qed.

Lemma dotdot_ok_snoc_dotdot (n : nat) (l : list string) :
  n = 0%nat -> Forall (fun c => c = "..") l -> dotdot_ok n (l ++ [".."]).
Proof.
  intros Hn Hall pre post E. split; [exact Hn |].
  destruct (snoc_cases post) as [-> | (post' & y & ->)].
  - apply app_inj_tail in E as [-> _]. exact Hall.
  - change (pre ++ ".." :: post' ++ [y]) with (pre ++ (".." :: post') ++ [y]) in E.
    rewrite app_assoc in E. apply app_inj_tail in E as [E _].
    rewrite E in Hall. now apply Forall_app in Hall as [Hall _].
Qed.

(** When [norm_step] keeps a [".."], only [".."] came before it. *)
Lemma keep_dotdot_sound (n : nat) (acc : list string) :
  dotdot_ok n acc ->
  (Nat.eqb n 0 && Nat.eqb (length acc) 0)
  || (negb (Nat.eqb (length acc) 0) && String.eqb (List.last acc "") "..")
  = true ->
  n = 0%nat /\ Forall (fun c => c = "..") acc.
Proof.
  intros Hok H. apply orb_true_iff in H as [H | H];
    apply andb_true_iff in H as [H1 H2].
  - apply Nat.eqb_eq in H1, H2. destruct acc; [| discriminate].
    split; [assumption | constructor].
  - destruct (snoc_cases acc) as [-> | (acc' & x & ->)]; [discriminate |].
    rewrite last_last in H2. apply String.eqb_eq in H2 as ->.
    destruct (Hok acc' [] eq_refl) as [Hn Hall].
    split; [exact Hn |]. apply Forall_app. split; [exact Hall |].
    constructor; [reflexivity | constructor].
Qed.

Lemma keep_dotdot_complete (n : nat) (acc : list string) :
  n = 0%nat -> Forall (fun c => c = "..") acc ->
  (Nat.eqb n 0 && Nat.eqb (length acc) 0)
  || (negb (Nat.eqb (length acc) 0) && String.eqb (List.last acc "") "..")
  = true.
Proof.
  intros -> Hall.
  destruct (snoc_cases acc) as [-> | (acc' & x & ->)]; [reflexivity |].
  apply Forall_app in Hall as [_ Hx]. inversion Hx; subst.
  rewrite last_last, length_app. simpl.
  replace (Nat.eqb (length acc' + 1) 0) with false
    by (symmetry; apply Nat.eqb_neq; lia).
  reflexivity.
Qed.

Lemma norm_step_dotdot_ok (n : nat) (acc : list string) (c : string) :
  dotdot_ok n acc -> dotdot_ok n (OsPath.norm_step n acc c).
Proof.
  intros Hok. unfold OsPath.norm_step.
  destruct (String.eqb c "" || String.eqb c "."); [exact Hok |].
  destruct (String.eqb_spec c "..") as [-> | Hc]; simpl negb; simpl orb.
  - match goal with |- dotdot_ok _ (if ?b then _ else _) => destruct b eqn:E end.
    + destruct (keep_dotdot_sound n acc Hok E) as [Hn Hall].
      now apply dotdot_ok_snoc_dotdot.
    + destruct (snoc_cases acc) as [-> | (acc' & x & ->)];
        [apply dotdot_ok_nil |].
      rewrite removelast_last. now apply dotdot_ok_prefix in Hok.
  - now apply dotdot_ok_snoc_name.
Qed.

Lemma norm_fold_dotdot_ok (n : nat) (comps acc : list string) :
  dotdot_ok n acc -> dotdot_ok n (fold_left (OsPath.norm_step n) comps acc).
Proof.
  revert acc. induction comps as [|c comps IH]; intros acc H; [exact H |].
  simpl. apply IH. now apply norm_step_dotdot_ok.
Qed.

(** Components that [normpath] kept are kept again, unchanged. *)
Lemma norm_fold_fixed (n : nat) (comps acc : list string) :
  Forall proper_comp comps -> dotdot_ok n (acc ++ comps) ->
  fold_left (OsPath.norm_step n) comps acc = acc ++ comps.
Proof.
  revert acc. induction comps as [|c comps IH]; intros acc Hall Hok;
    [now rewrite app_nil_r |].
  inversion Hall as [|? ? (_ & Hne & Hd) Hrest]; subst. simpl.
  assert (Hstep : OsPath.norm_step n acc c = acc ++ [c]).
  { unfold OsPath.norm_step.
    apply String.eqb_neq in Hne, Hd. rewrite Hne, Hd. simpl orb.
    destruct (String.eqb_spec c "..") as [-> | Hc]; [| reflexivity].
    simpl negb. simpl orb.
    destruct (Hok acc comps eq_refl) as [Hn Hacc].
    now rewrite (keep_dotdot_complete n acc Hn Hacc). }
  rewrite Hstep, IH; [| exact Hrest |]; rewrite <- app_assoc; [reflexivity |].
  exact Hok.
Qed.

Lemma norm_fold_skip_empty (n k : nat) (comps acc : list string) :
  fold_left (OsPath.norm_step n) (List.repeat "" k ++ comps) acc
  = fold_left (OsPath.norm_step n) comps acc.
Proof. induction k as [|k IH]; [reflexivity | exact IH]. Qed.

Lemma initial_slashes_le2 (p : string) :
  OsPath.initial_slashes p = 0%nat \/ OsPath.initial_slashes p = 1%nat
  \/ OsPath.initial_slashes p = 2%nat.
Proof.
  unfold OsPath.initial_slashes.
  destruct (Str.startswith p "/"); [| now left].
  destruct (_ && _); auto.
Qed.

(** A joined list of kept components does not start with a separator. *)
Lemma join_head (comps : list string) :
  Forall proper_comp comps ->
  Str.join OsPath.sep comps = ""
  \/ exists x s, Str.join OsPath.sep comps = String x s
                 /\ Ascii.eqb x "/" = false.
Proof.
  intros Hall. destruct comps as [|a r]; [now left | right].
  inversion Hall as [|? ? (Hs & Hne & _) _]; subst.
  destruct a as [|x a]; [contradiction |].
  simpl in Hs. apply orb_false_iff in Hs as [Hx _].
  destruct r as [|b r].
  - now exists x, a.
  - exists x, (a +:+ OsPath.sep +:+ Str.join OsPath.sep (b :: r)).
    split; [reflexivity | exact Hx].
Qed.

Lemma initial_slashes_rebuilt (n : nat) (comps : list string) :
  (n <= 2)%nat -> Forall proper_comp comps ->
  OsPath.initial_slashes (Str.repeat Str.slash n +:+ Str.join OsPath.sep comps)
  = n.
Proof.
  intros Hn Hall.
  destruct (join_head comps Hall) as [-> | (x & s & -> & Hx)].
  - destruct n as [|[|[|n]]]; [reflexivity .. | lia].
  - destruct n as [|[|[|n]]]; [| | | lia];
      unfold OsPath.initial_slashes; simpl; rewrite ?Hx; reflexivity.
Qed.

Theorem normpath_idempotent (p : string) :
  OsPath.normpath (OsPath.normpath p) = OsPath.normpath p.
Proof.
  destruct (String.eqb_spec p "") as [-> | Hp]; [reflexivity |].
  pose proof (normpath_spec p Hp) as Hspec.
  pose proof (path_parts_spec p Hp) as Hparts. unfold path_parts in Hparts.
  pose proof (norm_comps_proper p) as Hc.
  assert (Hok : dotdot_ok (OsPath.initial_slashes p) (norm_comps p))
    by (apply norm_fold_dotdot_ok, dotdot_ok_nil).
  assert (Hn : (OsPath.initial_slashes p <= 2)%nat)
    by (destruct (initial_slashes_le2 p) as [-> | [-> | ->]]; lia).
  remember (OsPath.initial_slashes p) as n eqn:En.
  remember (norm_comps p) as C eqn:EC. clear En EC.
  destruct (Nat.eq_dec n 0%nat) as [Hn0 | Hn0];
    [destruct C as [|a r] |].
  - rewrite Hn0 in Hspec. now rewrite Hspec.
  - assert (HP : OsPath.normpath p
                 = Str.repeat Str.slash n +:+ Str.join OsPath.sep (a :: r))
      by (rewrite Hspec, Hn0; reflexivity).
    assert (Hsplit : Str.split Str.slash (OsPath.normpath p)
                     = List.repeat "" n ++ a :: r)
      by (rewrite Hparts, Hn0; reflexivity).
    assert (Hq : OsPath.normpath p <> "").
    { rewrite HP, Hn0. simpl Str.repeat. rewrite append_nil_l.
      intros E. pose proof (join_nonempty (a :: r) Hc ltac:(discriminate)) as Hj.
      now rewrite E in Hj. }
    assert (Hi : OsPath.initial_slashes (OsPath.normpath p) = n)
      by (rewrite HP; now apply initial_slashes_rebuilt).
    rewrite (normpath_spec _ Hq). unfold norm_comps.
    rewrite Hsplit, norm_fold_skip_empty, !Hi.
    rewrite (norm_fold_fixed n (a :: r) [] Hc Hok). simpl app.
    rewrite HP, Hn0. reflexivity.
  - assert (HP : OsPath.normpath p
                 = Str.repeat Str.slash n +:+ Str.join OsPath.sep C)
      by (rewrite Hspec; destruct n; [contradiction | reflexivity]).
    assert (Hsplit : exists k, Str.split Str.slash (OsPath.normpath p)
                               = List.repeat "" k ++ C).
    { rewrite Hparts. destruct n as [|m]; [contradiction |].
      destruct C as [|a r]; [exists (S (S m)) | exists (S m)];
        [now rewrite app_nil_r | reflexivity]. }
    destruct Hsplit as [k Hsplit].
    assert (Hq : OsPath.normpath p <> "").
    { rewrite HP. destruct n; [contradiction | discriminate]. }
    assert (Hi : OsPath.initial_slashes (OsPath.normpath p) = n)
      by (rewrite HP; now apply initial_slashes_rebuilt).
    rewrite (normpath_spec _ Hq). unfold norm_comps.
    rewrite Hsplit, norm_fold_skip_empty, !Hi.
    rewrite (norm_fold_fixed n C [] Hc Hok). simpl app.
    rewrite HP. destruct n; [contradiction | reflexivity].
Qed.

End NormpathIdempotent.

(** ** The log monad *)

Section MonadFacts.

Context {A B : Type}.

Lemma bind_ok (m : M A) (k : A -> M B) (l : list event) (a : A) :
  m = (l, Ok a) -> bind m k = (l ++ fst (k a), snd (k a)).
Proof. intros ->. unfold bind. now destruct (k a). Qed.

Lemma bind_raise (m : M A) (k : A -> M B) (l : list event) (e : pyexn) :
  m = (l, Raise e) -> bind m k = (l, Raise e).
Proof. now intros ->. Qed.

Lemma logs_ret (P : event -> bool) (a : A) : logs P (ret a).
Proof. constructor. Qed.

Lemma logs_raise (P : event -> bool) (e : pyexn) : logs P (@raise A e).
Proof. constructor. Qed.

Lemma logs_lift (P : event -> bool) (r : result A) : logs P (lift r).
Proof. constructor. Qed.

Lemma logs_bind (P : event -> bool) (m : M A) (k : A -> M B) :
  logs P m -> (forall a, logs P (k a)) -> logs P (bind m k).
Proof.
  unfold logs. destruct m as [l [a | e]]; simpl; intros Hm Hk; [| exact Hm].
  specialize (Hk a). destruct (k a) as [l' r]. simpl in *.
  apply Forall_app. now split.
Qed.

Lemma logs_try_except (P : event -> bool) (m h : M A) (e : pyexn) :
  logs P m -> logs P h -> logs P (try_except m e h).
Proof.
  unfold logs, try_except. destruct m as [l [a | e']]; simpl; intros Hm Hh;
    [exact Hm |].
  destruct (pyexn_eqb e e'); [| exact Hm].
  destruct h as [l' r]. simpl in *. apply Forall_app. now split.
Qed.

End MonadFacts.

Lemma logs_tell (P : event -> bool) (ev : event) :
  P ev = true -> logs P (tell ev).
Proof. intros H. constructor; [exact H | constructor]. Qed.

Lemma logs_try_ignore (P : event -> bool) (m : M unit) :
  logs P m -> logs P (try_ignore m).
Proof. unfold logs, try_ignore. now destruct m as [l [a | e]]. Qed.

(** One step of a proof that a computation only logs events of one kind. *)
Ltac logs_step :=
  match goal with
  | |- logs _ (bind _ _) => apply logs_bind; [| intros ?]
  | |- logs _ (ret _) => apply logs_ret
  | |- logs _ (raise _) => apply logs_raise
  | |- logs _ (lift _) => apply logs_lift
  | |- logs _ (tell _) => apply logs_tell; reflexivity
  | |- logs _ (try_except _ _ _) => apply logs_try_except
  | |- logs _ (try_ignore _) => apply logs_try_ignore
  | |- logs _ (if ?b then _ else _) => destruct b
  | |- logs _ (match ?x with _ => _ end) => destruct x
  end.

Ltac logs_tac := repeat logs_step.

(** ** What the stages of a task log *)

Section StageFacts.

Variable w : World.

Lemma prepare_cache_no_write (p root : string) :
  logs no_write (prepare_cache w p root).
Proof. unfold prepare_cache, get_cache_path, makedirs. logs_tac. Qed.

Lemma prepare_cache_no_emit (p root : string) :
  logs no_emit (prepare_cache w p root).
Proof. unfold prepare_cache, get_cache_path, makedirs. logs_tac. Qed.

Lemma read_metadata_oiio_logs (P : event -> bool) (p : string) :
  P (OiioSpec p) = true -> logs P (read_metadata_oiio w p).
Proof.
  intros H. unfold read_metadata_oiio.
  destruct (negb (oiio_available w)); [apply logs_ret |].
  destruct (Str.mem _ _); [apply logs_ret |].
  apply logs_bind; [now apply logs_tell | intros; apply logs_ret].
Qed.

Lemma read_image_oiio_logs (P : event -> bool) (p : string) :
  P (OiioOpen p) = true -> logs P (read_image_oiio w p).
Proof.
  intros H. unfold read_image_oiio.
  destruct (negb (oiio_available w)); [apply logs_ret |].
  destruct (Str.mem _ _); [apply logs_ret |].
  apply logs_bind; [now apply logs_tell | intros; apply logs_ret].
Qed.

Lemma get_video_metadata_logs (P : event -> bool) (p : string) :
  (forall q, P (VideoOpen q) = true) -> logs P (get_video_metadata w p).
Proof.
  intros H. unfold get_video_metadata.
  destruct (first_archive_part _); [apply logs_ret |].
  destruct (negb _); [apply logs_ret |].
  apply logs_bind; [now apply logs_tell | intros _].
  destruct (cv2_VideoCapture _ _); apply logs_ret.
Qed.

Lemma extract_frame_video_logs (P : event -> bool) (p : string) :
  (forall q, P (VideoOpen q) = true) -> logs P (extract_frame_video w p).
Proof.
  intros H. unfold extract_frame_video.
  destruct (first_archive_part _); [apply logs_ret |].
  destruct (negb _); [apply logs_ret |].
  apply logs_bind; [now apply logs_tell | intros _].
  destruct (cv2_VideoCapture _ _); apply logs_ret.
Qed.

Lemma imread_logs (P : event -> bool) (p : string) :
  P (Imread p) = true -> logs P (imread w p).
Proof.
  intros H. unfold imread.
  apply logs_bind; [now apply logs_tell | intros; apply logs_lift].
Qed.

(** Decoding reads; it writes nothing and delivers nothing. *)
Lemma decode_media_logs (P : event -> bool) (p : string) :
  (forall ev, is_write ev = false -> is_emit ev = false -> P ev = true) ->
  logs P (decode_media w p).
Proof.
  intros H. unfold decode_media.
  repeat first
    [ apply extract_frame_video_logs; intros; now apply H
    | apply get_video_metadata_logs; intros; now apply H
    | apply read_image_oiio_logs; now apply H
    | apply read_metadata_oiio_logs; now apply H
    | apply imread_logs; now apply H
    | logs_step ].
Qed.

Lemma make_placeholder_logs (P : event -> bool) (p : string) (ts : Z)
    (meta : string) :
  logs P (make_placeholder p ts meta).
Proof. unfold make_placeholder. logs_tac. Qed.

Lemma load_cached_logs (P : event -> bool) (cp : string) :
  P (Imread cp) = true -> logs P (load_cached w cp).
Proof.
  intros H. unfold load_cached.
  destruct (os_path_exists w cp); [now apply imread_logs | apply logs_ret].
Qed.

(** Nothing inside [_make_thumbnail] delivers a result. *)
Lemma make_thumbnail_no_emit (p : string) (ts : Z) (root : string) :
  logs no_emit (_make_thumbnail w p ts root).
Proof.
  unfold _make_thumbnail, finish_thumbnail.
  repeat first
    [ apply prepare_cache_no_emit
    | apply load_cached_logs; reflexivity
    | apply get_video_metadata_logs; reflexivity
    | apply read_metadata_oiio_logs; reflexivity
    | apply decode_media_logs; intros ev _ Hev; unfold no_emit; now rewrite Hev
    | apply make_placeholder_logs
    | logs_step ].
Qed.

(** A cache check that misses reads at most the cache file. *)
Lemma load_cached_miss (cp : string) :
  cache_miss w cp -> load_cached w cp = (lookup_log w cp, Ok None).
Proof.
  unfold cache_miss, load_cached, lookup_log, imread.
  destruct (os_path_exists w cp); intros [H | H]; try discriminate;
    try reflexivity.
  unfold bind, tell, lift. now rewrite H.
Qed.

End StageFacts.

(** ** The placeholder path *)

Section PlaceholderFacts.

Lemma target_height_pos (ts : Z) : 2 <= ts -> 1 <= ts * 9 / 16.
Proof. intros H. apply Z.div_le_lower_bound; lia. Qed.

(** With a canvas of at least one row the placeholder is always built. *)
Lemma make_placeholder_ok (p : string) (ts : Z) (meta : string) :
  2 <= ts -> 9 * ts < 2 ^ 53 ->
  make_placeholder p ts meta
  = ([], Ok (if is_in_archive p
             then (Placeholder (ts * 9 / 16) ts "ZIP"
                     (ts / 2 - 20) (ts * 9 / 16 / 2 + 10),
                   or_default meta
                     ("File in compressed archive: " +:+ get_archive_name p
                      +:+ nl +:+ "Extract archive to view content"))
             else (Placeholder (ts * 9 / 16) ts "?"
                     (ts / 2 - 10) (ts * 9 / 16 / 2 + 10),
                   or_default meta "(unsupported or failed to load)"))).
Proof.
  intros Hts Hb. unfold make_placeholder.
  rewrite (thumb_height_exact ts) by lia.
  pose proof (target_height_pos ts Hts) as Hth.
  set (th := ts * 9 / 16) in *.
  unfold lift, bind, ret, raise.
  destruct (Z.ltb_spec th 0); [lia |].
  destruct (Z.ltb_spec ts 0); [lia |]. simpl orb.
  unfold to_qimage, shape.
  destruct (is_in_archive p);
    (destruct (Z.eqb_spec th 0); [lia |]);
    (destruct (Z.eqb_spec ts 0); [lia |]); reflexivity.
Qed.

Lemma files_after_no_write (w : World) (l : list event)
    (files : gmap string ndarray) :
  Forall (fun ev => no_write ev = true) l -> files_after w l files = files.
Proof.
  unfold files_after. revert files.
  induction l as [|ev l IH]; intros files H; [reflexivity |].
  inversion H as [|? ? Hev Hl]; subst. simpl.
  destruct ev; try discriminate Hev; now apply IH.
Qed.

Lemma lookup_log_no_write (w : World) (cp : string) :
  Forall (fun ev => no_write ev = true) (lookup_log w cp).
Proof.
  unfold lookup_log. destruct (os_path_exists w cp); repeat constructor.
Qed.

(** [_make_thumbnail] on a cache miss, when decoding gives no raster. *)
Lemma make_thumbnail_undecoded (w : World) (p : string) (ts : Z)
    (root cp : string) (l0 ld : list event) (meta : string) :
  prepare_cache w p root = (l0, Ok cp) ->
  cache_miss w cp ->
  decode_media w p = (ld, Ok (None, meta)) ->
  _make_thumbnail w p ts root
  = (l0 ++ lookup_log w cp ++ ld ++ fst (make_placeholder p ts meta),
     snd (make_placeholder p ts meta)).
Proof.
  intros Hprep Hmiss Hdec. unfold _make_thumbnail.
  rewrite (bind_ok _ _ _ _ Hprep).
  rewrite (bind_ok _ _ _ _ (load_cached_miss w cp Hmiss)).
  rewrite (bind_ok _ _ _ _ Hdec). reflexivity.
Qed.

End PlaceholderFacts.

(** C9. Whenever decoding produces no raster (on a cache miss), the task
    performs no cache write, whatever the thumbnail size: the cache file of
    the derived key and every other file stay as they were; and with a canvas
    of at least one row it returns the placeholder canvas. *)
Theorem placeholder_never_cached (w : World) (p : string) (ts : Z)
    (root cp : string) (l0 ld : list event) (meta : string)
    (files : gmap string ndarray) :
  prepare_cache w p root = (l0, Ok cp) ->
  cache_miss w cp ->
  decode_media w p = (ld, Ok (None, meta)) ->
  let l := fst (_make_thumbnail w p ts root) in
  Forall (fun ev => is_write ev = false) l
  /\ files_after w l files = files
  /\ files_after w l files !! cp = files !! cp
  /\ (2 <= ts -> 9 * ts < 2 ^ 53 ->
      exists label x y meta',
        snd (_make_thumbnail w p ts root)
        = Ok (Placeholder (ts * 9 / 16) ts label x y, meta')).
Proof.
  intros Hprep Hmiss Hdec l.
  pose proof (make_thumbnail_undecoded w p ts root cp l0 ld meta
                Hprep Hmiss Hdec) as Hrun.
  assert (Hquiet : Forall (fun ev => no_write ev = true) l).
  { unfold l. rewrite Hrun. cbn [fst].
    apply Forall_app; split; [| apply Forall_app; split;
                               [| apply Forall_app; split]].
    - pose proof (prepare_cache_no_write w p root) as H.
      unfold logs in H. now rewrite Hprep in H.
    - apply lookup_log_no_write.
    - pose proof (decode_media_logs w no_write p) as H.
      unfold logs in H. rewrite Hdec in H. apply H.
      intros ev Hev _. unfold no_write. now rewrite Hev.
    - apply (make_placeholder_logs no_write). }
  assert (Hfiles : files_after w l files = files)
    by now apply files_after_no_write.
  split; [| split; [exact Hfiles | split; [now rewrite Hfiles |]]].
  - eapply Forall_impl; [exact Hquiet |]. intros ev Hev.
    unfold no_write in Hev. now destruct (is_write ev).
  - intros Hts Hb. rewrite Hrun.
    rewrite (make_placeholder_ok p ts meta Hts Hb). cbn [snd].
    destruct (is_in_archive p); eexists _, _, _, _; reflexivity.
Qed.

(** A zero-byte [.png] on an empty disk: both decoders fail, the task
    returns the placeholder and the cache stays empty. *)
Lemma placeholder_never_cached_witness :
  files_after empty_world
    (fst (_make_thumbnail empty_world "/data/empty.png" 256
            "/data/.assetbrowser_cache")) ∅ = ∅
  /\ exists label x y meta',
       snd (_make_thumbnail empty_world "/data/empty.png" 256
              "/data/.assetbrowser_cache")
       = Ok (Placeholder (256 * 9 / 16) 256 label x y, meta').
Proof.
  destruct (placeholder_never_cached empty_world "/data/empty.png" 256
              "/data/.assetbrowser_cache"
              "/data/.assetbrowser_cache/ab/ab70f863c743f58e6e9f4053d1d0a704a6aa32cf.png"
              [Makedirs "/data/.assetbrowser_cache";
               Makedirs "/data/.assetbrowser_cache/ab"]
              [OiioOpen "/data/empty.png"; OiioSpec "/data/empty.png";
               Imread "/data/empty.png"]
              "" ∅
              ltac:(vm_compute; reflexivity)
              ltac:(left; reflexivity)
              ltac:(vm_compute; reflexivity))
    as (_ & Hfiles & _ & Hthumb).
  split; [exact Hfiles | apply Hthumb; lia].
Defined.

(** ** Dispatch by extension ([decode_media]) *)

Section DispatchFacts.

Variable w : World.

Lemma imread_none (p : string) :
  cv2_imread w p = Ok None -> imread w p = ([Imread p], Ok None).
Proof. intros H. unfold imread, bind, tell, lift. now rewrite H. Qed.

(** The metadata reader never raises and never decodes. *)
Lemma read_metadata_oiio_total (p : string) :
  exists l s, read_metadata_oiio w p = (l, Ok s)
              /\ Forall (fun ev => is_oiio_decode ev = false) l.
Proof.
  unfold read_metadata_oiio.
  destruct (negb (oiio_available w)); [exists [], ""; now split |].
  destruct (Str.mem _ _); [eexists [], _; now split |].
  eexists [OiioSpec p], _. split; [reflexivity |]. now repeat constructor.
Qed.

(** A video extension: only the video reader is used. *)
Lemma decode_video_branch (p : string) :
  is_video (OsPath.normpath p) = true ->
  logs (fun ev => match ev with VideoOpen _ => true | _ => false end)
       (decode_media w p).
Proof.
  intros Hv. unfold decode_media. rewrite Hv.
  apply logs_bind; [now apply extract_frame_video_logs | intros img].
  apply logs_bind; [now apply get_video_metadata_logs | intros meta].
  apply logs_ret.
Qed.

(** An image extension: OpenImageIO first, then [cv2.imread] exactly when
    OpenImageIO gave no raster. *)
Lemma decode_image_branch (p : string) :
  let np := OsPath.normpath p in
  is_video np = false -> is_image np = true -> oiio_available w = true ->
  fst (decode_media w p)
  = [OiioOpen np; OiioSpec np]
      ++ match oiio_read w np with
         | Some _ => []
         | None => [Imread np]
         end.
Proof.
  intros np Hv Hi Ha. unfold decode_media. fold np. rewrite Hv, Hi.
  unfold read_image_oiio, read_metadata_oiio. rewrite Ha.
  unfold is_video in Hv. rewrite Hv. simpl negb. cbv iota.
  unfold imread, try_except, bind, tell, ret, lift.
  destruct (oiio_read w np); [reflexivity |].
  destruct (cv2_imread w np) as [r | e]; [reflexivity |].
  now destruct e.
Qed.

End DispatchFacts.

(** C4 (the unrecognized-extension branch at its failing input). For a
    path that is neither a video nor an image by extension, when
    [cv2.imread] returns [None] without raising, the decode stage ends with
    no raster and never opens the OpenImageIO decoder, whatever that decoder
    could have read. *)
Theorem unknown_extension_no_fallback (w : World) (p : string) :
  is_video (OsPath.normpath p) = false ->
  is_image (OsPath.normpath p) = false ->
  cv2_imread w (OsPath.normpath p) = Ok None ->
  exists l meta,
    decode_media w p = (l, Ok (None, meta))
    /\ Forall (fun ev => is_oiio_decode ev = false) l.
Proof.
  intros Hv Hi Hread. unfold decode_media. rewrite Hv, Hi.
  rewrite (bind_ok _ _ _ _ (imread_none w _ Hread)).
  destruct (read_metadata_oiio_total w (OsPath.normpath p))
    as (l & s & Hm & Hl).
  rewrite (bind_ok _ _ _ _ Hm). unfold ret. cbn [fst snd try_except].
  exists ([Imread (OsPath.normpath p)] ++ l ++ []), s.
  split; [reflexivity |].
  apply Forall_app; split; [now repeat constructor |].
  apply Forall_app; split; [exact Hl | constructor].
Qed.

(** [/assets/scan.xyz] is a file OpenImageIO decodes; the task never asks. *)
Lemma unknown_extension_no_fallback_witness :
  oiio_read (world_with_oiio_image "/assets/scan.xyz") "/assets/scan.xyz"
  = Some (Decoded 480 640 1)
  /\ exists l meta,
       decode_media (world_with_oiio_image "/assets/scan.xyz") "/assets/scan.xyz"
       = (l, Ok (None, meta))
       /\ Forall (fun ev => is_oiio_decode ev = false) l.
Proof.
  split; [reflexivity |].
  apply unknown_extension_no_fallback; reflexivity.
Defined.

(** ** Delivery ([ThumbTask.run]) *)

Section DeliveryFacts.

Lemma emitted_app (l1 l2 : list event) :
  emitted (l1 ++ l2) = emitted l1 ++ emitted l2.
Proof. unfold emitted. apply flat_map_app. Qed.

Lemma emitted_no_emit (l : list event) :
  Forall (fun ev => no_emit ev = true) l -> emitted l = [].
Proof.
  induction l as [|ev l IH]; intros H; [reflexivity |].
  inversion H as [|? ? Hev Hl]; subst.
  destruct ev; try discriminate Hev; now apply IH.
Qed.

(** X1: A run delivers one result when it returns, and none when it raises:
    never more than one. *)
Lemma run_emits_at_most_once (w : World) (p : string) (ts : Z) (root : string) :
  match snd (run w p ts root) with
  | Ok _ => exists r, emitted (fst (run w p ts root)) = [r] /\ path r = p
  | Raise _ => emitted (fst (run w p ts root)) = []
  end.
Proof.
  unfold run.
  pose proof (make_thumbnail_no_emit w p ts root) as Hq. unfold logs in Hq.
  destruct (_make_thumbnail w p ts root) as [l [[pm meta] | e]];
    cbn [bind tell fst snd] in *.
  - rewrite emitted_app, (emitted_no_emit l Hq). eexists. split; reflexivity.
  - now apply emitted_no_emit.
Qed.

(** The guarded step: a cache write that raises is ignored and the canvas
    is returned all the same. *)
Lemma finish_thumbnail_ignores_write_failure (w : World) (img canvas : ndarray)
    (cp : string) (ts : Z) (meta : string) :
  composite_canvas img ts = Ok canvas ->
  to_qimage canvas = Ok canvas ->
  finish_thumbnail w img cp ts meta = ([Imwrite cp canvas], Ok (canvas, meta)).
Proof.
  intros Hc Hq. unfold finish_thumbnail. rewrite Hc.
  unfold lift, tell, try_ignore, bind, ret.
  destruct (cv2_imwrite w cp canvas); now rewrite Hq.
Qed.

End DeliveryFacts.

(** C5 (at its failing input). When [os.makedirs(cache_root)] raises, the
    exception leaves [run]: the task stops after that call and delivers no
    result. *)
Theorem run_raises_when_cache_root_fails (w : World) (p : string) (ts : Z)
    (root : string) (e : pyexn) :
  os_makedirs w root = Raise e ->
  run w p ts root = ([Makedirs root], Raise e)
  /\ emitted (fst (run w p ts root)) = [].
Proof.
  intros H.
  assert (Hrun : run w p ts root = ([Makedirs root], Raise e)).
  { unfold run, _make_thumbnail, prepare_cache, makedirs.
    unfold bind at 5. unfold tell, lift, bind. now rewrite H. }
  split; [exact Hrun | now rewrite Hrun].
Qed.

(** The cache root [/assets/cache] is a regular file. *)
Lemma run_raises_when_cache_root_fails_witness :
  run (world_cache_root_is_file "/assets/cache") "/assets/a.png" 256
      "/assets/cache"
  = ([Makedirs "/assets/cache"], Raise OSError).
Proof.
  apply (run_raises_when_cache_root_fails
           (world_cache_root_is_file "/assets/cache") "/assets/a.png" 256
           "/assets/cache" OSError).
  reflexivity.
Defined.

(** ** Paths that run through an archive *)

Section ArchivedFacts.

Variable w : World.

Lemma archived_segment (p : string) :
  is_in_archive p = true ->
  first_archive_part (Str.split Str.slash (OsPath.normpath (OsPath.normpath p)))
  = Some (get_archive_name p).
Proof.
  intros H. rewrite normpath_idempotent. fold (path_parts p).
  apply is_in_archive_first in H as [seg Hseg].
  unfold get_archive_name. now rewrite Hseg.
Qed.

(** The frame extractor gives up before it opens anything. *)
Lemma archived_extract (p : string) :
  is_in_archive p = true ->
  extract_frame_video w (OsPath.normpath p) = ([], Ok None).
Proof.
  intros H. unfold extract_frame_video. now rewrite (archived_segment p H).
Qed.

Lemma archived_metadata (p : string) :
  is_in_archive p = true ->
  get_video_metadata w (OsPath.normpath p)
  = ([], Ok (archived_video_text (get_archive_name p) (OsPath.normpath p))).
Proof.
  intros H. unfold get_video_metadata. now rewrite (archived_segment p H).
Qed.

Lemma archived_video_decode (p : string) :
  is_in_archive p = true -> is_video (OsPath.normpath p) = true ->
  decode_media w p
  = ([], Ok (None,
             archived_video_text (get_archive_name p) (OsPath.normpath p))).
Proof.
  intros Ha Hv. unfold decode_media. rewrite Hv.
  rewrite (bind_ok _ _ _ _ (archived_extract p Ha)).
  rewrite (bind_ok _ _ _ _ (archived_metadata p Ha)).
  reflexivity.
Qed.

Lemma archived_video_text_mentions (name p : string) :
  mentions (archived_video_text name p) name.
Proof.
  exists "Video file in archive: ",
         (nl +:+ "Format: " +:+ format_label p +:+ nl
          +:+ "Note: Extract archive to view video").
  reflexivity.
Qed.

Lemma archived_video_text_kept (name p default : string) :
  or_default (archived_video_text name p) default = archived_video_text name p.
Proof. reflexivity. Qed.

End ArchivedFacts.

(** The archive scan guards the video reader only: the image
    [/data/pack.zip/img.png] is opened by OpenImageIO, decoded, and delivered
    as a real thumbnail. *)
Lemma archived_image_is_opened :
  ~ (forall w p ts root,
       is_in_archive p = true ->
       Forall (fun ev => opens_media p ev = false) (fst (run w p ts root))
       /\ exists label x y h meta,
            emitted (fst (run w p ts root))
            = [{| path := p;
                  pixmap := Some (Placeholder h ts label x y);
                  meta_text := meta |}]
            /\ mentions meta (get_archive_name p)).
Proof.
  intros H.
  destruct (H (world_with_oiio_image "/data/pack.zip/img.png")
              "/data/pack.zip/img.png" 256 "/cache" eq_refl) as [Hopen _].
  vm_compute in Hopen.
  inversion Hopen as [|? ? _ H1]; subst.
  inversion H1 as [|? ? _ H2]; subst.
  inversion H2 as [|? ? Hev _]; subst.
  discriminate Hev.
Qed.

(** Deriving the cache path from what [os.makedirs] and [hash_for_file]
    return. *)
Lemma prepare_cache_ok (w : World) (p root key : string) :
  os_makedirs w root = Ok tt ->
  hash_for_file (os_stat w) p = Ok key ->
  os_makedirs w (OsPath.join root (String.substring 0 2 key)) = Ok tt ->
  prepare_cache w p root
  = ([Makedirs root; Makedirs (OsPath.join root (String.substring 0 2 key))],
     Ok (OsPath.join (OsPath.join root (String.substring 0 2 key))
           (key +:+ ".png"))).
Proof.
  intros Hroot Hkey Hshard.
  unfold prepare_cache, get_cache_path, makedirs, bind, tell, lift, ret.
  now rewrite Hroot, Hkey, Hshard.
Qed.

(** The claim fails on both sides of the archive guard: the image
    [/data/pack.zip/img.png] is opened and decoded, and for a clip below
    an archive that is a regular file [os.stat] raises
    [NotADirectoryError], the task raises and delivers nothing. *)
Lemma archived_placeholder_not_always :
  ~ (forall w p ts root,
       is_in_archive p = true ->
       Forall (fun ev => opens_media p ev = false) (fst (run w p ts root))
       /\ exists label x y h meta,
            emitted (fst (run w p ts root))
            = [{| path := p;
                  pixmap := Some (Placeholder h ts label x y);
                  meta_text := meta |}]
            /\ mentions meta (get_archive_name p))
  /\ is_in_archive "/data/pack.zip/clip.mp4" = true
  /\ run (world_stat_fails "/data/pack.zip/clip.mp4" NotADirectoryError)
         "/data/pack.zip/clip.mp4" 256 "/data/.assetbrowser_cache"
     = ([Makedirs "/data/.assetbrowser_cache"], Raise NotADirectoryError).
Proof. split; [exact archived_image_is_opened | split; reflexivity]. Qed.

(** C6 (amended). For every path that runs through an archive segment:
    with a recognized video extension the video frame extractor returns no
    frame before opening any reader, and the decode stage opens nothing and
    returns a text that mentions the first archive segment, whatever the
    file system holds.  When moreover the cache path is derived
    ([os.makedirs] of the cache root and of the shard directory succeed and
    [hash_for_file] returns a key), the cache check misses and the
    thumbnail width is at least 2 (below [2 ^ 53 / 9]): with a video
    extension the task opens nothing but the cache file and delivers the
    archive placeholder with that text; with any extension, whenever
    decoding yields no raster the task delivers the archive placeholder,
    and its text mentions the archive segment when the metadata reader
    gave no text. *)
Theorem archived_path_placeholder (w : World) (p : string) (ts : Z)
    (root : string) :
  is_in_archive p = true ->
  (is_video (OsPath.normpath p) = true ->
   extract_frame_video w (OsPath.normpath p) = ([], Ok None)
   /\ exists meta,
        mentions meta (get_archive_name p)
        /\ decode_media w p = ([], Ok (None, meta)))
  /\ (forall key,
        2 <= ts -> 9 * ts < 2 ^ 53 ->
        os_makedirs w root = Ok tt ->
        hash_for_file (os_stat w) p = Ok key ->
        let shard := OsPath.join root (String.substring 0 2 key) in
        let cp := OsPath.join shard (key +:+ ".png") in
        os_makedirs w shard = Ok tt ->
        cache_miss w cp ->
        let placeholder :=
          Placeholder (ts * 9 / 16) ts "ZIP" (ts / 2 - 20)
                      (ts * 9 / 16 / 2 + 10) in
        (is_video (OsPath.normpath p) = true ->
         exists meta,
           mentions meta (get_archive_name p)
           /\ run w p ts root
              = ([Makedirs root; Makedirs shard] ++ lookup_log w cp
                   ++ [Emit {| path := p; pixmap := Some placeholder;
                               meta_text := meta |}],
                 Ok tt))
        /\ (forall ld meta,
              decode_media w p = (ld, Ok (None, meta)) ->
              exists meta',
                (meta = "" -> mentions meta' (get_archive_name p))
                /\ run w p ts root
                   = ([Makedirs root; Makedirs shard] ++ lookup_log w cp ++ ld
                        ++ [Emit {| path := p; pixmap := Some placeholder;
                                    meta_text := meta' |}],
                      Ok tt))).
Proof.
  intros Ha. split.
  - intros Hv. split; [now apply archived_extract |].
    exists (archived_video_text (get_archive_name p) (OsPath.normpath p)).
    split; [apply archived_video_text_mentions |].
    now apply archived_video_decode.
  - intros key Hts Hb Hroot Hkey shard cp Hshard Hmiss placeholder.
    pose proof (prepare_cache_ok w p root key Hroot Hkey Hshard) as Hprep.
    fold shard in Hprep. fold cp in Hprep.
    set (l0 := [Makedirs root; Makedirs shard]) in *.
    assert (Hany : forall ld meta,
      decode_media w p = (ld, Ok (None, meta)) ->
      run w p ts root
      = (l0 ++ lookup_log w cp ++ ld
           ++ [Emit {| path := p; pixmap := Some placeholder;
                       meta_text :=
                         or_default meta
                           ("File in compressed archive: "
                            +:+ get_archive_name p
                            +:+ nl +:+ "Extract archive to view content") |}],
         Ok tt)).
    { intros ld meta Hdec.
      pose proof (make_thumbnail_undecoded w p ts root cp l0 ld meta
                    Hprep Hmiss Hdec) as Hrun.
      rewrite (make_placeholder_ok p ts meta Hts Hb), Ha in Hrun.
      cbn [fst snd] in Hrun.
      unfold run. rewrite (bind_ok _ _ _ _ Hrun).
      cbn [tell fst snd]. rewrite <- !app_assoc. reflexivity. }
    split.
    + intros Hv.
      exists (archived_video_text (get_archive_name p) (OsPath.normpath p)).
      split; [apply archived_video_text_mentions |].
      rewrite (Hany [] _ (archived_video_decode w p Ha Hv)).
      now rewrite archived_video_text_kept.
    + intros ld meta Hdec. eexists. split; [| exact (Hany ld meta Hdec)].
      intros ->. exists "File in compressed archive: ",
                        (nl +:+ "Extract archive to view content").
      reflexivity.
Qed.

(** The clip [/data/pack.zip/clip.mp4] exists and [cv2.VideoCapture] would
    read a frame of it: it is not opened, and the archive placeholder is
    delivered. *)
Lemma archived_path_placeholder_witness :
  extract_frame_video world_archive_folder
    (OsPath.normpath "/data/pack.zip/clip.mp4") = ([], Ok None)
  /\ exists meta,
       mentions meta "pack.zip"
       /\ run world_archive_folder "/data/pack.zip/clip.mp4" 256
              "/data/pack.zip/.assetbrowser_cache"
          = ([Makedirs "/data/pack.zip/.assetbrowser_cache";
              Makedirs "/data/pack.zip/.assetbrowser_cache/40";
              Emit {| path := "/data/pack.zip/clip.mp4";
                      pixmap := Some (Placeholder 144 256 "ZIP" 108 82);
                      meta_text := meta |}],
             Ok tt).
Proof.
  destruct (archived_path_placeholder world_archive_folder
              "/data/pack.zip/clip.mp4" 256
              "/data/pack.zip/.assetbrowser_cache" eq_refl)
    as [Hdecode Hrun].
  split; [exact (proj1 (Hdecode eq_refl)) |].
  destruct (Hrun "40c1efccab9f2fe2cd706b3fcb2b9099c8d44cec"
              ltac:(lia) ltac:(lia) eq_refl ltac:(vm_compute; reflexivity)
              eq_refl ltac:(left; reflexivity)) as [Hvideo _].
  destruct (Hvideo eq_refl) as (meta & Hm & Hr).
  exists meta. split; [exact Hm | exact Hr].
Defined.

(* ================================================================== *)
(** * Further properties of the thumbnail task *)
(* ================================================================== *)

Section TaskFacts.

Variable w : World.

Lemma get_video_metadata_total (p : string) :
  exists l s, get_video_metadata w p = (l, Ok s).
Proof.
  unfold get_video_metadata.
  destruct (first_archive_part _); [eexists _, _; reflexivity |].
  destruct (negb _); [eexists _, _; reflexivity |].
  unfold bind, tell, ret.
  destruct (cv2_VideoCapture _ _); eexists _, _; reflexivity.
Qed.

Lemma fresh_metadata_total (p : string) :
  exists l s, fresh_metadata w p = (l, Ok s)
              /\ Forall (fun ev => no_decode ev = true) l.
Proof.
  unfold fresh_metadata. destruct (is_video p).
  - destruct (get_video_metadata_total p) as (l & s & H).
    exists l, s. split; [exact H |].
    pose proof (get_video_metadata_logs w no_decode p ltac:(reflexivity)) as Hl.
    unfold logs in Hl. now rewrite H in Hl.
  - destruct (read_metadata_oiio_total w p) as (l & s & H & _).
    exists l, s. split; [exact H |].
    pose proof (read_metadata_oiio_logs w no_decode p ltac:(reflexivity)) as Hl.
    unfold logs in Hl. now rewrite H in Hl.
Qed.

Lemma to_qimage_nonempty (img : ndarray) (h wd : Z) :
  shape img = (h, wd) -> h <> 0 -> wd <> 0 -> to_qimage img = Ok img.
Proof.
  intros Hs Hh Hw. unfold to_qimage. rewrite Hs.
  destruct (Z.eqb_spec h 0); [contradiction |].
  destruct (Z.eqb_spec wd 0); [contradiction | reflexivity].
Qed.

(** A cache hit: the cached array is the pixmap, the metadata is read
    afresh, nothing else happens. *)
Lemma make_thumbnail_hit (p : string) (ts : Z) (root cp : string)
    (l0 lm : list event) (img : ndarray) (meta : string) :
  prepare_cache w p root = (l0, Ok cp) ->
  os_path_exists w cp = true ->
  cv2_imread w cp = Ok (Some img) ->
  to_qimage img = Ok img ->
  fresh_metadata w p = (lm, Ok meta) ->
  _make_thumbnail w p ts root = (l0 ++ [Imread cp] ++ lm, Ok (img, meta)).
Proof.
  intros Hprep Hex Hread Hq Hmeta. unfold _make_thumbnail.
  rewrite (bind_ok _ _ _ _ Hprep).
  assert (Hload : load_cached w cp = ([Imread cp], Ok (Some img))).
  { unfold load_cached, imread, bind, tell, lift. now rewrite Hex, Hread. }
  rewrite (bind_ok _ _ _ _ Hload). rewrite Hq.
  fold (fresh_metadata w p). rewrite Hmeta.
  cbn [lift bind ret fst snd app]. now rewrite app_nil_r.
Qed.

Lemma composite_canvas_shape (img : ndarray) (h wd ts : Z) :
  shape img = (h, wd) -> 1 <= h -> 1 <= wd -> 1 <= ts -> 9 * ts < 2 ^ 53 ->
  exists y0 x0 new_h new_w,
    composite_canvas img ts
    = Ok (Composite (ts * 9 / 16) ts y0 x0 new_h new_w img).
Proof.
  intros Hshape Hh Hw Hts Hb. unfold composite_canvas. rewrite Hshape.
  rewrite (thumb_height_exact ts) by lia. cbn [rbind]. unfold scaled_size.
  rewrite !truediv_pos by lia. cbn [rbind].
  assert (H0 : 0 <= ts * 9 / 16) by (apply Z.div_pos; lia).
  destruct (Z.ltb_spec (ts * 9 / 16) 0); [lia |].
  destruct (Z.ltb_spec ts 0); [lia |].
  eexists _, _, _, _. reflexivity.
Qed.

Lemma files_after_app (l1 l2 : list event) (files : gmap string ndarray) :
  files_after w (l1 ++ l2) files = files_after w l2 (files_after w l1 files).
Proof. unfold files_after. apply fold_left_app. Qed.

(** [_make_thumbnail] on a cache miss, when decoding gives a raster. *)
Lemma make_thumbnail_decoded (p : string) (ts : Z) (root cp : string)
    (l0 ld : list event) (img canvas : ndarray) (meta : string) :
  prepare_cache w p root = (l0, Ok cp) ->
  cache_miss w cp ->
  decode_media w p = (ld, Ok (Some img, meta)) ->
  composite_canvas img ts = Ok canvas ->
  to_qimage canvas = Ok canvas ->
  _make_thumbnail w p ts root
  = (l0 ++ lookup_log w cp ++ ld ++ [Imwrite cp canvas], Ok (canvas, meta)).
Proof.
  intros Hprep Hmiss Hdec Hc Hq. unfold _make_thumbnail.
  rewrite (bind_ok _ _ _ _ Hprep).
  rewrite (bind_ok _ _ _ _ (load_cached_miss w cp Hmiss)).
  rewrite (bind_ok _ _ _ _ Hdec).
  rewrite (finish_thumbnail_ignores_write_failure w img canvas cp ts meta Hc Hq).
  reflexivity.
Qed.

Lemma quiet_prefix_no_write (p root cp : string) (l0 ld : list event)
    (r : option ndarray * string) :
  prepare_cache w p root = (l0, Ok cp) ->
  decode_media w p = (ld, Ok r) ->
  Forall (fun ev => no_write ev = true) (l0 ++ lookup_log w cp ++ ld).
Proof.
  intros Hprep Hdec.
  apply Forall_app; split; [| apply Forall_app; split].
  - pose proof (prepare_cache_no_write w p root) as H.
    unfold logs in H. now rewrite Hprep in H.
  - apply lookup_log_no_write.
  - pose proof (decode_media_logs w no_write p) as H.
    unfold logs in H. rewrite Hdec in H. apply H.
    intros ev Hev _. unfold no_write. now rewrite Hev.
Qed.

End TaskFacts.

(** X2: decoded path. When decoding gives a raster on a cache miss, the task
    writes exactly one file, the cache file, holding the very canvas it
    delivers; the delivery does not depend on the write succeeding. *)
Theorem decoded_canvas_written_and_delivered (w : World) (p : string) (ts : Z)
    (root cp : string) (l0 ld : list event) (img : ndarray) (meta : string)
    (h wd : Z) (files : gmap string ndarray) :
  2 <= ts -> 9 * ts < 2 ^ 53 ->
  shape img = (h, wd) -> 1 <= h < 2 ^ 63 -> 1 <= wd < 2 ^ 63 ->
  prepare_cache w p root = (l0, Ok cp) ->
  cache_miss w cp ->
  decode_media w p = (ld, Ok (Some img, meta)) ->
  exists canvas,
    composite_canvas img ts = Ok canvas
    /\ shape canvas = (ts * 9 / 16, ts)
    /\ run w p ts root
       = (l0 ++ lookup_log w cp ++ ld
            ++ [Imwrite cp canvas;
                Emit {| path := p; pixmap := Some canvas; meta_text := meta |}],
          Ok tt)
    /\ files_after w (fst (run w p ts root)) files
       = match cv2_imwrite w cp canvas with
         | Ok _ => <[cp := canvas]> files
         | Raise _ => files
         end.
Proof.
  intros Hts Hb Hshape Hh Hw Hprep Hmiss Hdec.
  destruct (composite_canvas_shape img h wd ts Hshape) as (y0 & x0 & nh & nw & Hc);
    try lia.
  set (canvas := Composite (ts * 9 / 16) ts y0 x0 nh nw img) in *.
  assert (Hq : to_qimage canvas = Ok canvas).
  { apply (to_qimage_nonempty canvas (ts * 9 / 16) ts); [reflexivity | |];
      pose proof (target_height_pos ts Hts); lia. }
  assert (Hrun : run w p ts root
    = (l0 ++ lookup_log w cp ++ ld
         ++ [Imwrite cp canvas;
             Emit {| path := p; pixmap := Some canvas; meta_text := meta |}],
       Ok tt)).
  { unfold run.
    rewrite (bind_ok _ _ _ _
               (make_thumbnail_decoded w p ts root cp l0 ld img canvas meta
                  Hprep Hmiss Hdec Hc Hq)).
    cbn [tell fst snd]. rewrite <- !app_assoc. reflexivity. }
  exists canvas. split; [exact Hc |]. split; [reflexivity |].
  split; [exact Hrun |].
  rewrite Hrun. cbn [fst].
  rewrite !app_assoc, files_after_app, <- !app_assoc.
  rewrite (files_after_no_write w _ files
             (quiet_prefix_no_write w p root cp l0 ld _ Hprep Hdec)).
  unfold files_after. simpl fold_left.
  now destruct (cv2_imwrite w cp canvas).
Qed.

Lemma decoded_canvas_written_and_delivered_witness :
  exists canvas,
    shape canvas = (144, 256)
    /\ files_after (world_with_oiio_image "/assets/scan.png")
         (fst (run (world_with_oiio_image "/assets/scan.png")
                   "/assets/scan.png" 256 "/assets/.assetbrowser_cache")) ∅
       = {[ "/assets/.assetbrowser_cache/11/11398f8a78a4a93a0506e2d631090a5acbbd03bc.png"
            := canvas ]}.
Proof.
  destruct (decoded_canvas_written_and_delivered
              (world_with_oiio_image "/assets/scan.png") "/assets/scan.png" 256
              "/assets/.assetbrowser_cache"
              "/assets/.assetbrowser_cache/11/11398f8a78a4a93a0506e2d631090a5acbbd03bc.png"
              [Makedirs "/assets/.assetbrowser_cache";
               Makedirs "/assets/.assetbrowser_cache/11"]
              [OiioOpen "/assets/scan.png"; OiioSpec "/assets/scan.png"]
              (Decoded 480 640 1) "640x480x3, format=uint8" 480 640 ∅
              ltac:(lia) ltac:(lia) eq_refl ltac:(lia) ltac:(lia)
              ltac:(vm_compute; reflexivity)
              ltac:(left; reflexivity)
              ltac:(vm_compute; reflexivity))
    as (canvas & _ & Hshape & _ & Hfiles).
  exists canvas. split; [exact Hshape | exact Hfiles].
Defined.

(** X3: cache hit. A readable cache file is returned as it is, whatever
    thumbnail size is asked for; only the metadata is read again, and nothing
    is decoded or written. *)
Theorem cache_hit_returns_cached_pixels (w : World) (p : string) (ts ts' : Z)
    (root cp : string) (l0 : list event) (img : ndarray) (h wd : Z) :
  prepare_cache w p root = (l0, Ok cp) ->
  os_path_exists w cp = true ->
  cv2_imread w cp = Ok (Some img) ->
  shape img = (h, wd) -> h <> 0 -> wd <> 0 ->
  exists lm meta,
    fresh_metadata w p = (lm, Ok meta)
    /\ _make_thumbnail w p ts root = (l0 ++ [Imread cp] ++ lm, Ok (img, meta))
    /\ Forall (fun ev => no_decode ev = true) lm
    /\ _make_thumbnail w p ts' root = _make_thumbnail w p ts root.
Proof.
  intros Hprep Hex Hread Hshape Hh Hw.
  destruct (fresh_metadata_total w p) as (lm & meta & Hm & Hl).
  pose proof (to_qimage_nonempty img h wd Hshape Hh Hw) as Hq.
  exists lm, meta. split; [exact Hm |].
  split; [now apply (make_thumbnail_hit w p ts root cp l0 lm img meta) |].
  split; [exact Hl |].
  now rewrite !(make_thumbnail_hit w p _ root cp l0 lm img meta).
Qed.

(** The canvas of a decoded raster is never empty. *)
Lemma decoded_canvas_shape_of (img canvas : ndarray) (h wd ts : Z) :
  shape img = (h, wd) -> composite_canvas img ts = Ok canvas ->
  1 <= h -> 1 <= wd -> 2 <= ts -> 9 * ts < 2 ^ 53 ->
  shape canvas = (ts * 9 / 16, ts) /\ to_qimage canvas = Ok canvas.
Proof.
  intros Hshape Hc Hh Hw Hts Hb.
  destruct (composite_canvas_shape img h wd ts Hshape)
    as (y0 & x0 & nh & nw & Hc'); try lia.
  rewrite Hc in Hc'. injection Hc' as ->.
  split; [reflexivity |].
  apply (to_qimage_nonempty _ (ts * 9 / 16) ts); [reflexivity | |];
    pose proof (target_height_pos ts Hts); lia.
Qed.

Section WorldAfterFacts.

Variable w : World.

Lemma world_fold_keeps (l : list event) (acc : World) :
  os_stat (fold_left (world_step w) l acc) = os_stat acc
  /\ os_makedirs (fold_left (world_step w) l acc) = os_makedirs acc.
Proof.
  revert acc. induction l as [|ev l IH]; intros acc; [now split |].
  simpl. destruct (IH (world_step w acc ev)) as [H1 H2].
  rewrite H1, H2. unfold world_step.
  destruct ev; try (now split).
  - now destruct (os_makedirs w p).
  - now destruct (cv2_imwrite w p img).
Qed.

Lemma prepare_cache_ext (w1 w2 : World) (p root : string) :
  os_stat w1 = os_stat w2 -> os_makedirs w1 = os_makedirs w2 ->
  prepare_cache w1 p root = prepare_cache w2 p root.
Proof.
  intros H1 H2. unfold prepare_cache, get_cache_path, makedirs.
  now rewrite H1, H2.
Qed.

Lemma prepare_cache_after (l : list event) (p root : string) :
  prepare_cache (world_after w l) p root = prepare_cache w p root.
Proof.
  destruct (world_fold_keeps l w) as [H1 H2].
  now apply prepare_cache_ext.
Qed.

(** A file written last is there afterwards and reads back as written. *)
Lemma world_after_write (l : list event) (cp : string) (canvas : ndarray)
    (r : ThumbResult) :
  cv2_imwrite w cp canvas = Ok tt ->
  let w' := world_after w (l ++ [Imwrite cp canvas; Emit r]) in
  os_path_exists w' cp = true /\ cv2_imread w' cp = Ok (Some canvas).
Proof.
  intros Hw w'. unfold w', world_after. rewrite fold_left_app.
  simpl fold_left. unfold world_step at 1 2. rewrite Hw.
  cbn [os_path_exists cv2_imread]. now rewrite String.eqb_refl.
Qed.

End WorldAfterFacts.

(** X4: round trip. After a run that decoded a raster and wrote the cache
    file, a second run for the same file reads that canvas back, of any
    requested size, without opening a decoder and without writing. *)
Theorem second_run_reads_cache_back (w : World) (p : string) (ts ts' : Z)
    (root cp : string) (l0 ld : list event) (img canvas : ndarray)
    (meta : string) (h wd : Z) :
  2 <= ts -> 9 * ts < 2 ^ 53 ->
  shape img = (h, wd) -> 1 <= h < 2 ^ 63 -> 1 <= wd < 2 ^ 63 ->
  prepare_cache w p root = (l0, Ok cp) ->
  cache_miss w cp ->
  decode_media w p = (ld, Ok (Some img, meta)) ->
  composite_canvas img ts = Ok canvas ->
  cv2_imwrite w cp canvas = Ok tt ->
  let w' := world_after w (fst (run w p ts root)) in
  exists lm meta',
    _make_thumbnail w' p ts' root
    = (l0 ++ [Imread cp] ++ lm, Ok (canvas, meta'))
    /\ Forall (fun ev => no_decode ev = true) lm.
Proof.
  intros Hts Hb Hshape Hh Hw Hprep Hmiss Hdec Hc Hwrite w'.
  destruct (decoded_canvas_shape_of img canvas h wd ts Hshape Hc)
    as [Hcs Hq]; try lia.
  assert (Hrun : fst (run w p ts root)
    = (l0 ++ lookup_log w cp ++ ld)
        ++ [Imwrite cp canvas;
            Emit {| path := p; pixmap := Some canvas; meta_text := meta |}]).
  { unfold run.
    rewrite (bind_ok _ _ _ _
               (make_thumbnail_decoded w p ts root cp l0 ld img canvas meta
                  Hprep Hmiss Hdec Hc Hq)).
    cbn [tell fst snd]. rewrite <- !app_assoc. reflexivity. }
  assert (Hfound : os_path_exists w' cp = true
                   /\ cv2_imread w' cp = Ok (Some canvas)).
  { unfold w'. rewrite Hrun. now apply world_after_write. }
  destruct Hfound as [Hex Hread].
  destruct (fresh_metadata_total w' p) as (lm & meta' & Hm & Hl).
  exists lm, meta'. split; [| exact Hl].
  apply (make_thumbnail_hit w' p ts' root cp l0 lm canvas meta');
    try assumption.
  unfold w'. now rewrite prepare_cache_after.
Qed.

Lemma second_run_reads_cache_back_witness :
  exists lm meta',
    _make_thumbnail
      (world_after (world_with_oiio_image "/assets/scan.png")
         (fst (run (world_with_oiio_image "/assets/scan.png")
                   "/assets/scan.png" 256 "/assets/.assetbrowser_cache")))
      "/assets/scan.png" 512 "/assets/.assetbrowser_cache"
    = ([Makedirs "/assets/.assetbrowser_cache";
        Makedirs "/assets/.assetbrowser_cache/11"]
         ++ [Imread "/assets/.assetbrowser_cache/11/11398f8a78a4a93a0506e2d631090a5acbbd03bc.png"]
         ++ lm,
       Ok (Composite 144 256 0 32 144 192 (Decoded 480 640 1), meta'))
    /\ Forall (fun ev => no_decode ev = true) lm.
Proof.
  apply (second_run_reads_cache_back
           (world_with_oiio_image "/assets/scan.png") "/assets/scan.png"
           256 512 "/assets/.assetbrowser_cache"
           "/assets/.assetbrowser_cache/11/11398f8a78a4a93a0506e2d631090a5acbbd03bc.png"
           [Makedirs "/assets/.assetbrowser_cache";
            Makedirs "/assets/.assetbrowser_cache/11"]
           [OiioOpen "/assets/scan.png"; OiioSpec "/assets/scan.png"]
           (Decoded 480 640 1)
           (Composite 144 256 0 32 144 192 (Decoded 480 640 1))
           "640x480x3, format=uint8" 480 640);
    try lia; try reflexivity; try (vm_compute; reflexivity).
  left. reflexivity.
Defined.

Lemma cache_hit_returns_cached_pixels_witness :
  _make_thumbnail
    (world_with_cached "/assets/scan.png"
       "/assets/.assetbrowser_cache/11/11398f8a78a4a93a0506e2d631090a5acbbd03bc.png"
       (Decoded 144 256 7))
    "/assets/scan.png" 1024 "/assets/.assetbrowser_cache"
  = _make_thumbnail
      (world_with_cached "/assets/scan.png"
         "/assets/.assetbrowser_cache/11/11398f8a78a4a93a0506e2d631090a5acbbd03bc.png"
         (Decoded 144 256 7))
      "/assets/scan.png" 64 "/assets/.assetbrowser_cache".
Proof.
  destruct (cache_hit_returns_cached_pixels
              (world_with_cached "/assets/scan.png"
                 "/assets/.assetbrowser_cache/11/11398f8a78a4a93a0506e2d631090a5acbbd03bc.png"
                 (Decoded 144 256 7))
              "/assets/scan.png" 64 1024 "/assets/.assetbrowser_cache"
              "/assets/.assetbrowser_cache/11/11398f8a78a4a93a0506e2d631090a5acbbd03bc.png"
              [Makedirs "/assets/.assetbrowser_cache";
               Makedirs "/assets/.assetbrowser_cache/11"]
              (Decoded 144 256 7) 144 256
              ltac:(vm_compute; reflexivity) ltac:(vm_compute; reflexivity)
              ltac:(vm_compute; reflexivity) eq_refl ltac:(lia) ltac:(lia))
    as (lm & meta & _ & _ & _ & Heq).
  exact Heq.
Defined.

(** X5: placeholder text. When decoding gives no raster on a cache miss, the
    delivered metadata text is never empty: it is the text of the metadata
    reader when there is one, and otherwise the archive notice or
    ["(unsupported or failed to load)"]. *)
Theorem placeholder_text_never_empty (w : World) (p : string) (ts : Z)
    (root cp : string) (l0 ld : list event) (meta : string) :
  2 <= ts -> 9 * ts < 2 ^ 53 ->
  prepare_cache w p root = (l0, Ok cp) ->
  cache_miss w cp ->
  decode_media w p = (ld, Ok (None, meta)) ->
  exists thumb text,
    snd (_make_thumbnail w p ts root) = Ok (thumb, text)
    /\ text <> ""
    /\ (meta <> "" -> text = meta)
    /\ (meta = "" -> is_in_archive p = false ->
        text = "(unsupported or failed to load)"
        /\ thumb = Placeholder (ts * 9 / 16) ts "?" (ts / 2 - 10)
                     (ts * 9 / 16 / 2 + 10)).
Proof.
  intros Hts Hb Hprep Hmiss Hdec.
  rewrite (make_thumbnail_undecoded w p ts root cp l0 ld meta Hprep Hmiss Hdec).
  rewrite (make_placeholder_ok p ts meta Hts Hb). cbn [snd].
  destruct (is_in_archive p); eexists _, _; (split; [reflexivity |]);
    (destruct meta as [|c meta]; [| repeat split; try discriminate;
                                    intros; congruence]).
  - split; [discriminate |]. split; [congruence | discriminate].
  - split; [discriminate |]. split; [congruence |]. intros _ _. now split.
Qed.

Lemma placeholder_text_never_empty_witness :
  exists thumb text,
    snd (_make_thumbnail empty_world "/data/empty.png" 256
           "/data/.assetbrowser_cache") = Ok (thumb, text)
    /\ text <> "".
Proof.
  destruct (placeholder_text_never_empty empty_world "/data/empty.png" 256
              "/data/.assetbrowser_cache"
              "/data/.assetbrowser_cache/ab/ab70f863c743f58e6e9f4053d1d0a704a6aa32cf.png"
              [Makedirs "/data/.assetbrowser_cache";
               Makedirs "/data/.assetbrowser_cache/ab"]
              [OiioOpen "/data/empty.png"; OiioSpec "/data/empty.png";
               Imread "/data/empty.png"]
              ""
              ltac:(lia) ltac:(lia)
              ltac:(vm_compute; reflexivity)
              ltac:(left; reflexivity)
              ltac:(vm_compute; reflexivity))
    as (thumb & text & H1 & H2 & _).
  exists thumb, text. split; assumption.
Defined.

(** ** The decode branches that work as written *)

(** X6: image branch. For a recognized image extension OpenImageIO is asked
    first and its raster is taken without touching [cv2.imread]; [cv2.imread]
    is called exactly when OpenImageIO is missing or gave nothing, and a
    [cv2.error] it raises then ends as "no raster", not as an exception. *)
Theorem image_branch_prefers_oiio (w : World) (p : string) :
  let np := OsPath.normpath p in
  is_video np = false -> is_image np = true ->
  (forall img, oiio_available w = true -> oiio_read w np = Some img ->
     decode_media w p
     = ([OiioOpen np; OiioSpec np], Ok (Some img, oiio_spec_text w np)))
  /\ (oiio_available w = true -> oiio_read w np = None ->
      fst (decode_media w p) = [OiioOpen np; OiioSpec np; Imread np])
  /\ (oiio_available w = false ->
      fst (decode_media w p) = [Imread np])
  /\ ((oiio_available w = false \/ oiio_read w np = None) ->
      cv2_imread w np = Raise cv2_error ->
      exists meta, snd (decode_media w p) = Ok (None, meta)).
Proof.
  intros np Hv Hi.
  assert (Hmem : Str.mem (Str.lower (OsPath.splitext_ext np))
                         SUPPORTED_VIDEO_EXTS = false) by exact Hv.
  unfold decode_media. fold np. rewrite Hv, Hi.
  unfold read_image_oiio, read_metadata_oiio. rewrite Hmem.
  unfold imread, try_except, bind, tell, ret, lift.
  repeat split.
  - intros img Ha Hr. now rewrite Ha, Hr.
  - intros Ha Hr. rewrite Ha, Hr. cbn [negb].
    destruct (cv2_imread w np) as [r | e]; [reflexivity | now destruct e].
  - intros Ha. rewrite Ha. cbn [negb].
    destruct (cv2_imread w np) as [r | e]; [reflexivity | now destruct e].
  - intros Hnone Hraise. rewrite Hraise.
    destruct Hnone as [Ha | Hr].
    + rewrite Ha. cbn [negb pyexn_eqb]. eexists. reflexivity.
    + destruct (oiio_available w); cbn [negb pyexn_eqb];
        [rewrite Hr |]; eexists; reflexivity.
Qed.

Lemma image_branch_prefers_oiio_witness :
  decode_media (world_with_oiio_image "/assets/scan.png") "/assets/scan.png"
  = ([OiioOpen "/assets/scan.png"; OiioSpec "/assets/scan.png"],
     Ok (Some (Decoded 480 640 1), "640x480x3, format=uint8")).
Proof.
  destruct (image_branch_prefers_oiio (world_with_oiio_image "/assets/scan.png")
              "/assets/scan.png" eq_refl eq_refl) as [H _].
  exact (H (Decoded 480 640 1) eq_refl eq_refl).
Defined.

(** X7: video branch. For a recognized video extension the decode stage
    never raises, opens nothing but [cv2.VideoCapture] on the normalized
    path, at most twice (once for the frame, once for the metadata), and
    never opens it for a file that does not exist. *)
Theorem video_branch_only_video_reader (w : World) (p : string) :
  let np := OsPath.normpath p in
  is_video np = true ->
  exists l img meta,
    decode_media w p = (l, Ok (img, meta))
    /\ Forall (fun ev => ev = VideoOpen np) l
    /\ (length l <= 2)%nat
    /\ (os_path_exists w np = false -> l = [] /\ img = None).
Proof.
  intros np Hv. unfold decode_media. fold np. rewrite Hv.
  unfold extract_frame_video, get_video_metadata. cbv zeta.
  assert (Hn : OsPath.normpath np = np) by apply normpath_idempotent.
  rewrite !Hn. unfold bind, tell, ret.
  destruct (first_archive_part (Str.split Str.slash np)).
  - eexists [], _, _. repeat split; [constructor | simpl; lia].
  - destruct (os_path_exists w np) eqn:Hex; cbn [negb].
    + destruct (cv2_VideoCapture w np) as [cap |];
        eexists _, _, _; (split; [reflexivity |]);
        (split; [repeat constructor |]); (split; [simpl; lia | discriminate]).
    + eexists [], _, _. repeat split; [constructor | simpl; lia].
Qed.

Lemma video_branch_only_video_reader_witness :
  exists l img meta,
    decode_media empty_world "/clips/take1.MOV" = (l, Ok (img, meta))
    /\ Forall (fun ev => ev = VideoOpen "/clips/take1.MOV") l
    /\ (length l <= 2)%nat.
Proof.
  destruct (video_branch_only_video_reader empty_world "/clips/take1.MOV" eq_refl)
    as (l & img & meta & H1 & H2 & H3 & _).
  exists l, img, meta. repeat split; assumption.
Defined.


(** ** The cache file of a source ([CacheManager.get_cache_path]) *)

Section CachePathFacts.

Lemma land15_range (y : Z) : 0 <= Z.land y 15 < 16.
Proof.
  change 15 with (Z.ones 4). rewrite Z.land_ones by lia.
  apply Z.mod_pos_bound. lia.
Qed.

Lemma hex_digit_hex (n : Z) :
  0 <= n < 16 -> is_hex_lower (SHA1.hex_digit n) = true.
Proof.
  intros H.
  assert (Hall : forallb (fun k => is_hex_lower (SHA1.hex_digit (Z.of_nat k)))
                         (seq 0 16) = true) by reflexivity.
  rewrite forallb_forall in Hall.
  specialize (Hall (Z.to_nat n)). rewrite Z2Nat.id in Hall by lia.
  apply Hall, in_seq. lia.
Qed.

Lemma all_hex_app (a b : string) :
  all_hex (a +:+ b) = all_hex a && all_hex b.
Proof.
  induction a as [|x a IH]; [now rewrite append_nil_l |].
  rewrite append_cons. simpl. now rewrite IH, andb_assoc.
Qed.

Lemma hex32_shape (x : Z) :
  String.length (SHA1.hex32 x) = 8%nat /\ all_hex (SHA1.hex32 x) = true.
Proof.
  unfold SHA1.hex32. cbn [map string_of_list_ascii String.length all_hex].
  split; [reflexivity |].
  rewrite !hex_digit_hex by apply land15_range. reflexivity.
Qed.

(** A SHA-1 digest is written with forty lowercase hexadecimal digits. *)
Lemma hexdigest_shape (s : string) :
  String.length (SHA1.hexdigest s) = 40%nat
  /\ all_hex (SHA1.hexdigest s) = true.
Proof.
  unfold SHA1.hexdigest. cbv zeta.
  destruct (fold_left SHA1.compress _ SHA1.init) as [[[[h0 h1] h2] h3] h4].
  rewrite !length_append, !all_hex_app.
  destruct (hex32_shape h0) as [-> ->], (hex32_shape h1) as [-> ->],
    (hex32_shape h2) as [-> ->], (hex32_shape h3) as [-> ->],
    (hex32_shape h4) as [-> ->].
  split; reflexivity.
Qed.

Lemma hash_for_file_shape (st : string -> stat_result) (p key : string) :
  hash_for_file st p = Ok key ->
  String.length key = 40%nat /\ all_hex key = true.
Proof.
  intros H.
  apply hash_for_file_inv in H as (_ & [(m & s & _ & ->) | (_ & ->)]);
    apply hexdigest_shape.
Qed.

Lemma all_hex_no_sep (s : string) :
  all_hex s = true -> Str.contains Str.slash s = false.
Proof.
  induction s as [|c s IH]; [reflexivity |]. simpl.
  intros H. apply andb_true_iff in H as [Hc Hs]. rewrite (IH Hs), orb_false_r.
  destruct (Ascii.eqb c Str.slash) eqn:E; [| reflexivity].
  apply Ascii.eqb_eq in E. subst c. discriminate Hc.
Qed.

Lemma all_hex_not_dot (s : string) : all_hex s = true -> s <> ".".
Proof. intros H ->. discriminate H. Qed.

Lemma contains_app_no (c : ascii) (a b : string) :
  Str.contains c a = false -> Str.contains c b = false ->
  Str.contains c (a +:+ b) = false.
Proof.
  intros Ha Hb. induction a as [|x a IH]; [now rewrite append_nil_l |].
  rewrite append_cons. simpl in *.
  apply orb_false_iff in Ha as [Hx Ha]. now rewrite Hx, IH.
Qed.

Lemma all_hex_substring (n m : nat) (s : string) :
  all_hex s = true -> all_hex (String.substring n m s) = true.
Proof.
  revert n m. induction s as [|c s IH]; intros n m H.
  - now destruct n, m.
  - simpl in H. apply andb_true_iff in H as [Hc Hs].
    destruct n as [|n]; [destruct m as [|m]; [reflexivity |] |].
    + simpl. now rewrite Hc, (IH 0%nat m Hs).
    + simpl. now apply IH.
Qed.

Lemma length_substring_prefix (m : nat) (s : string) :
  (m <= String.length s)%nat ->
  String.length (String.substring 0 m s) = m.
Proof.
  revert m. induction s as [|c s IH]; intros m H.
  - simpl in H. now destruct m; [| lia].
  - destruct m as [|m]; [reflexivity |]. simpl in *. f_equal. apply IH. lia.
Qed.

Lemma endswith_sep_inv (x : string) :
  Str.endswith x OsPath.sep = true -> exists y, x = y +:+ OsPath.sep.
Proof.
  induction x as [|a x IH]; [discriminate |].
  rewrite endswith_cons. intros E. apply orb_true_iff in E as [E | E].
  - apply String.eqb_eq in E. exists "". now rewrite append_nil_l.
  - destruct (IH E) as [y ->]. exists (String a y). now rewrite append_cons.
Qed.

(** A shard directory under any root: not empty, no trailing separator. *)
Lemma join_shard (root b : string) :
  proper_comp b ->
  OsPath.join root b <> ""
  /\ Str.endswith (OsPath.join root b) OsPath.sep = false
  /\ OsPath.basename (OsPath.join root b) = b.
Proof.
  intros Hb. pose proof Hb as (Hs & Hne & _).
  unfold OsPath.join. rewrite (startswith_no_sep b Hs).
  assert (Hbase : forall x, OsPath.basename (x +:+ OsPath.sep +:+ b) = b).
  { intros x. unfold OsPath.basename, OsPath.sep.
    rewrite append_cons, append_nil_l.
    change "/"%char with Str.slash. now rewrite rpartition_app. }
  destruct (Str.is_empty root || Str.endswith root OsPath.sep) eqn:E.
  - split; [| split].
    + destruct root; [now rewrite append_nil_l |].
      rewrite append_cons. discriminate.
    + now apply endswith_app_proper.
    + apply orb_true_iff in E as [E | E].
      * destruct root; [| discriminate]. rewrite append_nil_l.
        unfold OsPath.basename.
        now rewrite (contains_none_rpartition _ _ Hs).
      * destruct (endswith_sep_inv root E) as [y ->].
        rewrite append_assoc. apply Hbase.
  - split; [| split].
    + destruct root; [discriminate | rewrite append_cons; discriminate].
    + rewrite <- append_assoc. now apply endswith_app_proper.
    + apply Hbase.
Qed.

End CachePathFacts.


(** X8: the cache file of a source.  Whenever [get_cache_path] returns, the
    key is the forty-digit lowercase hexadecimal digest of [hash_for_file],
    exactly one directory was created, the shard [<cache_root>/<first two
    digits>], and the result is [<shard>/<key>.png]; no separator of the
    root or of the source path reaches the file name. *)
Theorem get_cache_path_layout (w : World) (cache_root src_path : string)
    (l : list event) (cp : string) :
  get_cache_path w cache_root src_path = (l, Ok cp) ->
  exists key,
    hash_for_file (os_stat w) src_path = Ok key
    /\ String.length key = 40%nat /\ all_hex key = true
    /\ let shard := OsPath.join cache_root (String.substring 0 2 key) in
       l = [Makedirs shard]
       /\ OsPath.basename shard = String.substring 0 2 key
       /\ cp = shard +:+ "/" +:+ key +:+ ".png"
       /\ OsPath.basename cp = key +:+ ".png".
Proof.
  unfold get_cache_path, makedirs, bind, lift, tell, ret.
  destruct (hash_for_file (os_stat w) src_path) as [key | e] eqn:Hk;
    [| discriminate].
  destruct (hash_for_file_shape _ _ _ Hk) as [Hlen Hhex].
  set (sub := String.substring 0 2 key).
  assert (Hsub : proper_comp sub).
  { assert (Hh : all_hex sub = true) by now apply all_hex_substring.
    assert (Hl : String.length sub = 2%nat)
      by (apply length_substring_prefix; lia).
    split; [now apply all_hex_no_sep |].
    split; [intros E; rewrite E in Hl; discriminate |].
    now apply all_hex_not_dot. }
  assert (Hfile : proper_comp (key +:+ ".png")).
  { split; [| split].
    - apply contains_app_no; [now apply all_hex_no_sep | reflexivity].
    - intros E. apply (f_equal String.length) in E.
      rewrite length_append, Hlen in E. discriminate.
    - intros E. apply (f_equal String.length) in E.
      rewrite length_append, Hlen in E. discriminate. }
  destruct (join_shard cache_root sub Hsub) as (Hne & Hend & Hbase).
  destruct (os_makedirs w (OsPath.join cache_root sub)) as [[] | e];
    [| discriminate].
  cbn [app]. intros [= <- <-]. exists key.
  split; [reflexivity |]. split; [exact Hlen |]. split; [exact Hhex |].
  cbv zeta. fold sub.
  split; [reflexivity |]. split; [exact Hbase |].
  rewrite (join_proper _ _ Hne Hend Hfile).
  split; [reflexivity |].
  destruct (join_shard (OsPath.join cache_root sub) _ Hfile) as (_ & _ & Hb).
  rewrite (join_proper _ _ Hne Hend Hfile) in Hb. exact Hb.
Qed.

Lemma get_cache_path_layout_witness :
  exists key,
    hash_for_file (os_stat empty_world) "/data/empty.png" = Ok key
    /\ String.length key = 40%nat /\ all_hex key = true
    /\ let shard := OsPath.join "/data/.assetbrowser_cache"
                      (String.substring 0 2 key) in
       [Makedirs "/data/.assetbrowser_cache/ab"] = [Makedirs shard]
       /\ OsPath.basename shard = String.substring 0 2 key
       /\ "/data/.assetbrowser_cache/ab/ab70f863c743f58e6e9f4053d1d0a704a6aa32cf.png"
          = shard +:+ "/" +:+ key +:+ ".png"
       /\ OsPath.basename
            "/data/.assetbrowser_cache/ab/ab70f863c743f58e6e9f4053d1d0a704a6aa32cf.png"
          = key +:+ ".png".
Proof.
  exact (get_cache_path_layout empty_world "/data/.assetbrowser_cache"
           "/data/empty.png" _ _ eq_refl).
Defined.


(** X9: failures while the cache path is derived.  [hash_for_file] guards
    [os.stat] against [FileNotFoundError] only: any other error of
    [os.stat] leaves [run] right after the cache root was created, and an
    error of [os.makedirs] on the shard directory leaves it right after
    that call.  In both cases no decoder is opened and nothing is
    delivered. *)
Theorem run_raises_when_cache_path_fails (w : World) (p : string) (ts : Z)
    (root : string) (e : pyexn) :
  os_makedirs w root = Ok tt ->
  (os_stat w p = StatRaises e -> e <> FileNotFoundError ->
   run w p ts root = ([Makedirs root], Raise e))
  /\ (forall key,
        hash_for_file (os_stat w) p = Ok key ->
        os_makedirs w (OsPath.join root (String.substring 0 2 key)) = Raise e ->
        run w p ts root
        = ([Makedirs root;
            Makedirs (OsPath.join root (String.substring 0 2 key))], Raise e)).
Proof.
  intros Hroot. split.
  - intros Hstat Hne.
    assert (Hk : hash_for_file (os_stat w) p = Raise e).
    { unfold hash_for_file. rewrite Hstat. destruct e; congruence. }
    unfold run, _make_thumbnail, prepare_cache, get_cache_path, makedirs.
    unfold bind at 5. unfold tell, lift, bind. now rewrite Hroot, Hk.
  - intros key Hk Hsub.
    unfold run, _make_thumbnail, prepare_cache, get_cache_path, makedirs.
    unfold bind at 5. unfold tell, lift, bind, ret.
    now rewrite Hroot, Hk, Hsub.
Qed.

(** The archive [/data/pack.zip] is a regular file: [os.stat] of a path
    below it fails with an [OSError] that is not [FileNotFoundError]. *)
Lemma run_raises_when_cache_path_fails_witness :
  run (world_stat_fails "/data/pack.zip/clip.mp4" OSError)
      "/data/pack.zip/clip.mp4" 256 "/data/.assetbrowser_cache"
  = ([Makedirs "/data/.assetbrowser_cache"], Raise OSError).
Proof.
  apply (proj1 (run_raises_when_cache_path_fails
                  (world_stat_fails "/data/pack.zip/clip.mp4" OSError)
                  "/data/pack.zip/clip.mp4" 256 "/data/.assetbrowser_cache"
                  OSError eq_refl));
    [reflexivity | discriminate].
Defined.


(** ** The cache root of any folder ([CacheManager.generate_cache_root]) *)

Section CacheRootAnywhere.

Lemma rel_comps_proper (project folder : string) :
  Forall proper_comp (rel_comps project folder).
Proof.
  unfold rel_comps. cbv zeta. apply Forall_app. split.
  - generalize (length (norm_comps project)
                - OsPath.common_len (norm_comps project) (norm_comps folder))%nat.
    intros n. induction n as [|n IH]; constructor; [| exact IH].
    repeat split; discriminate.
  - pose proof (norm_comps_proper folder) as H.
    rewrite <- (firstn_skipn
                  (OsPath.common_len (norm_comps project) (norm_comps folder))
                  (norm_comps folder)) in H.
    now apply Forall_app in H as [_ H].
Qed.

Lemma relpath_abs (cwd folder project : string) :
  OsPath.isabs project = true -> OsPath.isabs folder = true ->
  OsPath.relpath cwd folder project
  = Some (match rel_comps project folder with
          | [] => "."
          | rel => Str.join OsPath.sep rel
          end).
Proof.
  intros Hp Hf. unfold OsPath.relpath.
  destruct folder as [|x folder]; [discriminate Hf |].
  cbv beta iota delta [Str.is_empty].
  rewrite !abspath_abs, !nonempty_parts_abs by assumption.
  cbv zeta. fold (rel_comps project (String x folder)).
  pose proof (rel_comps_proper project (String x folder)) as Hall.
  destruct (rel_comps project (String x folder)) as [|a r]; [reflexivity |].
  f_equal. now apply join_all_proper.
Qed.

(** The cache root of every folder, for absolute paths. *)
Lemma generate_cache_root_abs (cwd project folder : string) :
  project <> "" ->
  OsPath.isabs project = true -> OsPath.isabs folder = true ->
  generate_cache_root cwd (Some project) folder
  = match rel_comps project folder with
    | [] => project_cache_root project
    | rel => OsPath.join (project_cache_root project)
               (Str.replace backslash "_" (Str.join "_" rel))
    end.
Proof.
  intros Hne Hp Hf. unfold generate_cache_root.
  destruct project as [|c project]; [contradiction |].
  change (Str.is_empty (String c project)) with false. cbv iota zeta.
  fold (project_cache_root (String c project)).
  rewrite (relpath_abs cwd folder (String c project) Hp Hf).
  pose proof (rel_comps_proper (String c project) folder) as Hall.
  destruct (rel_comps (String c project) folder) as [|a r]; [reflexivity |].
  rewrite (join_nonempty (a :: r) Hall) by discriminate.
  rewrite (join_not_curdir (a :: r) Hall). simpl negb. simpl andb.
  rewrite (replace_join (a :: r) Hall).
  rewrite (replace_absent Str.slash "_" (Str.join "_" (a :: r)))
    by now apply join_underscore_no_sep.
  reflexivity.
Qed.

Lemma replace_no_old (old : ascii) (n s : string) :
  Str.contains old n = false -> Str.contains old (Str.replace old n s) = false.
Proof.
  intros Hn. induction s as [|x s IH]; [reflexivity |]. simpl.
  destruct (Ascii.eqb x old) eqn:E.
  - now rewrite contains_app, Hn, IH.
  - simpl. now rewrite E, IH.
Qed.

Lemma replace_nonempty (old : ascii) (n s : string) :
  n <> "" -> s <> "" -> Str.replace old n s <> "".
Proof.
  intros Hn Hs. destruct s as [|x s]; [contradiction |]. simpl.
  destruct (Ascii.eqb x old); [| discriminate].
  destruct n; [contradiction | rewrite append_cons; discriminate].
Qed.

End CacheRootAnywhere.

(** X10: the project cache is flat.  For absolute paths and any folder, inside
    the project or not, the cache root is the project cache folder itself or
    a path made by joining one name to it, and that name is not empty and
    holds neither a slash nor a backslash: folders of any depth get sibling
    cache directories (the name is [..] for the parent of the project). *)
Theorem project_cache_is_flat (cwd project folder : string) :
  project <> "" ->
  OsPath.isabs project = true -> OsPath.isabs folder = true ->
  generate_cache_root cwd (Some project) folder = project_cache_root project
  \/ exists name,
       generate_cache_root cwd (Some project) folder
       = OsPath.join (project_cache_root project) name
       /\ name <> ""
       /\ Str.contains Str.slash name = false
       /\ Str.contains backslash name = false.
Proof.
  intros Hne Hp Hf. rewrite (generate_cache_root_abs cwd _ _ Hne Hp Hf).
  pose proof (rel_comps_proper project folder) as Hall.
  destruct (rel_comps project folder) as [|a r]; [now left |].
  right. eexists. split; [reflexivity |]. split; [| split].
  - apply replace_nonempty; [discriminate |].
    intros E. pose proof (join_underscore_no_sep (a :: r) Hall) as Hs.
    inversion Hall as [|? ? (_ & Ha & _) _]; subst.
    destruct a; [contradiction |]. destruct r; discriminate E.
  - rewrite contains_replace; [| reflexivity | reflexivity].
    now apply join_underscore_no_sep.
  - now apply replace_no_old.
Qed.

(** A folder next to the project, two levels up and one down. *)
Lemma project_cache_is_flat_witness :
  generate_cache_root "/" (Some "/proj/show") "/lib/hdri"
  = project_cache_root "/proj/show"
  \/ exists name,
       generate_cache_root "/" (Some "/proj/show") "/lib/hdri"
       = OsPath.join (project_cache_root "/proj/show") name
       /\ name <> ""
       /\ Str.contains Str.slash name = false
       /\ Str.contains backslash name = false.
Proof.
  exact (project_cache_is_flat "/" "/proj/show" "/lib/hdri"
           ltac:(discriminate) eq_refl eq_refl).
Defined.


(** ** Joined paths under [normpath] *)

Section JoinedPaths.

Lemma common_len_app_l (a sub : list string) :
  OsPath.common_len (a ++ sub) a = length a.
Proof.
  induction a as [|x a IH]; [now destruct sub |].
  simpl. now rewrite String.eqb_refl, IH.
Qed.

Lemma norm_step_name (n : nat) (acc : list string) (c : string) :
  proper_name c -> OsPath.norm_step n acc c = acc ++ [c].
Proof.
  intros ((_ & H1 & H2) & H3). unfold OsPath.norm_step.
  apply String.eqb_neq in H1, H2, H3. now rewrite H1, H2, H3.
Qed.

Lemma norm_step_dotdot_pops (n : nat) (acc : list string) (c : string) :
  c <> ".." -> OsPath.norm_step (S n) (acc ++ [c]) ".." = acc.
Proof.
  intros Hc. unfold OsPath.norm_step.
  rewrite last_last, length_app. apply String.eqb_neq in Hc. rewrite Hc.
  cbn [String.eqb Ascii.eqb Bool.eqb orb negb andb Nat.eqb].
  rewrite andb_false_r. cbn [orb]. apply removelast_last.
Qed.

Lemma norm_step_abs (n m : nat) (acc : list string) (c : string) :
  OsPath.norm_step (S n) acc c = OsPath.norm_step (S m) acc c.
Proof. reflexivity. Qed.

Lemma startswith_nil (s : string) : Str.startswith s "" = true.
Proof. now destruct s. Qed.

Lemma startswith_sep_cons (x : ascii) (s : string) :
  Str.startswith (String x s) OsPath.sep = Ascii.eqb x Str.slash.
Proof.
  unfold OsPath.sep. cbn [Str.startswith].
  now rewrite startswith_nil, andb_true_r.
Qed.

Lemma isabs_cons (p : string) :
  OsPath.isabs p = true -> exists r, p = String Str.slash r.
Proof.
  destruct p as [|a r]; [discriminate |]. unfold OsPath.isabs.
  rewrite startswith_sep_cons. intros E. apply Ascii.eqb_eq in E. subst a.
  now exists r.
Qed.

Lemma initial_slashes_cons (a b c : ascii) (s : string) :
  OsPath.initial_slashes (String a (String b (String c s)))
  = if Ascii.eqb a Str.slash
    then if Ascii.eqb b Str.slash && negb (Ascii.eqb c Str.slash)
         then 2%nat else 1%nat
    else 0%nat.
Proof.
  unfold OsPath.initial_slashes. cbn [Str.startswith].
  rewrite !startswith_nil, !andb_true_r. unfold Str.slash.
  destruct (Ascii.eqb a "/"), (Ascii.eqb b "/"), (Ascii.eqb c "/"); reflexivity.
Qed.

Lemma initial_slashes_two (a b : ascii) :
  OsPath.initial_slashes (String a (String b ""))
  = if Ascii.eqb a Str.slash
    then if Ascii.eqb b Str.slash then 2%nat else 1%nat
    else 0%nat.
Proof.
  unfold OsPath.initial_slashes. cbn [Str.startswith].
  unfold Str.slash.
  destruct (Ascii.eqb a "/"), (Ascii.eqb b "/"); reflexivity.
Qed.

(** Text appended to an absolute path leaves the count of leading slashes,
    unless it extends a path made of slashes only. *)
Lemma initial_slashes_app (p s : string) :
  OsPath.isabs p = true ->
  (Str.endswith p OsPath.sep = true -> Str.startswith s OsPath.sep = false) ->
  OsPath.initial_slashes (p +:+ s) = OsPath.initial_slashes p.
Proof.
  intros Hp Hs. destruct (isabs_cons p Hp) as [r ->].
  destruct r as [|b r].
  - specialize (Hs eq_refl). rewrite append_cons, append_nil_l.
    destruct s as [|x s]; [reflexivity |].
    rewrite startswith_sep_cons in Hs.
    destruct s as [|y s].
    + rewrite initial_slashes_two, Hs. reflexivity.
    + rewrite initial_slashes_cons, Hs. reflexivity.
  - destruct r as [|c r].
    + rewrite !append_cons, append_nil_l, initial_slashes_two.
      destruct (Ascii.eqb b Str.slash) eqn:Eb.
      * apply Ascii.eqb_eq in Eb. subst b. specialize (Hs eq_refl).
        destruct s as [|x s]; [reflexivity |].
        rewrite startswith_sep_cons in Hs.
        rewrite initial_slashes_cons, Hs. reflexivity.
      * destruct s as [|x s].
        -- rewrite initial_slashes_two, Eb. reflexivity.
        -- rewrite initial_slashes_cons, Eb. reflexivity.
    + rewrite !append_cons, !initial_slashes_cons. reflexivity.
Qed.

Lemma fold_norm_snoc (n : nat) (l : list string) (c : string) :
  fold_left (OsPath.norm_step n) (l ++ [c]) []
  = OsPath.norm_step n (fold_left (OsPath.norm_step n) l []) c.
Proof. now rewrite fold_left_app. Qed.

(** [os.path.join] of an absolute path and one more component: the shape
    of the text. *)
Lemma join_abs_shape (p c : string) :
  OsPath.isabs p = true -> Str.contains Str.slash c = false ->
  (Str.endswith p OsPath.sep = true
   /\ exists y, p = y +:+ OsPath.sep /\ OsPath.join p c = y +:+ String Str.slash c)
  \/ (Str.endswith p OsPath.sep = false
      /\ OsPath.join p c = p +:+ String Str.slash c).
Proof.
  intros Hp Hc. destruct (isabs_cons p Hp) as [r ->].
  unfold OsPath.join. rewrite (startswith_no_sep c Hc).
  cbn [Str.is_empty orb].
  destruct (Str.endswith (String Str.slash r) OsPath.sep) eqn:E.
  - left. split; [reflexivity |].
    destruct (endswith_sep_inv _ E) as [y Hy]. exists y. split; [exact Hy |].
    rewrite Hy, append_assoc. reflexivity.
  - right. split; reflexivity.
Qed.

(** One more component on an absolute path: [normpath] keeps what it kept
    and handles the new component last. *)
Lemma norm_comps_join (p c : string) :
  OsPath.isabs p = true -> Str.contains Str.slash c = false ->
  OsPath.isabs (OsPath.join p c) = true
  /\ OsPath.initial_slashes (OsPath.join p c) = OsPath.initial_slashes p
  /\ norm_comps (OsPath.join p c)
     = OsPath.norm_step (OsPath.initial_slashes p) (norm_comps p) c.
Proof.
  intros Hp Hc.
  assert (Hj : exists s, OsPath.join p c = p +:+ s
                /\ (Str.endswith p OsPath.sep = true
                    -> Str.startswith s OsPath.sep = false)).
  { destruct (join_abs_shape p c Hp Hc) as [(He & y & Hy & Hj) | (He & Hj)].
    - exists c. split; [| intros _; now apply startswith_no_sep].
      rewrite Hj, Hy, append_assoc. reflexivity.
    - exists (String Str.slash c). split; [exact Hj |].
      intros E. rewrite E in He. discriminate. }
  destruct Hj as (s & Hj & Hs).
  assert (Hi : OsPath.initial_slashes (OsPath.join p c)
               = OsPath.initial_slashes p)
    by (rewrite Hj; now apply initial_slashes_app).
  split; [| split; [exact Hi |]].
  - rewrite Hj. destruct (isabs_cons p Hp) as [r ->].
    rewrite append_cons. unfold OsPath.isabs.
    rewrite startswith_sep_cons. apply Ascii.eqb_refl.
  - unfold norm_comps. rewrite Hi.
    destruct (join_abs_shape p c Hp Hc) as [(He & y & Hy & Hj') | (He & Hj')];
      rewrite Hj', split_app_sep, (split_no_sep _ c Hc), fold_norm_snoc.
    + f_equal. rewrite Hy. unfold OsPath.sep.
      rewrite split_app_sep. cbn [Str.split]. now rewrite fold_norm_snoc.
    + reflexivity.
Qed.

Lemma norm_comps_join_name (p c : string) :
  OsPath.isabs p = true -> proper_name c ->
  norm_comps (OsPath.join p c) = norm_comps p ++ [c].
Proof.
  intros Hp Hc. pose proof Hc as ((Hs & _) & _).
  destruct (norm_comps_join p c Hp Hs) as (_ & _ & ->).
  now apply norm_step_name.
Qed.

Lemma isabs_join (p c : string) :
  OsPath.isabs p = true -> Str.contains Str.slash c = false ->
  OsPath.isabs (OsPath.join p c) = true.
Proof. intros Hp Hc. now destruct (norm_comps_join p c Hp Hc). Qed.

End JoinedPaths.


Section CacheRootEdges.

Lemma rel_comps_inside (project folder : string) (sub : list string) :
  norm_comps folder = norm_comps project ++ sub ->
  rel_comps project folder = sub.
Proof.
  intros H. unfold rel_comps. cbv zeta.
  rewrite H, common_len_app, Nat.sub_diag, skipn_app, skipn_all, Nat.sub_diag.
  reflexivity.
Qed.

Lemma rel_comps_parent (project folder : string) (name : string) :
  norm_comps project = norm_comps folder ++ [name] ->
  rel_comps project folder = [".."].
Proof.
  intros H. unfold rel_comps. cbv zeta.
  rewrite H, common_len_app_l, length_app, skipn_all.
  cbn [length]. replace (_ + 1 - _)%nat with 1%nat by lia. reflexivity.
Qed.

Lemma cache_folder_name_proper (b : string) :
  Str.contains Str.slash b = false ->
  proper_name (b +:+ "_AssetBrowserCache").
Proof.
  intros Hb.
  assert (Hl : (18 <= String.length (b +:+ "_AssetBrowserCache"))%nat)
    by (rewrite length_append; simpl; lia).
  repeat split.
  - now apply contains_app_no.
  - intros E. rewrite E in Hl. simpl in Hl. lia.
  - intros E. rewrite E in Hl. simpl in Hl. lia.
  - intros E. rewrite E in Hl. simpl in Hl. lia.
Qed.

Lemma flat_name_proper (a b : string) :
  proper_name a -> proper_name b -> proper_name (a +:+ "_" +:+ b).
Proof.
  intros ((Ha & Hna & _) & _) ((Hb & Hnb & _) & _).
  assert (Hl : (3 <= String.length (a +:+ "_" +:+ b))%nat).
  { rewrite !length_append. destruct a; [contradiction |].
    destruct b; [contradiction |]. simpl. lia. }
  repeat split.
  - apply contains_app_no; [exact Ha |].
    apply contains_app_no; [reflexivity | exact Hb].
  - intros E. rewrite E in Hl. simpl in Hl. lia.
  - intros E. rewrite E in Hl. simpl in Hl. lia.
  - intros E. rewrite E in Hl. simpl in Hl. lia.
Qed.

Lemma isabs_nonempty (p : string) : OsPath.isabs p = true -> p <> "".
Proof. intros H ->. discriminate H. Qed.

End CacheRootEdges.

(** X11: two folders, one cache.  Inside a project at an absolute path, the
    nested folder [a/b] and the sibling folder [a_b] are different
    directories with the same cache root: flattening the relative path with
    underscores does not keep folders apart. *)
Theorem cache_root_shared_by_flattened_folders (cwd project a b : string) :
  OsPath.isabs project = true -> proper_name a -> proper_name b ->
  let nested := OsPath.join (OsPath.join project a) b in
  let sibling := OsPath.join project (a +:+ "_" +:+ b) in
  generate_cache_root cwd (Some project) nested
  = generate_cache_root cwd (Some project) sibling
  /\ norm_comps nested <> norm_comps sibling.
Proof.
  intros Hp Ha Hb nested sibling.
  pose proof (flat_name_proper a b Ha Hb) as Hab.
  pose proof Ha as ((Hsa & _) & _). pose proof Hb as ((Hsb & _) & _).
  pose proof Hab as ((Hsab & _) & _).
  assert (Hpa : OsPath.isabs (OsPath.join project a) = true)
    by now apply isabs_join.
  assert (Hn : norm_comps nested = norm_comps project ++ [a; b]).
  { unfold nested. rewrite (norm_comps_join_name _ b Hpa Hb).
    rewrite (norm_comps_join_name _ a Hp Ha), <- app_assoc. reflexivity. }
  assert (Hs : norm_comps sibling = norm_comps project ++ [a +:+ "_" +:+ b])
    by now apply norm_comps_join_name.
  split.
  - rewrite !generate_cache_root_abs;
      try (now apply isabs_nonempty); try assumption;
      [| now apply isabs_join | now apply isabs_join].
    rewrite (rel_comps_inside _ _ _ Hn), (rel_comps_inside _ _ _ Hs).
    reflexivity.
  - rewrite Hn, Hs. intros E. apply (f_equal (@length string)) in E.
    rewrite !length_app in E. simpl in E. lia.
Qed.

(** The folders [seq/sh010] and [seq_sh010] of the project [/proj/show]. *)
Lemma cache_root_shared_by_flattened_folders_witness :
  generate_cache_root "/" (Some "/proj/show") "/proj/show/seq/sh010"
  = generate_cache_root "/" (Some "/proj/show") "/proj/show/seq_sh010".
Proof.
  exact (proj1 (cache_root_shared_by_flattened_folders "/" "/proj/show"
                  "seq" "sh010" eq_refl
                  ltac:(repeat split; discriminate)
                  ltac:(repeat split; discriminate))).
Defined.

(** X12: the folder above the project.  When the folder shown is the parent
    directory of the project (absolute paths), [relpath] is [".."], no
    character of it is replaced, and the cache root is
    [<project>/<projectName>_AssetBrowserCache/..]: a path that denotes the
    project directory itself, not a directory inside the project cache. *)
Theorem cache_root_of_parent_folder (cwd folder name : string) :
  OsPath.isabs folder = true -> proper_name name ->
  let project := OsPath.join folder name in
  generate_cache_root cwd (Some project) folder
  = OsPath.join (project_cache_root project) ".."
  /\ OsPath.normpath (generate_cache_root cwd (Some project) folder)
     = OsPath.normpath project.
Proof.
  intros Hf Hname project.
  pose proof Hname as ((Hsn & _) & _).
  assert (Hp : OsPath.isabs project = true) by now apply isabs_join.
  assert (Hne : project <> "") by now apply isabs_nonempty.
  assert (Hc : norm_comps project = norm_comps folder ++ [name])
    by now apply norm_comps_join_name.
  assert (Hg : generate_cache_root cwd (Some project) folder
               = OsPath.join (project_cache_root project) "..").
  { rewrite (generate_cache_root_abs cwd project folder Hne Hp Hf).
    now rewrite (rel_comps_parent _ _ _ Hc). }
  split; [exact Hg |]. rewrite Hg.
  pose proof (cache_folder_name_proper _ (basename_no_sep project)) as Hx.
  pose proof Hx as ((Hsx & _) & Hxd).
  destruct (norm_comps_join project _ Hp Hsx) as (Hra & Hri & Hrc).
  fold (project_cache_root project) in Hra, Hri, Hrc.
  rewrite (norm_step_name _ _ _ Hx) in Hrc.
  destruct (norm_comps_join (project_cache_root project) ".." Hra eq_refl)
    as (Hja & Hji & Hjc).
  destruct (isabs_initial_slashes _ Hp) as [k Hk].
  rewrite Hrc, Hri, Hk, (norm_step_dotdot_pops _ _ _ Hxd) in Hjc.
  rewrite Hri in Hji.
  rewrite (normpath_spec _ (isabs_nonempty _ Hja)), (normpath_spec _ Hne).
  now rewrite Hji, Hjc.
Qed.

(** The project [/proj/show] seen from [/proj]. *)
Lemma cache_root_of_parent_folder_witness :
  generate_cache_root "/" (Some "/proj/show") "/proj"
  = "/proj/show/show_AssetBrowserCache/.."
  /\ OsPath.normpath (generate_cache_root "/" (Some "/proj/show") "/proj")
     = "/proj/show".
Proof.
  exact (cache_root_of_parent_folder "/" "/proj" "show" eq_refl
           ltac:(repeat split; discriminate)).
Defined.


(** ** File classes by extension ([utils/file_utils.py]) *)

Section ExtensionFacts.

Lemma lower_ascii_keeps (c a : ascii) :
  c = Str.slash \/ c = Str.dot ->
  Ascii.eqb (Str.lower_ascii a) c = Ascii.eqb a c.
Proof.
  intros [-> | ->]; destruct a as [[] [] [] [] [] [] [] []]; reflexivity.
Qed.

Lemma lower_ascii_idem (a : ascii) :
  Str.lower_ascii (Str.lower_ascii a) = Str.lower_ascii a.
Proof. destruct a as [[] [] [] [] [] [] [] []]; reflexivity. Qed.

Lemma lower_idem (s : string) : Str.lower (Str.lower s) = Str.lower s.
Proof.
  induction s as [|a s IH]; [reflexivity |]. simpl.
  now rewrite lower_ascii_idem, IH.
Qed.

Lemma rpartition_lower (c : ascii) (s : string) :
  c = Str.slash \/ c = Str.dot ->
  Str.rpartition c (Str.lower s)
  = match Str.rpartition c s with
    | Some (b, t) => Some (Str.lower b, Str.lower t)
    | None => None
    end.
Proof.
  intros Hc. induction s as [|a s IH]; [reflexivity |]. simpl.
  rewrite IH. destruct (Str.rpartition c s) as [[b t]|]; [reflexivity |].
  rewrite (lower_ascii_keeps c a Hc). now destruct (Ascii.eqb a c).
Qed.

Lemma all_char_lower (s : string) :
  Str.all_char Str.dot (Str.lower s) = Str.all_char Str.dot s.
Proof.
  induction s as [|a s IH]; [reflexivity |]. simpl.
  now rewrite IH, (lower_ascii_keeps Str.dot a) by now right.
Qed.

Lemma basename_lower (p : string) :
  OsPath.basename (Str.lower p) = Str.lower (OsPath.basename p).
Proof.
  unfold OsPath.basename. rewrite rpartition_lower by now left.
  now destruct (Str.rpartition Str.slash p) as [[b t]|].
Qed.

(** The extension of the lowercased path is the lowercased extension. *)
Lemma splitext_lower (p : string) :
  OsPath.splitext_ext (Str.lower p) = Str.lower (OsPath.splitext_ext p).
Proof.
  unfold OsPath.splitext_ext. rewrite basename_lower.
  rewrite rpartition_lower by now right.
  destruct (Str.rpartition Str.dot (OsPath.basename p)) as [[stem e]|];
    [| reflexivity].
  rewrite all_char_lower. now destruct (Str.all_char Str.dot stem).
Qed.

Lemma basename_basename (p : string) :
  OsPath.basename (OsPath.basename p) = OsPath.basename p.
Proof.
  unfold OsPath.basename at 1.
  now rewrite (contains_none_rpartition _ _ (basename_no_sep p)).
Qed.

Lemma splitext_basename (p : string) :
  OsPath.splitext_ext (OsPath.basename p) = OsPath.splitext_ext p.
Proof. unfold OsPath.splitext_ext. now rewrite basename_basename. Qed.

Lemma lower_ext_of_lower (p : string) :
  Str.lower (OsPath.splitext_ext (Str.lower p))
  = Str.lower (OsPath.splitext_ext p).
Proof. now rewrite splitext_lower, lower_idem. Qed.

End ExtensionFacts.

(** X13: file classes.  Whether a path is a video or an image depends only on
    its base name (a directory named like a media file changes nothing) and
    is blind to letter case anywhere in the path; no path is both a video
    and an image, so [is_supported_asset] holds exactly when one of the two
    classes applies. *)
Theorem extension_class_by_lowercase_name (p q : string) :
  (Str.lower (OsPath.basename p) = Str.lower (OsPath.basename q) ->
   is_video p = is_video q /\ is_image p = is_image q
   /\ is_supported_asset p = is_supported_asset q)
  /\ (is_video p = true -> is_image p = false)
  /\ is_supported_asset p = xorb (is_image p) (is_video p).
Proof.
  assert (Hex : is_video p = true -> is_image p = false).
  { unfold is_video, is_image, Str.mem. intros H.
    apply existsb_exists in H as (x & Hin & Hx).
    apply String.eqb_eq in Hx. rewrite Hx.
    unfold SUPPORTED_VIDEO_EXTS in Hin. simpl in Hin.
    repeat (destruct Hin as [<- | Hin]; [reflexivity |]). contradiction. }
  split; [| split; [exact Hex |]].
  - intros H.
    assert (He : Str.lower (OsPath.splitext_ext p)
                 = Str.lower (OsPath.splitext_ext q)).
    { rewrite <- (splitext_basename p), <- (splitext_basename q).
      rewrite <- (lower_ext_of_lower (OsPath.basename p)).
      rewrite <- (lower_ext_of_lower (OsPath.basename q)).
      now rewrite H. }
    unfold is_supported_asset, is_video, is_image. now rewrite He.
  - unfold is_supported_asset.
    destruct (is_video p) eqn:Hv; [now rewrite (Hex eq_refl) |].
    now destruct (is_image p).
Qed.

(** An upper-case name in another directory. *)
Lemma extension_class_by_lowercase_name_witness :
  is_video "/clips/TAKE1.MOV" = is_video "/old.png/take1.mov"
  /\ is_image "/clips/TAKE1.MOV" = is_image "/old.png/take1.mov"
  /\ is_supported_asset "/clips/TAKE1.MOV"
     = is_supported_asset "/old.png/take1.mov".
Proof.
  exact (proj1 (extension_class_by_lowercase_name "/clips/TAKE1.MOV"
                  "/old.png/take1.mov") eq_refl).
Defined.


(** ** Archive detection along a path *)

Section ArchiveAlongPath.

Lemma path_parts_abs (p : string) :
  OsPath.isabs p = true ->
  exists n, path_parts p = List.repeat "" n ++ norm_comps p.
Proof.
  intros Hp. rewrite (path_parts_spec p (isabs_nonempty p Hp)).
  destruct (isabs_initial_slashes p Hp) as [k ->].
  destruct (norm_comps p) as [|a r].
  - exists (S (S k)). now rewrite app_nil_r.
  - now exists (S k).
Qed.

Lemma existsb_archive_skip (n : nat) (l : list string) :
  existsb is_archive_part (List.repeat "" n ++ l) = existsb is_archive_part l.
Proof. induction n as [|n IH]; [reflexivity | exact IH]. Qed.

Lemma first_archive_skip (n : nat) (l : list string) :
  first_archive_part (List.repeat "" n ++ l) = first_archive_part l.
Proof. induction n as [|n IH]; [reflexivity | exact IH]. Qed.

Lemma first_archive_snoc (l : list string) (c : string) :
  first_archive_part (l ++ [c])
  = match first_archive_part l with
    | Some s => Some s
    | None => if is_archive_part c then Some c else None
    end.
Proof.
  induction l as [|a l IH]; [reflexivity |]. simpl.
  destruct (is_archive_part a); [reflexivity | exact IH].
Qed.

Lemma first_archive_existsb (l : list string) :
  existsb is_archive_part l
  = match first_archive_part l with Some _ => true | None => false end.
Proof.
  induction l as [|a l IH]; [reflexivity |]. simpl.
  destruct (is_archive_part a); [reflexivity | exact IH].
Qed.

End ArchiveAlongPath.

(** X14: archive detection follows the path.  For an absolute directory and
    one more entry name, the entry counts as inside an archive exactly when
    the directory does or the name itself ends with an archive extension;
    the archive name is inherited from the directory whenever the directory
    has one.  Everything below a directory named like an archive is
    therefore "in an archive", at any depth. *)
Theorem is_in_archive_join (d name : string) :
  OsPath.isabs d = true -> proper_name name ->
  is_in_archive (OsPath.join d name) = is_in_archive d || is_archive_part name
  /\ get_archive_name (OsPath.join d name)
     = if is_in_archive d then get_archive_name d
       else if is_archive_part name then name else "".
Proof.
  intros Hd Hn. pose proof Hn as ((Hs & _) & _).
  destruct (path_parts_abs d Hd) as [n Hpd].
  destruct (path_parts_abs _ (isabs_join d name Hd Hs)) as [m Hpj].
  rewrite (norm_comps_join_name d name Hd Hn) in Hpj.
  unfold is_in_archive, get_archive_name. rewrite Hpd, Hpj.
  rewrite !existsb_archive_skip, !first_archive_skip.
  rewrite existsb_app, first_archive_snoc, (first_archive_existsb (norm_comps d)).
  cbn [existsb]. rewrite orb_false_r.
  destruct (first_archive_part (norm_comps d)); [split; reflexivity |].
  cbn [orb]. now destruct (is_archive_part name).
Qed.

(** A clip two levels below the directory [/data/pack.zip]. *)
Lemma is_in_archive_join_witness :
  is_in_archive (OsPath.join "/data/pack.zip/shots" "clip.mp4") = true
  /\ get_archive_name (OsPath.join "/data/pack.zip/shots" "clip.mp4")
     = "pack.zip".
Proof.
  exact (is_in_archive_join "/data/pack.zip/shots" "clip.mp4" eq_refl
           ltac:(repeat split; discriminate)).
Defined.


(** ** The order of effects in a run *)

Section RunShape.

Variable w : World.

Lemma logs_nil {A : Type} (m : M A) : logs (fun _ => false) m -> fst m = [].
Proof.
  unfold logs. destruct (fst m) as [|ev l]; [reflexivity |].
  intros H. inversion H. discriminate.
Qed.

Lemma logs_reads {A : Type} (m : M A) :
  logs is_read m -> Forall (fun ev => is_read ev = true) (fst m).
Proof. trivial. Qed.

Lemma make_thumbnail_split (p : string) (ts : Z) (root : string) :
  _make_thumbnail w p ts root
  = bind (prepare_cache w p root) (after_prepare w p ts).
Proof. reflexivity. Qed.

Lemma decode_media_reads (p : string) : logs is_read (decode_media w p).
Proof.
  unfold decode_media.
  repeat first
    [ apply extract_frame_video_logs; reflexivity
    | apply get_video_metadata_logs; reflexivity
    | apply read_image_oiio_logs; reflexivity
    | apply read_metadata_oiio_logs; reflexivity
    | apply imread_logs; reflexivity
    | logs_step ].
Qed.

Lemma fresh_metadata_reads (p : string) :
  logs is_read (if is_video p then get_video_metadata w p
                else read_metadata_oiio w p).
Proof.
  destruct (is_video p);
    [apply get_video_metadata_logs | apply read_metadata_oiio_logs];
    reflexivity.
Qed.

(** The log of [finish_thumbnail]: nothing when the compositor raises, else
    the one write of the canvas. *)
Lemma finish_thumbnail_log (img : ndarray) (cp : string) (ts : Z)
    (meta : string) :
  fst (finish_thumbnail w img cp ts meta) = []
  \/ exists canvas,
       composite_canvas img ts = Ok canvas
       /\ fst (finish_thumbnail w img cp ts meta) = [Imwrite cp canvas].
Proof.
  unfold finish_thumbnail.
  destruct (composite_canvas img ts) as [canvas | e]; [| now left].
  right. exists canvas. split; [reflexivity |].
  unfold lift, tell, try_ignore, bind, ret.
  destruct (cv2_imwrite w cp canvas); destruct (to_qimage canvas); reflexivity.
Qed.

(** After the cache path is known: reads, then at most one write, of the
    cache file. *)
Lemma after_prepare_shape (p : string) (ts : Z) (cp : string) :
  exists reads writes,
    fst (after_prepare w p ts cp) = reads ++ writes
    /\ Forall (fun ev => is_read ev = true) reads
    /\ (writes = [] \/ exists canvas, writes = [Imwrite cp canvas]).
Proof.
  unfold after_prepare.
  pose proof (load_cached_logs w is_read cp eq_refl) as Hl.
  unfold logs in Hl.
  destruct (load_cached w cp) as [l1 [[img |] | e]]; cbn [fst] in Hl.
  - pose proof (fresh_metadata_reads p) as Hm. unfold logs in Hm.
    destruct (if is_video p then _ else _) as [l2 r2]. cbn [fst] in Hm.
    destruct (to_qimage img) as [pixmap | e] eqn:Hq.
    + exists (l1 ++ l2), []. rewrite app_nil_r.
      split; [| split; [apply Forall_app; now split | now left]].
      unfold bind, lift, ret. rewrite Hq.
      destruct r2; cbn [fst app]; now rewrite ?app_nil_r.
    + exists l1, []. rewrite app_nil_r.
      split; [| split; [exact Hl | now left]].
      unfold bind, lift. rewrite Hq. cbn [fst]. now rewrite app_nil_r.
  - pose proof (decode_media_reads p) as Hd. unfold logs in Hd.
    destruct (decode_media w p) as [l2 [[[img |] meta] | e]]; cbn [fst] in Hd.
    + rewrite (bind_ok _ _ l1 None eq_refl). cbn [fst].
      rewrite (bind_ok _ _ l2 (Some img, meta) eq_refl). cbn [fst].
      destruct (finish_thumbnail_log img cp ts meta)
        as [Hf | (canvas & _ & Hf)]; rewrite Hf.
      * exists (l1 ++ l2), []. rewrite !app_nil_r.
        split; [reflexivity |].
        split; [apply Forall_app; now split | now left].
      * exists (l1 ++ l2), [Imwrite cp canvas].
        split; [now rewrite app_assoc |].
        split; [apply Forall_app; now split | right; now exists canvas].
    + rewrite (bind_ok _ _ l1 None eq_refl). cbn [fst].
      rewrite (bind_ok _ _ l2 (None, meta) eq_refl). cbn [fst].
      rewrite (logs_nil _ (make_placeholder_logs (fun _ => false) p ts meta)).
      exists (l1 ++ l2), []. rewrite !app_nil_r.
      split; [reflexivity |].
      split; [apply Forall_app; now split | now left].
    + rewrite (bind_ok _ _ l1 None eq_refl). cbn [fst].
      exists (l1 ++ l2), []. rewrite app_nil_r.
      split; [reflexivity |]. split; [apply Forall_app; now split | now left].
  - exists l1, []. rewrite app_nil_r. split; [reflexivity |].
    split; [exact Hl | now left].
Qed.

(** The directories a run creates: the cache root, then the shard. *)
Lemma prepare_cache_shape (p root : string) :
  (fst (prepare_cache w p root) = [Makedirs root]
   /\ forall cp, snd (prepare_cache w p root) <> Ok cp)
  \/ exists key,
       hash_for_file (os_stat w) p = Ok key
       /\ fst (prepare_cache w p root)
          = [Makedirs root;
             Makedirs (OsPath.join root (String.substring 0 2 key))].
Proof.
  unfold prepare_cache, get_cache_path, makedirs, bind, tell, lift, ret.
  destruct (os_makedirs w root) as [[] | e]; [| left; split; [reflexivity | discriminate]].
  destruct (hash_for_file (os_stat w) p) as [key | e];
    [| left; split; [reflexivity | discriminate]].
  right. exists key. split; [reflexivity |].
  now destruct (os_makedirs w _) as [[] | e].
Qed.

End RunShape.

(** X15: the order of effects.  The log of every run, whatever the file
    system and the decoders do and whether the run returns or raises, is:
    the creation of the cache root and then of the shard directory, then
    only reads, then at most one write, which goes to the cache path of the
    source, then at most one delivery.  A run creates no other directory,
    writes no other file and never writes after it delivered. *)
Theorem run_effects_in_order (w : World) (p : string) (ts : Z) (root : string) :
  exists dirs reads writes emits,
    fst (run w p ts root) = dirs ++ reads ++ writes ++ emits
    /\ (dirs = [Makedirs root]
        \/ exists key,
             hash_for_file (os_stat w) p = Ok key
             /\ dirs = [Makedirs root;
                        Makedirs (OsPath.join root (String.substring 0 2 key))])
    /\ Forall (fun ev => is_read ev = true) reads
    /\ (writes = []
        \/ exists l0 cp canvas,
             prepare_cache w p root = (l0, Ok cp)
             /\ writes = [Imwrite cp canvas])
    /\ (emits = []
        \/ exists pixmap meta,
             emits = [Emit {| path := p; pixmap := Some pixmap;
                              meta_text := meta |}]).
Proof.
  unfold run. rewrite make_thumbnail_split.
  pose proof (prepare_cache_shape w p root) as Hd.
  destruct (prepare_cache w p root) as [l0 [cp | e]] eqn:Hp; cbn [fst snd] in Hd.
  - destruct (after_prepare_shape w p ts cp) as (reads & writes & Ha & Hr & Hw).
    assert (Hdirs : l0 = [Makedirs root]
                    \/ exists key,
                         hash_for_file (os_stat w) p = Ok key
                         /\ l0 = [Makedirs root;
                                  Makedirs (OsPath.join root
                                              (String.substring 0 2 key))]).
    { destruct Hd as [[_ Hno] | Hd]; [now contradiction (Hno cp) | now right]. }
    assert (Hwrites : writes = []
                      \/ exists l0' cp' canvas,
                           (l0, @Ok string cp) = (l0', Ok cp')
                           /\ writes = [Imwrite cp' canvas]).
    { destruct Hw as [-> | (canvas & ->)]; [now left |].
      right. now exists l0, cp, canvas. }
    unfold bind at 2.
    destruct (after_prepare w p ts cp) as [la [[pixmap meta] | e]];
      cbn [fst] in Ha; subst la.
    + exists l0, reads, writes,
        [Emit {| path := p; pixmap := Some pixmap; meta_text := meta |}].
      split; [| split; [exact Hdirs | split; [exact Hr | split;
                 [exact Hwrites | right; now exists pixmap, meta]]]].
      unfold bind, tell. cbn [fst]. now rewrite <- !app_assoc.
    + exists l0, reads, writes, [].
      split; [| split; [exact Hdirs | split; [exact Hr | split;
                 [exact Hwrites | now left]]]].
      unfold bind. cbn [fst]. now rewrite app_nil_r.
  - exists l0, [], [], []. rewrite !app_nil_r.
    split; [reflexivity |].
    split; [destruct Hd as [[Hd _] | (key & Hk & Hd)]; [now left | right; now exists key] |].
    split; [constructor |]. split; now left.
Qed.


(** ** Rounding errors of the compositor *)

Section FloatBounds.

Lemma rhe_upper (num den : Z) :
  0 < den -> 2 * den * Float.round_half_even num den <= 2 * num + den.
Proof.
  intros Hd. unfold Float.round_half_even. cbv zeta.
  pose proof (Z.div_mod num den ltac:(lia)) as E.
  pose proof (Z.mod_pos_bound num den Hd) as B.
  destruct (Z.ltb_spec (2 * (num mod den)) den); [nia |].
  destruct (Z.ltb_spec den (2 * (num mod den))); [nia |].
  destruct (Z.even (num / den)); nia.
Qed.

Lemma rhe_nonneg (num den : Z) :
  0 <= num -> 0 < den -> 0 <= Float.round_half_even num den.
Proof.
  intros Hn Hd. unfold Float.round_half_even. cbv zeta.
  pose proof (Z.div_pos num den Hn Hd) as Q.
  destruct (_ <? _); [exact Q |].
  destruct (_ <? _); [lia |].
  destruct (Z.even _); lia.
Qed.

Lemma IZR_pow2 (e : Z) : 0 <= e -> IZR (2 ^ e) = powerRZ 2 e.
Proof.
  intros H. rewrite <- (Z2Nat.id e H).
  now rewrite <- pow_IZR, pow_powerRZ.
Qed.

Lemma pow2_pos (e : Z) : (0 < powerRZ 2 e)%R.
Proof. apply powerRZ_lt. lra. Qed.

Lemma pow2_add (a b : Z) : powerRZ 2 (a + b) = (powerRZ 2 a * powerRZ 2 b)%R.
Proof. apply powerRZ_add. lra. Qed.

Lemma pow2_neg (a : Z) : (powerRZ 2 a * powerRZ 2 (- a) = 1)%R.
Proof. rewrite <- pow2_add. now replace (a + - a) with 0 by lia. Qed.

(** [2 ^ ilog2_ratio p q <= p / q] *)
Lemma ilog2_lower (p q : Z) :
  0 < p -> 0 < q ->
  (IZR q * powerRZ 2 (Float.ilog2_ratio p q) <= IZR p)%R.
Proof.
  intros Hp Hq. unfold Float.ilog2_ratio. cbv zeta.
  set (l := Z.log2 p - Z.log2 q).
  pose proof (Z.log2_spec p Hp) as [Lp _].
  pose proof (Z.log2_spec q Hq) as [_ Lq].
  pose proof (Z.log2_nonneg p) as Np. pose proof (Z.log2_nonneg q) as Nq.
  assert (Hlow : (IZR q * powerRZ 2 (l - 1) <= IZR p)%R).
  { apply IZR_le in Lp. apply IZR_lt in Lq.
    rewrite IZR_pow2 in Lp by lia. rewrite IZR_pow2 in Lq by lia.
    replace (Z.log2 p) with (Z.succ (Z.log2 q) + (l - 1)) in Lp by (unfold l; lia).
    rewrite pow2_add in Lp.
    pose proof (pow2_pos (l - 1)). pose proof (pow2_pos (Z.succ (Z.log2 q))).
    nra. }
  destruct (Z.leb_spec 0 l) as [Hl | Hl].
  - destruct (Z.leb_spec (q * 2 ^ l) p) as [Hge | Hge]; [| exact Hlow].
    apply IZR_le in Hge. rewrite mult_IZR, IZR_pow2 in Hge by lia. exact Hge.
  - destruct (Z.leb_spec q (p * 2 ^ (- l))) as [Hge | Hge]; [| exact Hlow].
    apply IZR_le in Hge. rewrite mult_IZR, IZR_pow2 in Hge by lia.
    pose proof (pow2_neg l). pose proof (pow2_pos l). pose proof (pow2_pos (- l)).
    apply IZR_lt in Hq. nra.
Qed.


Lemma eps_pos : (0 < float_eps)%R.
Proof. apply pow2_pos. Qed.

Lemma eps_52 : (powerRZ 2 (-52) = 2 * float_eps)%R.
Proof.
  unfold float_eps. replace (-52) with (1 + -53) by lia. rewrite pow2_add.
  simpl. lra.
Qed.

Lemma rne_pos_upper (p q : Z) :
  0 < p -> 0 < q ->
  (float_val (Float.rne_pos p q) * IZR q <= IZR p * (1 + float_eps))%R
  /\ 0 <= Float.man (Float.rne_pos p q).
Proof.
  intros Hp Hq. unfold Float.rne_pos. cbv zeta.
  pose proof (ilog2_lower p q Hp Hq) as HB.
  set (l := Float.ilog2_ratio p q) in *. set (e := l - 52).
  set (m := if 0 <=? e then Float.round_half_even p (q * 2 ^ e)
            else Float.round_half_even (p * 2 ^ (- e)) q).
  assert (Hpow : forall k, 0 <= k -> 0 < 2 ^ k)
    by (intros; apply Z.pow_pos_nonneg; lia).
  assert (Hm : 0 <= m).
  { unfold m. destruct (0 <=? e) eqn:E.
    - apply rhe_nonneg; [lia |]. apply Z.leb_le in E.
      specialize (Hpow e E). nia.
    - apply rhe_nonneg; [| lia]. apply Z.leb_gt in E.
      specialize (Hpow (- e) ltac:(lia)). nia. }
  split; [| exact Hm]. unfold float_val. cbn [Float.man Float.exp].
  assert (HK : (2 * IZR q * IZR m * powerRZ 2 e
                <= 2 * IZR p + IZR q * powerRZ 2 e)%R).
  { unfold m. destruct (Z.leb_spec 0 e) as [E | E].
    - pose proof (rhe_upper p (q * 2 ^ e)
                    ltac:(specialize (Hpow e E); nia)) as H.
      apply IZR_le in H.
      rewrite !mult_IZR, plus_IZR, !mult_IZR, IZR_pow2 in H by lia.
      lra.
    - pose proof (rhe_upper (p * 2 ^ (- e)) q Hq) as H.
      apply IZR_le in H.
      rewrite !mult_IZR, plus_IZR, !mult_IZR, IZR_pow2 in H by lia.
      pose proof (pow2_neg e). pose proof (pow2_pos e).
      pose proof (pow2_pos (- e)).
      set (a := powerRZ 2 e) in *. set (b := powerRZ 2 (- e)) in *.
      set (M := IZR (Float.round_half_even (p * 2 ^ (- e)) q)) in *.
      assert (H3 : (a * (2 * IZR q * M) <= a * (2 * (IZR p * b) + IZR q))%R)
        by (apply Rmult_le_compat_l; lra).
      replace (a * (2 * (IZR p * b) + IZR q))%R
        with (2 * IZR p * (a * b) + IZR q * a)%R in H3 by ring.
      rewrite H0 in H3. lra. }
  assert (HB' : (IZR q * powerRZ 2 e <= IZR p * (2 * float_eps))%R).
  { replace l with (e + 52) in HB by (unfold e; lia).
    rewrite pow2_add in HB. rewrite <- eps_52.
    assert (H52 : (powerRZ 2 52 * powerRZ 2 (-52) = 1)%R)
      by exact (pow2_neg 52).
    pose proof (pow2_pos (-52)).
    pose proof (pow2_pos 52).
    set (a := powerRZ 2 e) in *. set (b := powerRZ 2 52) in *.
    set (c := powerRZ 2 (-52)) in *.
    assert (H3 : (c * (IZR q * (a * b)) <= c * IZR p)%R)
      by (apply Rmult_le_compat_l; lra).
    replace (c * (IZR q * (a * b)))%R with (IZR q * a * (b * c))%R in H3
      by ring.
    rewrite H52 in H3. lra. }
  lra.
Qed.

Lemma rne_upper (p q : Z) :
  0 <= p -> 0 < q ->
  (float_val (Float.rne p q) * IZR q <= IZR p * (1 + float_eps))%R
  /\ 0 <= Float.man (Float.rne p q).
Proof.
  intros Hp Hq. unfold Float.rne.
  destruct (Z.eqb_spec p 0) as [-> | Hn].
  - unfold float_val. simpl. split; [lra | lia].
  - destruct (Z.ltb_spec p 0); [lia |]. apply rne_pos_upper; lia.
Qed.

Lemma val_nonneg (x : Float.t) : 0 <= Float.man x -> (0 <= float_val x)%R.
Proof.
  intros H. unfold float_val. apply IZR_le in H. pose proof (pow2_pos (Float.exp x)).
  nra.
Qed.

Lemma mul_upper (x y : Float.t) :
  0 <= Float.man x -> 0 <= Float.man y ->
  (float_val (Float.mul x y) <= float_val x * float_val y * (1 + float_eps))%R
  /\ 0 <= Float.man (Float.mul x y).
Proof.
  intros Hx Hy. unfold Float.mul. cbv zeta.
  set (m := Float.man x * Float.man y). set (e := Float.exp x + Float.exp y).
  assert (Hm : 0 <= m) by (unfold m; nia).
  assert (Hv : (float_val x * float_val y = IZR m * powerRZ 2 e)%R).
  { unfold float_val, m, e. rewrite mult_IZR, pow2_add. ring. }
  rewrite Hv.
  destruct (Z.leb_spec 0 e) as [E | E].
  - destruct (rne_upper (m * 2 ^ e) 1) as [H1 H2];
      [assert (0 < 2 ^ e) by (apply Z.pow_pos_nonneg; lia); nia | lia |].
    split; [| exact H2].
    rewrite mult_IZR, IZR_pow2 in H1 by lia. lra.
  - destruct (rne_upper m (2 ^ (- e))) as [H1 H2];
      [lia | apply Z.pow_pos_nonneg; lia |].
    split; [| exact H2].
    rewrite IZR_pow2 in H1 by lia.
    pose proof (pow2_neg e). pose proof (pow2_pos e).
    pose proof (pow2_pos (- e)).
    set (a := powerRZ 2 e) in *. set (b := powerRZ 2 (- e)) in *.
    set (V := float_val (Float.rne m (2 ^ (- e)))) in *.
    assert (HV : (a * (V * b) <= a * (IZR m * (1 + float_eps)))%R)
      by (apply Rmult_le_compat_l; lra).
    replace (a * (V * b))%R with (V * (a * b))%R in HV by ring.
    rewrite H in HV. lra.
Qed.

Lemma ltb_val (x y : Float.t) :
  if Float.ltb x y then (float_val x < float_val y)%R else (float_val y <= float_val x)%R.
Proof.
  unfold Float.ltb. cbv zeta.
  set (e := Z.min (Float.exp x) (Float.exp y)).
  assert (Hx : (float_val x = IZR (Float.man x * 2 ^ (Float.exp x - e))
                        * powerRZ 2 e)%R).
  { unfold float_val. rewrite mult_IZR, IZR_pow2 by (unfold e; lia).
    rewrite Rmult_assoc, <- pow2_add. f_equal. f_equal. lia. }
  assert (Hy : (float_val y = IZR (Float.man y * 2 ^ (Float.exp y - e))
                        * powerRZ 2 e)%R).
  { unfold float_val. rewrite mult_IZR, IZR_pow2 by (unfold e; lia).
    rewrite Rmult_assoc, <- pow2_add. f_equal. f_equal. lia. }
  rewrite Hx, Hy. pose proof (pow2_pos e).
  destruct (Z.ltb_spec (Float.man x * 2 ^ (Float.exp x - e))
                       (Float.man y * 2 ^ (Float.exp y - e))) as [L | L].
  - apply IZR_lt in L. nra.
  - apply IZR_le in L. nra.
Qed.

Lemma min_upper (x y : Float.t) :
  0 <= Float.man x -> 0 <= Float.man y ->
  (float_val (Float.min x y) <= float_val x)%R /\ (float_val (Float.min x y) <= float_val y)%R
  /\ 0 <= Float.man (Float.min x y).
Proof.
  intros Hx Hy. unfold Float.min. pose proof (ltb_val y x) as H.
  destruct (Float.ltb y x); repeat split; try assumption; lra.
Qed.

Lemma trunc_upper (x : Float.t) (W : Z) :
  0 <= Float.man x -> (float_val x < IZR (W + 1))%R -> Float.trunc x <= W.
Proof.
  intros Hm Hv. unfold Float.trunc, float_val in *.
  destruct (Z.leb_spec 0 (Float.exp x)) as [E | E].
  - rewrite <- IZR_pow2, <- mult_IZR in Hv by lia.
    apply lt_IZR in Hv. lia.
  - assert (Hd : 0 < 2 ^ (- Float.exp x)) by (apply Z.pow_pos_nonneg; lia).
    rewrite Z.quot_div_nonneg by lia.
    apply Z.lt_succ_r, Z.div_lt_upper_bound; [exact Hd |].
    apply lt_IZR. rewrite mult_IZR, IZR_pow2 by lia.
    pose proof (pow2_neg (Float.exp x)). pose proof (pow2_pos (Float.exp x)).
    pose proof (pow2_pos (- Float.exp x)).
    set (a := powerRZ 2 (Float.exp x)) in *.
    set (b := powerRZ 2 (- Float.exp x)) in *.
    change (Z.succ W) with (W + 1).
    assert (HV : (b * (IZR (Float.man x) * a) < b * IZR (W + 1))%R)
      by (apply Rmult_lt_compat_l; lra).
    replace (b * (IZR (Float.man x) * a))%R
      with (IZR (Float.man x) * (a * b))%R in HV by ring.
    rewrite H in HV. lra.
Qed.

Lemma eps_small : (float_eps * 9007199254740992 = 1)%R.
Proof.
  unfold float_eps. change 9007199254740992%R with (IZR (2 ^ 53)).
  rewrite IZR_pow2 by lia. rewrite Rmult_comm. exact (pow2_neg 53).
Qed.

(** One side of the pasted content: scaled by a factor that is at most the
    rounded quotient [W / w], it does not exceed [W]. *)
Lemma scaled_dim_fits (w W : Z) (s : Float.t) :
  1 <= w -> 1 <= W -> 9 * W < 2 ^ 53 -> 0 <= Float.man s ->
  (float_val s * IZR w <= IZR W * (1 + float_eps))%R ->
  Z.max 1 (Float.trunc (Float.mul (Float.of_int w) s)) <= W.
Proof.
  intros Hw HW Hb Hs Hv. apply Z.max_lub; [exact HW |].
  destruct (rne_upper w 1 ltac:(lia) ltac:(lia)) as [Hf Hfm].
  fold (Float.of_int w) in Hf, Hfm.
  destruct (mul_upper (Float.of_int w) s Hfm Hs) as [Hp Hpm].
  apply trunc_upper; [exact Hpm |].
  pose proof (val_nonneg s Hs) as Hs0.
  pose proof (val_nonneg _ Hfm) as Hf0.
  pose proof eps_pos as He. pose proof eps_small as He2.
  rewrite plus_IZR. apply IZR_lt in Hb. rewrite mult_IZR in Hb.
  change (IZR (2 ^ 53)) with 9007199254740992%R in Hb.
  apply IZR_le in Hw, HW.
  set (f := float_val (Float.of_int w)) in *. set (v := float_val s) in *.
  set (P := float_val (Float.mul (Float.of_int w) s)) in *.
  assert (H1 : (f * v <= IZR w * (1 + float_eps) * v)%R)
    by (apply Rmult_le_compat_r; lra).
  assert (H2 : (IZR w * (1 + float_eps) * v <= (1 + float_eps) * (IZR W * (1 + float_eps)))%R)
    by nra.
  assert (H3 : (P <= IZR W * ((1 + float_eps) * (1 + float_eps) * (1 + float_eps)))%R) by nra.
  assert (H4 : (IZR W * float_eps < / 9)%R) by nra.
  assert (H5 : (float_eps < 1)%R) by nra.
  nra.
Qed.

End FloatBounds.


(** X16: the pasted content lies inside the canvas.  For a raster of any
    positive size (sides below [2 ^ 63]) and a thumbnail width from 2 up
    (below [2 ^ 53 / 9]), the
    compositor returns a canvas of [thumb_height] rows and [thumb_size]
    columns and the resized raster, at least one pixel in each direction,
    fits between the offsets and the far edges: the rounding errors of
    [thumb_size / w], [thumb_height / h] and of the two products never push
    a side past the canvas, so the slice assignment has the shape of the
    resized raster. *)
Theorem pasted_content_fits_canvas (img : ndarray) (h w W : Z) :
  shape img = (h, w) -> 1 <= h < 2 ^ 63 -> 1 <= w < 2 ^ 63 ->
  2 <= W -> 9 * W < 2 ^ 53 ->
  exists y0 x0 new_h new_w,
    composite_canvas img W
    = Ok (Composite (W * 9 / 16) W y0 x0 new_h new_w img)
    /\ 1 <= new_w /\ 1 <= new_h
    /\ 0 <= x0 /\ x0 + new_w <= W
    /\ 0 <= y0 /\ y0 + new_h <= W * 9 / 16.
Proof.
  intros Hshape [Hh _] [Hw _] HW Hb. unfold composite_canvas. rewrite Hshape.
  rewrite (thumb_height_exact W) by lia. cbn [rbind]. unfold scaled_size.
  rewrite !truediv_pos by lia. cbn [rbind].
  set (H := W * 9 / 16).
  assert (HH : 1 <= H <= W).
  { unfold H. split.
    - apply Z.div_le_lower_bound; lia.
    - apply Z.div_le_upper_bound; lia. }
  destruct (Z.ltb_spec H 0); [lia |].
  destruct (Z.ltb_spec W 0); [lia |]. cbn [orb].
  set (scale := Float.min (Float.rne W w) (Float.rne H h)).
  set (new_w := Z.max 1 (Float.trunc (Float.mul (Float.of_int w) scale))).
  set (new_h := Z.max 1 (Float.trunc (Float.mul (Float.of_int h) scale))).
  destruct (rne_upper W w ltac:(lia) ltac:(lia)) as [Hsw Hswm].
  destruct (rne_upper H h ltac:(lia) ltac:(lia)) as [Hsh Hshm].
  destruct (min_upper _ _ Hswm Hshm) as (Hm1 & Hm2 & Hmm).
  fold scale in Hm1, Hm2, Hmm.
  assert (Hfw : new_w <= W).
  { apply scaled_dim_fits; try lia.
    apply IZR_le in Hw.
    apply Rle_trans with (float_val (Float.rne W w) * IZR w)%R; [| exact Hsw].
    apply Rmult_le_compat_r; lra. }
  assert (Hfh : new_h <= H).
  { apply scaled_dim_fits; try lia.
    apply IZR_le in Hh.
    apply Rle_trans with (float_val (Float.rne H h) * IZR h)%R; [| exact Hsh].
    apply Rmult_le_compat_r; lra. }
  exists ((H - new_h) / 2), ((W - new_w) / 2), new_h, new_w.
  split; [reflexivity |].
  assert (1 <= new_w) by apply Z.le_max_l.
  assert (1 <= new_h) by apply Z.le_max_l.
  pose proof (Z.div_pos (W - new_w) 2 ltac:(lia) ltac:(lia)).
  pose proof (Z.div_pos (H - new_h) 2 ltac:(lia) ltac:(lia)).
  pose proof (Z.div_le_upper_bound (W - new_w) 2 (W - new_w) ltac:(lia)
                ltac:(lia)).
  pose proof (Z.div_le_upper_bound (H - new_h) 2 (H - new_h) ltac:(lia)
                ltac:(lia)).
  repeat split; lia.
Qed.

(** A 640 x 480 raster on a 256-pixel thumbnail. *)
Lemma pasted_content_fits_canvas_witness :
  exists y0 x0 new_h new_w,
    composite_canvas (Decoded 480 640 1) 256
    = Ok (Composite (256 * 9 / 16) 256 y0 x0 new_h new_w (Decoded 480 640 1))
    /\ 1 <= new_w /\ 1 <= new_h
    /\ 0 <= x0 /\ x0 + new_w <= 256
    /\ 0 <= y0 /\ y0 + new_h <= 256 * 9 / 16.
Proof.
  apply (pasted_content_fits_canvas (Decoded 480 640 1) 480 640 256);
    [reflexivity | lia | lia | lia | lia].
Defined.


(** ** The class of a path before and after [normpath] *)

Section ClassUnderNormpath.

Lemma join_snoc (prev : list string) (b : string) :
  prev <> [] ->
  Str.join OsPath.sep (prev ++ [b])
  = Str.join OsPath.sep prev +:+ OsPath.sep +:+ b.
Proof.
  induction prev as [|a r IH]; [contradiction |]. intros _.
  destruct r as [|c r]; [reflexivity |].
  change (Str.join OsPath.sep ((a :: c :: r) ++ [b]))
    with (a +:+ OsPath.sep +:+ Str.join OsPath.sep ((c :: r) ++ [b])).
  rewrite IH by discriminate.
  change (Str.join OsPath.sep (a :: c :: r))
    with (a +:+ OsPath.sep +:+ Str.join OsPath.sep (c :: r)).
  now rewrite !append_assoc.
Qed.

Lemma basename_after_sep (x b : string) :
  Str.contains Str.slash b = false ->
  OsPath.basename (x +:+ OsPath.sep +:+ b) = b.
Proof.
  intros Hb. unfold OsPath.basename, OsPath.sep.
  rewrite append_cons, append_nil_l. change "/"%char with Str.slash.
  now rewrite rpartition_app.
Qed.

Lemma basename_after_slashes (n : nat) (b : string) :
  Str.contains Str.slash b = false ->
  OsPath.basename (Str.repeat Str.slash n +:+ b) = b.
Proof.
  intros Hb. destruct n as [|n].
  - rewrite append_nil_l. unfold OsPath.basename.
    now rewrite (contains_none_rpartition _ _ Hb).
  - assert (E : Str.repeat Str.slash (S n)
                = Str.repeat Str.slash n +:+ OsPath.sep).
    { induction n as [|n IH]; [reflexivity |].
      change (Str.repeat Str.slash (S (S n)))
        with (String Str.slash (Str.repeat Str.slash (S n))).
      rewrite IH at 1. now rewrite <- append_cons. }
    rewrite E, append_assoc. now apply basename_after_sep.
Qed.

(** [normpath] keeps a base name that is a real entry name. *)
Lemma basename_normpath (p : string) :
  proper_name (OsPath.basename p) ->
  OsPath.basename (OsPath.normpath p) = OsPath.basename p.
Proof.
  intros ((Hs & H1 & H2) & H3).
  assert (Hp : p <> "") by (intros ->; now apply H1).
  destruct (norm_comps_last p H1 H2 H3) as [prev Hprev].
  rewrite (normpath_spec p Hp), Hprev.
  assert (E : forall n,
    OsPath.basename (Str.repeat Str.slash n
                     +:+ Str.join OsPath.sep (prev ++ [OsPath.basename p]))
    = OsPath.basename p).
  { intros n. destruct prev as [|a r].
    - now apply basename_after_slashes.
    - rewrite join_snoc by discriminate. rewrite <- append_assoc.
      now apply basename_after_sep. }
  destruct (OsPath.initial_slashes p) as [|n];
    destruct (prev ++ [OsPath.basename p]) as [|a r] eqn:El;
    try (now destruct prev); rewrite <- El; apply E.
Qed.

End ClassUnderNormpath.

(** X17: normalization keeps the class.  For a path whose base name is an
    entry name (not empty, not [.] or [..]), [normpath] keeps the base name,
    so the raw path, which the cache-hit branch classifies, and the
    normalized path, which the decode stage classifies, are videos or
    images alike, and the video metadata reader returns the same on both. *)
Theorem class_stable_under_normpath (w : World) (p : string) :
  proper_name (OsPath.basename p) ->
  OsPath.basename (OsPath.normpath p) = OsPath.basename p
  /\ is_video (OsPath.normpath p) = is_video p
  /\ is_image (OsPath.normpath p) = is_image p
  /\ get_video_metadata w (OsPath.normpath p) = get_video_metadata w p.
Proof.
  intros Hb. pose proof (basename_normpath p Hb) as E.
  assert (Hx : OsPath.splitext_ext (OsPath.normpath p) = OsPath.splitext_ext p).
  { rewrite <- (splitext_basename (OsPath.normpath p)), E.
    apply splitext_basename. }
  split; [exact E |].
  unfold is_video, is_image, get_video_metadata, format_label.
  now rewrite Hx, normpath_idempotent.
Qed.

(** A listed clip, written with a doubled separator. *)
Lemma class_stable_under_normpath_witness :
  is_video (OsPath.normpath "/clips//take1.MOV") = is_video "/clips//take1.MOV".
Proof.
  exact (proj1 (proj2 (class_stable_under_normpath empty_world
                         "/clips//take1.MOV"
                         ltac:(repeat split; discriminate)))).
Defined.

(** Without an entry name at the end the two classes differ: the raw path
    [/d/clip.mp4/.] is not a video, the normalized one is. *)
Example class_changes_under_normpath :
  is_video "/d/clip.mp4/." = false
  /\ is_video (OsPath.normpath "/d/clip.mp4/.") = true.
Proof. split; reflexivity. Qed.
